(** * BookHub: a shallow embedding of the extension's sync plumbing

    The development follows the JavaScript sources:
    - [lib/bookmark-serializer.js] (module [Serializer], over
      [JSON.stringify] in [Json]),
    - the GitHub Contents API wrapper, [lib/github-api.js] (module
      [GitHub], over the built-ins in [Base64] and [Utf8]),
    - the background service worker, [background.js] (module
      [Background]),
    together with a small model of the single-flight discipline of the
    sync engine (module [Coordinator]).

    Further modules cover the rest of the wrapper ([GitHubOps], over
    [trim] and [split] in [Text]), the Markdown view of the serializer
    ([Markdown]), the periodic alarm ([Alarm]), the popup ([Popup]), the
    validation of the options page ([Options]) and the theme ([Theme]).

    JavaScript values are modelled dynamically where the code inspects
    them dynamically (truthiness, [??], [!==], property lookup); strings
    are sequences of UTF-16 code units, as in the language. *)

From Stdlib Require Import ZArith NArith Lia List Ascii String Bool.
From Stdlib Require Import DecimalString DecimalZ.
From stdpp Require Import gmap strings list.
Import ListNotations.

Set Default Proof Using "Type".
Local Open Scope Z_scope.

(** ** JavaScript values *)

Module JS.

(** A string is a sequence of UTF-16 code units. *)
Definition code_unit := N.
Definition jsstring := list code_unit.

(** An ASCII literal of the source text, as code units. *)
Definition lit (s : string) : jsstring :=
  map N_of_ascii (list_ascii_of_string s).

(** Numbers are restricted to the integers: the numbers the modelled code
    handles are timestamps in milliseconds, delays, versions and HTTP
    status codes, all far below 2^53.  Objects keep their properties in
    insertion order, the order [JSON.stringify] prints them in. *)
#[warnings="-register-all"] Inductive value : Type :=
| VUndefined
| VNull
| VBool (b : bool)
| VNum (n : Z)
| VStr (s : jsstring)
| VArr (items : list value)
| VObj (fields : list (string * value)).

(** [ToBoolean]. *)
Definition truthy (v : value) : bool :=
  match v with
  | VUndefined | VNull => false
  | VBool b => b
  | VNum n => negb (n =? 0)
  | VStr s => match s with [] => false | _ => true end
  | VArr _ | VObj _ => true
  end.

Definition falsy (v : value) : bool := negb (truthy v).

(** [v === undefined || v === null]. *)
Definition nullish (v : value) : bool :=
  match v with
  | VUndefined | VNull => true
  | _ => false
  end.

(** [a ?? b]. *)
Definition coalesce (a b : value) : value :=
  if nullish a then b else a.

Fixpoint assoc (k : string) (fields : list (string * value)) : value :=
  match fields with
  | [] => VUndefined
  | (k', v) :: rest => if String.eqb k k' then v else assoc k rest
  end.

(** [v.k] for a property [k] that no prototype defines: the own property
    of an object, [undefined] on every other (non-nullish) value. *)
Definition get_prop (v : value) (k : string) : value :=
  match v with
  | VObj fields => assoc k fields
  | _ => VUndefined
  end.

(** [m[k]] on an object used as a dictionary. *)
Definition index (m : gmap string value) (k : string) : value :=
  default VUndefined (m !! k).

(** [v === 1] and the like, against a number. *)
Definition strict_eq_num (v : value) (n : Z) : bool :=
  match v with
  | VNum m => m =? n
  | _ => false
  end.

(** Exceptions the modelled code can raise.  A [GitHubError] carries its
    message and its [statusCode]. *)
Inductive exn :=
| GitHubError (message : jsstring) (statusCode : Z)
| TypeError
| SyntaxError
| InvalidCharacterError
| Error (message : jsstring).

(** The outcome of a call that may throw. *)
Inductive result (A : Type) :=
| Return (a : A)
| Throw (e : exn).
Arguments Return {A} a.
Arguments Throw {A} e.

Definition bind {A B} (r : result A) (k : A -> result B) : result B :=
  match r with
  | Return a => k a
  | Throw e => Throw e
  end.

Notation "x <- r ;; k" := (bind r (fun x => k))
  (at level 100, r at next level, right associativity).

(** [v.k] as an expression of its own: reading a property of [null] or
    [undefined] throws. *)
Definition read_prop (v : value) (k : string) : result value :=
  if nullish v then Throw TypeError
  else Return (get_prop v k).

End JS.

(** ** Base64: [btoa] and [atob] *)

Module Base64.
Import JS.
Local Open Scope N_scope.

Definition PAD : code_unit := 61.   (* = *)

(** The base64 alphabet: A-Z, a-z, 0-9, + and /. *)
Definition char_of_sextet (i : N) : code_unit :=
  if i <? 26 then 65 + i
  else if i <? 52 then 97 + (i - 26)
  else if i <? 62 then 48 + (i - 52)
  else if i =? 62 then 43
  else 47.

Definition sextet_of_char (c : code_unit) : option N :=
  if (65 <=? c) && (c <=? 90) then Some (c - 65)
  else if (97 <=? c) && (c <=? 122) then Some (c - 97 + 26)
  else if (48 <=? c) && (c <=? 57) then Some (c - 48 + 52)
  else if c =? 43 then Some 62
  else if c =? 47 then Some 63
  else None.

(** Three bytes become four characters; a last group of one or two bytes
    is padded with [=]. *)
Fixpoint encode_bytes (l : list N) : jsstring :=
  match l with
  | [] => []
  | a :: r =>
      match r with
      | [] =>
          [char_of_sextet (a / 4); char_of_sextet ((a mod 4) * 16); PAD; PAD]
      | b :: r1 =>
          match r1 with
          | [] =>
              [char_of_sextet (a / 4);
               char_of_sextet ((a mod 4) * 16 + b / 16);
               char_of_sextet ((b mod 16) * 4);
               PAD]
          | c :: r2 =>
              char_of_sextet (a / 4)
              :: char_of_sextet ((a mod 4) * 16 + b / 16)
              :: char_of_sextet ((b mod 16) * 4 + c / 64)
              :: char_of_sextet (c mod 64)
              :: encode_bytes r2
          end
      end
  end.

(** [btoa(s)]: every character of [s] has to be a byte. *)
Definition btoa (s : jsstring) : result jsstring :=
  if forallb (fun c => c <=? 255) s then Return (encode_bytes s)
  else Throw InvalidCharacterError.

(** ASCII whitespace: TAB, LF, FF, CR and SPACE. *)
Definition is_ascii_whitespace (c : code_unit) : bool :=
  (c =? 9) || (c =? 10) || (c =? 12) || (c =? 13) || (c =? 32).

(** Remove the one or two [=] the data ends with. *)
Fixpoint drop_padding (l : jsstring) : jsstring :=
  match l with
  | [] => []
  | x :: r =>
      match r with
      | [] => if x =? PAD then [] else [x]
      | y :: r1 =>
          match r1 with
          | [] => if (x =? PAD) && (y =? PAD) then [] else x :: drop_padding r
          | _ :: _ => x :: drop_padding r
          end
      end
  end.

Fixpoint sextets (l : jsstring) : option (list N) :=
  match l with
  | [] => Some []
  | c :: r =>
      match sextet_of_char c, sextets r with
      | Some i, Some sx => Some (i :: sx)
      | _, _ => None
      end
  end.

(** Four sextets become three bytes; of a last group of two or three
    sextets the bits that do not fill a byte are discarded. *)
Fixpoint decode_sextets (l : list N) : list N :=
  match l with
  | [] => []
  | s1 :: r =>
      match r with
      | [] => []
      | s2 :: r1 =>
          match r1 with
          | [] => [s1 * 4 + s2 / 16]
          | s3 :: r2 =>
              match r2 with
              | [] => [s1 * 4 + s2 / 16; (s2 mod 16) * 16 + s3 / 4]
              | s4 :: r3 =>
                  (s1 * 4 + s2 / 16)
                  :: ((s2 mod 16) * 16 + s3 / 4)
                  :: ((s3 mod 4) * 64 + s4)
                  :: decode_sextets r3
              end
          end
      end
  end.

(** [atob(data)], the forgiving base64 decoding of the HTML standard. *)
Definition atob (data : jsstring) : result jsstring :=
  let d := List.filter (fun c => negb (is_ascii_whitespace c)) data in
  let d := if (length d mod 4 =? 0)%nat then drop_padding d else d in
  if (length d mod 4 =? 1)%nat then Throw InvalidCharacterError
  else
    match sextets d with
    | Some sx => Return (decode_sextets sx)
    | None => Throw InvalidCharacterError
    end.

End Base64.

(** ** [TextEncoder] and [TextDecoder] (UTF-8) *)

Module Utf8.
Import JS.
Local Open Scope N_scope.

Definition REPLACEMENT : N := 0xFFFD.

Definition is_high_surrogate (c : N) : bool := (0xD800 <=? c) && (c <=? 0xDBFF).
Definition is_low_surrogate (c : N) : bool := (0xDC00 <=? c) && (c <=? 0xDFFF).

(** The scalar values of a string: a surrogate pair is one code point, a
    surrogate that is not part of a pair becomes U+FFFD. *)
Fixpoint scalar_values (s : jsstring) : list N :=
  match s with
  | [] => []
  | c :: r =>
      if is_high_surrogate c then
        match r with
        | [] => [REPLACEMENT]
        | d :: r1 =>
            if is_low_surrogate d
            then (0x10000 + (c - 0xD800) * 0x400 + (d - 0xDC00))
                 :: scalar_values r1
            else REPLACEMENT :: scalar_values r
        end
      else if is_low_surrogate c then REPLACEMENT :: scalar_values r
      else c :: scalar_values r
  end.

Definition encode_code_point (cp : N) : list N :=
  if cp <? 0x80 then [cp]
  else if cp <? 0x800 then [0xC0 + cp / 64; 0x80 + cp mod 64]
  else if cp <? 0x10000 then
    [0xE0 + cp / 4096; 0x80 + (cp / 64) mod 64; 0x80 + cp mod 64]
  else
    [0xF0 + cp / 262144; 0x80 + (cp / 4096) mod 64;
     0x80 + (cp / 64) mod 64; 0x80 + cp mod 64].

(** [new TextEncoder().encode(s)]. *)
Definition TextEncoder_encode (s : jsstring) : list N :=
  flat_map encode_code_point (scalar_values s).

Definition between (lo hi b : N) : bool := (lo <=? b) && (b <=? hi).

(** The UTF-8 decoder of the Encoding standard, without the [fatal]
    flag: an ill-formed sequence yields U+FFFD, and the byte that ended it
    is read again as the start of the next sequence. *)
Fixpoint decode_bytes (bs : list N) : list N :=
  match bs with
  | [] => []
  | b :: r =>
      if b <=? 0x7F then b :: decode_bytes r
      else if between 0xC2 0xDF b then
        match r with
        | [] => [REPLACEMENT]
        | b1 :: r1 =>
            if between 0x80 0xBF b1
            then ((b mod 32) * 64 + b1 mod 64) :: decode_bytes r1
            else REPLACEMENT :: decode_bytes r
        end
      else if between 0xE0 0xEF b then
        let lower := if b =? 0xE0 then 0xA0 else 0x80 in
        let upper := if b =? 0xED then 0x9F else 0xBF in
        match r with
        | [] => [REPLACEMENT]
        | b1 :: r1 =>
            if between lower upper b1 then
              match r1 with
              | [] => [REPLACEMENT]
              | b2 :: r2 =>
                  if between 0x80 0xBF b2
                  then ((b mod 16) * 4096 + (b1 mod 64) * 64 + b2 mod 64)
                       :: decode_bytes r2
                  else REPLACEMENT :: decode_bytes r1
              end
            else REPLACEMENT :: decode_bytes r
        end
      else if between 0xF0 0xF4 b then
        let lower := if b =? 0xF0 then 0x90 else 0x80 in
        let upper := if b =? 0xF4 then 0x8F else 0xBF in
        match r with
        | [] => [REPLACEMENT]
        | b1 :: r1 =>
            if between lower upper b1 then
              match r1 with
              | [] => [REPLACEMENT]
              | b2 :: r2 =>
                  if between 0x80 0xBF b2 then
                    match r2 with
                    | [] => [REPLACEMENT]
                    | b3 :: r3 =>
                        if between 0x80 0xBF b3
                        then ((b mod 8) * 262144 + (b1 mod 64) * 4096
                              + (b2 mod 64) * 64 + b3 mod 64)
                             :: decode_bytes r3
                        else REPLACEMENT :: decode_bytes r2
                    end
                  else REPLACEMENT :: decode_bytes r1
              end
            else REPLACEMENT :: decode_bytes r
        end
      else REPLACEMENT :: decode_bytes r
  end.

(** A leading byte order mark is not part of the decoded text
    ([ignoreBOM] is false by default). *)
Definition strip_bom (bs : list N) : list N :=
  match bs with
  | b0 :: b1 :: b2 :: r =>
      if (b0 =? 0xEF) && (b1 =? 0xBB) && (b2 =? 0xBF) then r else bs
  | _ => bs
  end.

Definition code_units (cp : N) : jsstring :=
  if cp <? 0x10000 then [cp]
  else [0xD800 + (cp - 0x10000) / 0x400; 0xDC00 + (cp - 0x10000) mod 0x400].

(** [new TextDecoder().decode(bytes)]. *)
Definition TextDecoder_decode (bs : list N) : jsstring :=
  flat_map code_units (decode_bytes (strip_bom bs)).

(** No surrogate outside a pair, every element a 16-bit code unit. *)
Fixpoint well_formed (s : jsstring) : bool :=
  match s with
  | [] => true
  | c :: r =>
      if is_high_surrogate c then
        match r with
        | [] => false
        | d :: r1 => is_low_surrogate d && well_formed r1
        end
      else (c <? 0x10000) && negb (is_low_surrogate c) && well_formed r
  end.

Definition starts_with_bom (s : jsstring) : bool :=
  match s with
  | c :: _ => c =? 0xFEFF
  | [] => false
  end.

End Utf8.

(** ** The GitHub Contents API wrapper ([lib/github-api.js]) *)

Module GitHub.
Import JS.
Local Open Scope N_scope.

(** [encodeBase64(str)]: the UTF-8 bytes of [str], as a binary string,
    through [btoa]. *)
Definition encodeBase64 (str : jsstring) : result jsstring :=
  let bytes := Utf8.TextEncoder_encode str in
  (* String.fromCharCode(byte), for each byte *)
  let binary := map (fun byte => byte mod 65536) bytes in
  Base64.btoa binary.

(** [decodeBase64(base64)]: newlines are removed before [atob]; storing a
    character code in a [Uint8Array] keeps its low eight bits. *)
Definition decodeBase64 (base64 : jsstring) : result jsstring :=
  let cleaned := List.filter (fun c => negb (c =? 10)) base64 in
  binary <- Base64.atob cleaned ;;
  let bytes := map (fun c => c mod 256) binary in
  Return (Utf8.TextDecoder_decode bytes).

(** [haystack.includes(needle)] on strings. *)
Fixpoint starts_with (needle s : jsstring) : bool :=
  match needle, s with
  | [], _ => true
  | _ :: _, [] => false
  | x :: n, y :: r => (x =? y) && starts_with n r
  end.

Fixpoint includes (s needle : jsstring) : bool :=
  starts_with needle s ||
  match s with
  | [] => false
  | _ :: r => includes r needle
  end.

(** [v.includes(needle)] with a string [needle]: the method of a string
    and of an array; on any other value there is no such method and the
    call throws. *)
Definition call_includes (v : value) (needle : jsstring) : result bool :=
  match v with
  | VStr s => Return (includes s needle)
  | VArr items =>
      Return (existsb (fun x => match x with
                                | VStr t => bool_decide (t = needle)
                                | _ => false
                                end) items)
  | _ => Throw TypeError
  end.

(** A response: its status, and its body read as JSON, any JSON value
    ([None] when the body is not JSON and [response.json()] rejects). *)
Record Response := {
  status : Z;
  json : option value;
}.

(** [response.ok]: the status is in the range 200-299. *)
Definition ok (r : Response) : bool :=
  (200 <=? status r)%Z && (status r <=? 299)%Z.

Record Request := {
  url : jsstring;
  method : option string;
  body : option jsstring;
  headers : list (string * jsstring);
}.

Record GitHubAPI := {
  token : jsstring;
  owner : jsstring;
  repo : jsstring;
  branch : jsstring;
}.

(** What [getFile] resolves to when the file exists. *)
Record File := {
  file_content : jsstring;
  file_sha : value;
}.

Definition API_BASE : jsstring := lit "https://api.github.com".

Section Wrapper.

(** [fetch]: the store's answer to a request, or a network failure. *)
Variable fetch : Request -> result Response.
(** [getMessage(key, substitutions)], of [lib/i18n.js]. *)
Variable getMessage : string -> list value -> jsstring.

Definition _headers (api : GitHubAPI) : list (string * jsstring) :=
  [("Authorization", lit "token " ++ token api);
   ("Accept", lit "application/vnd.github.v3+json");
   ("Content-Type", lit "application/json")].

(** [_fetch(url, options)]. *)
Definition _fetch (api : GitHubAPI) (url : jsstring)
    (method : option string) (body : option jsstring) : result Response :=
  response <- fetch {| url := url; method := method; body := body;
                       headers := _headers api |} ;;
  if (status response =? 401)%Z then
    Throw (GitHubError (getMessage "api_invalidToken" []) 401)
  else if (status response =? 403)%Z then
    (* response.json().catch(() => ({})) *)
    let data :=
      match json response with
      | Some d => d
      | None => VObj []
      end in
    message <- read_prop data "message" ;;
    (* data.message && data.message.includes('rate limit') *)
    mentioned <- (if truthy message
                  then call_includes message (lit "rate limit")
                  else Return false) ;;
    if mentioned
    then Throw (GitHubError (getMessage "api_rateLimitExceeded" []) 403)
    else Throw (GitHubError (getMessage "api_accessDenied" []) 403)
  else if (status response =? 409)%Z then
    Throw (GitHubError (getMessage "api_conflict" []) 409)
  else Return response.

(** [response.json()]. *)
Definition response_json (r : Response) : result value :=
  match json r with
  | Some d => Return d
  | None => Throw SyntaxError
  end.

Definition contents_url (api : GitHubAPI) (path : jsstring) : jsstring :=
  API_BASE ++ lit "/repos/" ++ owner api ++ lit "/" ++ repo api
  ++ lit "/contents/" ++ path ++ lit "?ref=" ++ branch api.

(** [getFile(path)]; [None] is [null]. *)
Definition getFile (api : GitHubAPI) (path : jsstring)
  : result (option File) :=
  response <- _fetch api (contents_url api path) None None ;;
  if (status response =? 404)%Z then Return None
  else if negb (ok response) then
    Throw (GitHubError
             (getMessage "api_errorReading" [VNum (status response)])
             (status response))
  else
    data <- response_json response ;;
    content <- read_prop data "content" ;;
    text <- match content with
            | VStr base64 => decodeBase64 base64
            | _ => Throw TypeError        (* no [replace] to call *)
            end ;;
    Return (Some {| file_content := text; file_sha := get_prop data "sha" |}).

End Wrapper.

(** Sample instances of the network and of the message catalogue, for the
    concrete evaluations below. *)
Definition sample_api : GitHubAPI :=
  {| token := lit "t"; owner := lit "o"; repo := lit "r";
     branch := lit "main" |}.

Definition sample_getMessage (key : string) (substitutions : list value)
  : jsstring := lit key.

Definition rate_limited : Response :=
  {| status := 403;
     json := Some (VObj [("message", VStr (lit "API rate limit exceeded"))]) |}.

(** A file whose content is the base64 text of "hi", with a line break. *)
Definition file_found : Response :=
  {| status := 200;
     json := Some (VObj [("content", VStr (lit "aG" ++ [10] ++ lit "k="));
                         ("sha", VStr (lit "abc"))]) |}.

(** A 403 whose body is the JSON text [null]. *)
Definition forbidden_null : Response :=
  {| status := 403; json := Some VNull |}.

End GitHub.

(** ** [JSON.stringify] *)

Module Json.
Import JS.
Local Open Scope N_scope.

Definition hex_digit (d : N) : code_unit :=
  if d <? 10 then 48 + d else 87 + d.

(** [\uXXXX], in lower-case hexadecimal. *)
Definition UnicodeEscape (c : code_unit) : jsstring :=
  [92; 117; hex_digit (c / 4096); hex_digit ((c / 256) mod 16);
   hex_digit ((c / 16) mod 16); hex_digit (c mod 16)].

(** The characters of a quoted string: the short escapes for backspace,
    tab, line feed, form feed, carriage return, the quote and the
    backslash; [\uXXXX] for the other control characters and for a
    surrogate that is not part of a pair; every other character as it
    is. *)
Fixpoint quote_chars (s : jsstring) : jsstring :=
  match s with
  | [] => []
  | c :: r =>
      if c =? 8 then 92 :: 98 :: quote_chars r
      else if c =? 9 then 92 :: 116 :: quote_chars r
      else if c =? 10 then 92 :: 110 :: quote_chars r
      else if c =? 12 then 92 :: 102 :: quote_chars r
      else if c =? 13 then 92 :: 114 :: quote_chars r
      else if c =? 34 then 92 :: 34 :: quote_chars r
      else if c =? 92 then 92 :: 92 :: quote_chars r
      else if c <? 32 then UnicodeEscape c ++ quote_chars r
      else if Utf8.is_high_surrogate c then
        match r with
        | [] => UnicodeEscape c
        | d :: r1 =>
            if Utf8.is_low_surrogate d then c :: d :: quote_chars r1
            else UnicodeEscape c ++ quote_chars r
        end
      else if Utf8.is_low_surrogate c then UnicodeEscape c ++ quote_chars r
      else c :: quote_chars r
  end.

(** [QuoteJSONString]. *)
Definition QuoteJSONString (s : jsstring) : jsstring :=
  34 :: quote_chars s ++ [34].

(** [Number::toString] on an integer: its decimal digits, after a minus
    sign when it is negative. *)
Definition number_to_string (n : Z) : jsstring :=
  lit (DecimalString.NilZero.string_of_int (Z.to_int n)).

Fixpoint join (sep : jsstring) (parts : list jsstring) : jsstring :=
  match parts with
  | [] => []
  | x :: r =>
      match r with
      | [] => x
      | _ :: _ => x ++ sep ++ join sep r
      end
  end.

(** [JSON.stringify(v)] without replacer and indentation; [None] is
    [undefined].  In an array [undefined] is printed as [null]; in an
    object a property whose value is [undefined] is left out. *)
Fixpoint stringify (v : value) : option jsstring :=
  match v with
  | VUndefined => None
  | VNull => Some (lit "null")
  | VBool b => Some (lit (if b then "true" else "false"))
  | VNum n => Some (number_to_string n)
  | VStr s => Some (QuoteJSONString s)
  | VArr items =>
      let element x :=
        match stringify x with
        | Some t => t
        | None => lit "null"
        end in
      Some (lit "[" ++ join (lit ",") (map element items) ++ lit "]")
  | VObj fields =>
      let members :=
        (fix members (fs : list (string * value)) : list jsstring :=
           match fs with
           | [] => []
           | (k, x) :: r =>
               match stringify x with
               | Some t => (QuoteJSONString (lit k) ++ lit ":" ++ t) :: members r
               | None => members r
               end
           end) in
      Some (lit "{" ++ join (lit ",") (members fields) ++ lit "}")
  end.

(** [x === y] where each side is a string or [undefined]. *)
Definition strict_eq_text (x y : option jsstring) : bool :=
  bool_decide (x = y).

End Json.

(** ** The bookmark serializer ([lib/bookmark-serializer.js]) *)

Module Serializer.
Import JS.

(** [chrome.bookmarks.BookmarkTreeNode], as far as the serializer reads
    it: [dateAdded], [url] and [children] are optional. *)
#[warnings="-register-all"] Inductive BookmarkTreeNode : Type := TreeNode {
  title : jsstring;
  dateAdded : option Z;
  url : option jsstring;
  children : option (list BookmarkTreeNode);
}.

Definition optional_number (n : option Z) : value :=
  match n with
  | Some d => VNum d
  | None => VUndefined
  end.

(** [serializeNode(node)]. *)
Fixpoint serializeNode (node : BookmarkTreeNode) : value :=
  let serialized :=
    [("title", VStr (title node));
     ("dateAdded", optional_number (dateAdded node))] in
  let folder :=
    VObj (serialized ++
          [("type", VStr (lit "folder"));
           ("children",
            VArr (match children node with
                  | Some cs => map serializeNode cs
                  | None => []      (* node.children || [] *)
                  end))]) in
  match url node with
  | Some u =>
      if truthy (VStr u)
      then VObj (serialized ++
                 [("type", VStr (lit "bookmark")); ("url", VStr u)])
      else folder
  | None => folder
  end.

(** [bookmarkTree[0]?.children || []]. *)
Definition rootChildren (bookmarkTree : list BookmarkTreeNode)
  : list BookmarkTreeNode :=
  match bookmarkTree with
  | root :: _ =>
      match children root with
      | Some cs => cs
      | None => []
      end
  | [] => []
  end.

(** [serializeToJson(bookmarkTree, deviceId)]; [now] is what
    [new Date().toISOString()] returns at the time of the call. *)
Definition serializeToJson (now : jsstring)
    (bookmarkTree : list BookmarkTreeNode) (deviceId : jsstring) : value :=
  VObj [("version", VNum 1);
        ("exportedAt", VStr now);
        ("deviceId", VStr deviceId);
        ("bookmarks", VArr (map serializeNode (rootChildren bookmarkTree)))].

(** A root with one folder, "Work", holding the link "A". *)
Definition sample_tree : list BookmarkTreeNode :=
  [TreeNode [] None None
     (Some [TreeNode (lit "Work") (Some 1700000000000%Z) None
              (Some [TreeNode (lit "A") (Some 1700000000001%Z)
                       (Some (lit "http://a")) None])])].

(** The same tree after renaming "A" to "A2". *)
Definition sample_tree_renamed : list BookmarkTreeNode :=
  [TreeNode [] None None
     (Some [TreeNode (lit "Work") (Some 1700000000000%Z) None
              (Some [TreeNode (lit "A2") (Some 1700000000001%Z)
                       (Some (lit "http://a")) None])])].

Definition invalid_format : exn :=
  Error (lit "Ung" ++ [252%N] ++ lit "ltiges Bookmark-Datenformat.").

(** [deserializeFromJson(data)]. *)
Definition deserializeFromJson (data : value) : result value :=
  if falsy data
     || falsy (get_prop data "bookmarks")
     || negb (strict_eq_num (get_prop data "version") 1)
  then Throw invalid_format
  else Return (get_prop data "bookmarks").

(** [bookmarksEqual(a, b)]. *)
Definition bookmarksEqual (a b : value) : bool :=
  if falsy a || falsy b then false
  else Json.strict_eq_text (Json.stringify (get_prop a "bookmarks"))
                           (Json.stringify (get_prop b "bookmarks")).

End Serializer.

(** ** The background service worker ([background.js])

    The sources hold two revisions of the worker; the model follows the
    later one, which schedules [debouncedSync] and consults
    [isAutoSyncSuppressed]. *)

Module Background.
Import JS.

(** The table of storage keys is a constant of the sync engine. *)
Record StorageKeys := {
  AUTO_SYNC : string;
  DEBOUNCE_DELAY : string;
  SYNC_ON_FOCUS : string;
  SYNC_ON_STARTUP : string;
  LAST_SYNC_TIME : string;
}.

(** What a handler can observe when it runs. *)
Record World := {
  settings : gmap string value;        (* what [getSettings()] resolves to *)
  local_storage : gmap string value;   (* [chrome.storage.local] *)
  syncInProgress : bool;               (* [isSyncInProgress()] *)
  autoSyncSuppressed : bool;           (* [isAutoSyncSuppressed()] *)
  hasConflict : bool;                  (* conflict flag of the sync state,
                                          [getSyncStatus().hasConflict] *)
  now : Z;                             (* [Date.now()] *)
}.

(** The calls a handler makes into the sync engine and the browser, in
    program order ([console.log] is left out). *)
Inductive Call :=
| DebouncedSync (delayMs : value)
| Sync
| Push
| Pull
| GetSyncStatus
| SetupAlarm
| MigrateTokenIfNeeded
| InitI18n
| CheckAndMigrate
| SetBadgeText (text : string)
| SetBadgeBackgroundColor (color : string).

Inductive BookmarkEvent := OnCreated | OnRemoved | OnChanged | OnMoved.

Definition ALARM_NAME : string := "bookmarkSyncPull".
Definition FOCUS_SYNC_COOLDOWN_MS : Z := 60000.
(** [chrome.windows.WINDOW_ID_NONE]. *)
Definition WINDOW_ID_NONE : Z := -1.

Section Handlers.

Variable STORAGE_KEYS : StorageKeys.
(** [isConfigured(settings)], of the sync engine. *)
Variable isConfigured : gmap string value -> bool.
(** [new Date(v).getTime()]; [None] stands for [NaN]. *)
Variable Date_getTime : value -> option Z.

(** [triggerAutoSync()]. *)
Definition triggerAutoSync (w : World) : list Call :=
  if syncInProgress w then []
  else if autoSyncSuppressed w then []
  else
    if truthy (index (settings w) (AUTO_SYNC STORAGE_KEYS))
       && isConfigured (settings w)
    then
      let delayMs :=
        coalesce (index (settings w) (DEBOUNCE_DELAY STORAGE_KEYS)) (VNum 5000) in
      [DebouncedSync delayMs]
    else [].

(** The four [chrome.bookmarks.on*] listeners. *)
Definition onBookmarkEvent (ev : BookmarkEvent) (w : World) : list Call :=
  match ev with
  | OnCreated => triggerAutoSync w
  | OnRemoved => triggerAutoSync w
  | OnChanged => triggerAutoSync w
  | OnMoved => triggerAutoSync w
  end.

(** The badge update that follows an automatic [sync()]. *)
Definition badge (success : bool) : list Call :=
  if negb success
  then [SetBadgeText "!"; SetBadgeBackgroundColor "#F44336"]
  else [SetBadgeText ""].

(** The [chrome.alarms.onAlarm] listener; [success] is [result.success]
    of the [sync()] call, should it be made. *)
Definition onAlarm (name : string) (success : bool) (w : World) : list Call :=
  if String.eqb name ALARM_NAME then
    if isConfigured (settings w)
       && truthy (index (settings w) (AUTO_SYNC STORAGE_KEYS))
    then Sync :: badge success
    else []
  else [].

(** [elapsed < FOCUS_SYNC_COOLDOWN_MS], false when [elapsed] is [NaN]. *)
Definition within_cooldown (w : World) (lastSync : value) : bool :=
  match Date_getTime lastSync with
  | Some t => now w - t <? FOCUS_SYNC_COOLDOWN_MS
  | None => false
  end.

(** The [chrome.windows.onFocusChanged] listener. *)
Definition onFocusChanged (windowId : Z) (success : bool) (w : World)
  : list Call :=
  if (windowId =? WINDOW_ID_NONE) || (windowId <? 0) then []
  else if negb (truthy (index (settings w) (SYNC_ON_FOCUS STORAGE_KEYS)))
          || negb (isConfigured (settings w))
          || negb (truthy (index (settings w) (AUTO_SYNC STORAGE_KEYS)))
  then []
  else
    let lastSync := index (local_storage w) (LAST_SYNC_TIME STORAGE_KEYS) in
    if truthy lastSync && within_cooldown w lastSync then []
    else if syncInProgress w then []
    else Sync :: badge success.

(** The [chrome.runtime.onStartup] listener; the sync it arms with
    [setTimeout] is listed where the timer fires. *)
Definition onStartup (success : bool) (w : World) : list Call :=
  [MigrateTokenIfNeeded; InitI18n; SetupAlarm; CheckAndMigrate]
  ++ (if truthy (index (settings w) (SYNC_ON_STARTUP STORAGE_KEYS))
         && isConfigured (settings w)
         && truthy (index (settings w) (AUTO_SYNC STORAGE_KEYS))
      then Sync :: (if negb success
                    then [SetBadgeText "!"; SetBadgeBackgroundColor "#F44336"]
                    else [])
      else []).

(** The [chrome.runtime.onMessage] listener. *)
Definition onMessage (action : string) : list Call :=
  if String.eqb action "sync" then [Sync]
  else if String.eqb action "push" then [Push]
  else if String.eqb action "pull" then [Pull]
  else if String.eqb action "getStatus" then [GetSyncStatus]
  else if String.eqb action "settingsChanged" then [SetupAlarm]
  else [].

(** An automatic sync is started or scheduled by the trace. *)
Definition is_sync_call (c : Call) : bool :=
  match c with
  | DebouncedSync _ | Sync => true
  | _ => false
  end.

Definition starts_sync (tr : list Call) : bool := existsb is_sync_call tr.

(** The same world with another value of the conflict flag. *)
Definition with_conflict (b : bool) (w : World) : World :=
  {| settings := settings w;
     local_storage := local_storage w;
     syncInProgress := syncInProgress w;
     autoSyncSuppressed := autoSyncSuppressed w;
     hasConflict := b;
     now := now w |}.

End Handlers.

(** Sample instances of what the sync engine supplies, for the concrete
    evaluations below. *)
Definition sample_keys : StorageKeys :=
  {| AUTO_SYNC := "autoSync";
     DEBOUNCE_DELAY := "debounceDelay";
     SYNC_ON_FOCUS := "syncOnFocus";
     SYNC_ON_STARTUP := "syncOnStartup";
     LAST_SYNC_TIME := "lastSyncTime" |}.

Definition sample_isConfigured (s : gmap string value) : bool :=
  truthy (index s "githubToken") && truthy (index s "repoOwner")
  && truthy (index s "repoName").

(** Times stored as epoch milliseconds. *)
Definition sample_getTime (v : value) : option Z :=
  match v with
  | VNum n => Some n
  | _ => None
  end.

Definition sample_settings : gmap string value :=
  <["githubToken" := VStr (lit "t")]>
  (<["repoOwner" := VStr (lit "o")]>
  (<["repoName" := VStr (lit "r")]>
  (<["autoSync" := VBool true]>
  (<["syncOnFocus" := VBool true]> ∅)))).

Definition sample_world (running suppressed conflict : bool)
    (lastSync : option Z) (t : Z) : World :=
  {| settings := sample_settings;
     local_storage :=
       match lastSync with
       | Some l => <["lastSyncTime" := VNum l]> ∅
       | None => ∅
       end;
     syncInProgress := running;
     autoSyncSuppressed := suppressed;
     hasConflict := conflict;
     now := t |}.

End Background.

(** ** Single-flight execution of push, pull and sync *)

Module Coordinator.
Import JS Background.

Inductive Mode := ModePush | ModePull | ModeSync.

Inductive Outcome := Started | Rejected.

(** Modelled from the spec: the sync coordinator of [lib/sync-engine.js]
    is not part of the sources at hand.  Its state, for one profile: the
    in-flight flag, the operations that have started and not yet
    completed, and the side effects performed so far, each tagged with
    the operation that performed it. *)
Record State := {
  inFlight : bool;
  executing : list Mode;
  effects : list Mode;
}.

Definition idle : State :=
  {| inFlight := false; executing := []; effects := [] |}.

(** Modelled from the spec: the entry points [push()], [pull()] and
    [sync()] of [lib/sync-engine.js] are not part of the sources at hand.
    Each checks the in-flight flag at its start; a call that observes the
    flag set returns immediately, without side effects, and is neither
    blocked nor queued; otherwise the flag is raised and the operation
    starts executing. *)
Definition enter (m : Mode) (st : State) : Outcome * State :=
  if inFlight st then (Rejected, st)
  else (Started,
        {| inFlight := true;
           executing := m :: executing st;
           effects := effects st |}).

(** Modelled from the spec: between its suspension points an executing
    operation reads and writes the two replicas. *)
Definition perform (m : Mode) (st : State) : State :=
  {| inFlight := inFlight st;
     executing := executing st;
     effects := m :: effects st |}.

Fixpoint remove_first (m : Mode) (l : list Mode) : list Mode :=
  match l with
  | [] => []
  | x :: r =>
      match m, x with
      | ModePush, ModePush | ModePull, ModePull | ModeSync, ModeSync => r
      | _, _ => x :: remove_first m r
      end
  end.

(** Modelled from the spec: an operation that resolves or fails goes back
    to [Idle], lowering the in-flight flag. *)
Definition complete (m : Mode) (st : State) : State :=
  {| inFlight := false;
     executing := remove_first m (executing st);
     effects := effects st |}.

(** The engine calls of a handler's trace, passed to the entry points in
    order; a debounced sync is entered when its timer fires, which is a
    call of its own. *)
Fixpoint dispatch (calls : list Call) (st : State) : State :=
  match calls with
  | [] => st
  | Sync :: r => dispatch r (snd (enter ModeSync st))
  | Push :: r => dispatch r (snd (enter ModePush st))
  | Pull :: r => dispatch r (snd (enter ModePull st))
  | _ :: r => dispatch r st
  end.

(** What the service worker reacts to. *)
Inductive Trigger :=
| TBookmark (ev : BookmarkEvent)
| TAlarm (name : string)
| TFocus (windowId : Z)
| TStartup
| TMessage (action : string).

Section Run.

Variable STORAGE_KEYS : StorageKeys.
Variable isConfigured : gmap string value -> bool.
Variable Date_getTime : value -> option Z.

Definition handle (t : Trigger) (success : bool) (w : World) : list Call :=
  match t with
  | TBookmark ev => onBookmarkEvent STORAGE_KEYS isConfigured ev w
  | TAlarm name => onAlarm STORAGE_KEYS isConfigured name success w
  | TFocus windowId =>
      onFocusChanged STORAGE_KEYS isConfigured Date_getTime windowId success w
  | TStartup => onStartup STORAGE_KEYS isConfigured success w
  | TMessage action => onMessage action
  end.

(** Tasks interleave at their suspension points: at any time an entry
    point may be called (directly or by a handler that sees the current
    in-flight flag), an executing operation may take a step, or it may
    complete. *)
Inductive step : State -> State -> Prop :=
| step_call m st :
    step st (snd (enter m st))
| step_handler t success w st :
    syncInProgress w = inFlight st ->
    step st (dispatch (handle t success w) st)
| step_perform m st :
    In m (executing st) ->
    step st (perform m st)
| step_complete m st :
    In m (executing st) ->
    step st (complete m st).

Inductive reachable : State -> Prop :=
| reach_idle : reachable idle
| reach_step st st' : reachable st -> step st st' -> reachable st'.

(** The flag is up exactly while one operation executes. *)
Definition single_flight (st : State) : Prop :=
  (inFlight st = false /\ executing st = []) \/
  (inFlight st = true /\ exists m, executing st = [m]).

End Run.

End Coordinator.

(** ** [String.prototype.trim] and [split] *)

Module Text.
Import JS.
Local Open Scope N_scope.

(** White space and line terminators, the characters [trim] removes. *)
Definition is_white_space (c : code_unit) : bool :=
  ((9 <=? c) && (c <=? 13)) || (c =? 0x20) || (c =? 0xA0) || (c =? 0x1680)
  || ((0x2000 <=? c) && (c <=? 0x200A)) || (c =? 0x2028) || (c =? 0x2029)
  || (c =? 0x202F) || (c =? 0x205F) || (c =? 0x3000) || (c =? 0xFEFF).

Fixpoint trim_start (s : jsstring) : jsstring :=
  match s with
  | [] => []
  | c :: r => if is_white_space c then trim_start r else s
  end.

Definition trim_end (s : jsstring) : jsstring := rev (trim_start (rev s)).

(** [s.trim()]. *)
Definition trim (s : jsstring) : jsstring := trim_end (trim_start s).

(** [s.split(sep)] for a separator of one character. *)
Fixpoint split (sep : code_unit) (s : jsstring) : list jsstring :=
  match s with
  | [] => [[]]
  | c :: r =>
      if c =? sep then [] :: split sep r
      else
        match split sep r with
        | x :: xs => (c :: x) :: xs
        | [] => [[c]]
        end
  end.

End Text.

(** ** The other operations of the GitHub wrapper *)

Module GitHubOps.
Import JS GitHub.
Local Open Scope N_scope.

(** What [validateToken] resolves to. *)
Record TokenInfo := {
  valid : bool;
  username : value;
  scopes : list jsstring;
}.

Definition invalid_token : TokenInfo :=
  {| valid := false; username := VNull; scopes := [] |}.

(** What [createOrUpdateFile] resolves to. *)
Record Written := {
  written_sha : value;
  written_commitSha : value;
}.

(** [(header || '').split(',').map(s => s.trim()).filter(Boolean)]. *)
Definition parse_scopes (header : option jsstring) : list jsstring :=
  let text :=
    match header with
    | Some h => if truthy (VStr h) then h else []
    | None => []
    end in
  List.filter (fun s => truthy (VStr s)) (map Text.trim (Text.split 44 text)).

Section Operations.

Variable fetch : Request -> result Response.
Variable getMessage : string -> list value -> jsstring.
(** [response.headers.get(name)]; [None] is [null]. *)
Variable headers_get : Response -> string -> option jsstring.

(** [validateToken()]. *)
Definition validateToken (api : GitHubAPI) : TokenInfo :=
  let attempt :=
    response <- _fetch fetch getMessage api (API_BASE ++ lit "/user")
                  None None ;;
    if negb (ok response) then Return invalid_token
    else
      data <- response_json response ;;
      let scopes := parse_scopes (headers_get response "x-oauth-scopes") in
      login <- read_prop data "login" ;;
      Return {| valid := true; username := login; scopes := scopes |} in
  match attempt with
  | Return info => info
  | Throw _ => invalid_token     (* catch (err) *)
  end.

Definition repo_url (api : GitHubAPI) : jsstring :=
  API_BASE ++ lit "/repos/" ++ owner api ++ lit "/" ++ repo api.

(** [checkRepo()]. *)
Definition checkRepo (api : GitHubAPI) : bool :=
  match _fetch fetch getMessage api (repo_url api) None None with
  | Return response => ok response
  | Throw _ => false             (* catch *)
  end.

(** The object [createOrUpdateFile] sends: [sha] is added when truthy. *)
Definition request_body (api : GitHubAPI) (content message : jsstring)
    (sha : option jsstring) : result value :=
  encoded <- encodeBase64 content ;;
  Return
    (VObj ([("message", VStr message);
            ("content", VStr encoded);
            ("branch", VStr (branch api))]
           ++ match sha with
              | Some s => if truthy (VStr s) then [("sha", VStr s)] else []
              | None => []
              end)).

Definition write_url (api : GitHubAPI) (path : jsstring) : jsstring :=
  repo_url api ++ lit "/contents/" ++ path.

(** [createOrUpdateFile(path, content, message, sha = null)]. *)
Definition createOrUpdateFile (api : GitHubAPI) (path content message : jsstring)
    (sha : option jsstring) : result Written :=
  body <- request_body api content message sha ;;
  response <- _fetch fetch getMessage api (write_url api path)
                (Some "PUT"%string) (Json.stringify body) ;;
  if negb (ok response) then
    (* response.json().catch(() => ({})) *)
    let errorData :=
      match json response with
      | Some d => d
      | None => VObj []
      end in
    reason <- read_prop errorData "message" ;;
    (* errorData.message || response.status *)
    let reason := if truthy reason then reason else VNum (status response) in
    Throw (GitHubError (getMessage "api_errorWriting" [reason])
                       (status response))
  else
    data <- response_json response ;;
    entry <- read_prop data "content" ;;
    entry_sha <- read_prop entry "sha" ;;
    commit <- read_prop data "commit" ;;
    commit_sha <- read_prop commit "sha" ;;
    Return {| written_sha := entry_sha; written_commitSha := commit_sha |}.

Definition ref_url (api : GitHubAPI) : jsstring :=
  repo_url api ++ lit "/git/ref/heads/" ++ branch api.

(** [getLatestCommitSha()]. *)
Definition getLatestCommitSha (api : GitHubAPI) : result value :=
  response <- _fetch fetch getMessage api (ref_url api) None None ;;
  if negb (ok response) then
    Throw (GitHubError (getMessage "api_branchNotFound" [VStr (branch api)])
                       (status response))
  else
    data <- response_json response ;;
    object <- read_prop data "object" ;;
    read_prop object "sha".

End Operations.

(** A token answer with a scopes header, for the concrete evaluations. *)
Definition user_found : Response :=
  {| status := 200;
     json := Some (VObj [("login", VStr (lit "octocat"))]) |}.

Definition sample_headers (r : Response) (name : string) : option jsstring :=
  if String.eqb name "x-oauth-scopes" then Some (lit "repo, gist ,,workflow")
  else None.

Definition stale_write : Response :=
  {| status := 422;
     json := Some (VObj [("message", VStr (lit "sha does not match"))]) |}.

End GitHubOps.

(** ** More of JavaScript: [||], [ToString] and [===] on values *)

Module Operators.
Import JS Json.
Local Open Scope N_scope.

(** [a || b] on values. *)
Definition or_else (a b : value) : value :=
  if truthy a then a else b.

(** [ToString], as a template literal applies it. *)
Fixpoint ToString (v : value) : jsstring :=
  match v with
  | VUndefined => lit "undefined"
  | VNull => lit "null"
  | VBool b => lit (if b then "true" else "false")
  | VNum n => number_to_string n
  | VStr s => s
  | VArr items =>
      let element x :=
        match x with
        | VUndefined | VNull => []
        | _ => ToString x
        end in
      join [44] (map element items)
  | VObj _ => lit "[object Object]"
  end.

(** [v === 'text']. *)
Definition strict_eq_str (v : value) (text : jsstring) : bool :=
  match v with
  | VStr s => bool_decide (s = text)
  | _ => false
  end.

End Operators.

(** ** The Markdown view ([lib/bookmark-serializer.js]) *)

Module Markdown.
Import JS Json Operators.
Local Open Scope N_scope.

(** [c.type === kind]; reading a property of [null] or [undefined]
    throws. *)
Definition type_is (kind : string) (c : value) : result bool :=
  if nullish c then Throw TypeError
  else Return (strict_eq_str (get_prop c "type") (lit kind)).

(** [items.filter(c => c.type === kind)]. *)
Fixpoint filter_type (kind : string) (items : list value)
  : result (list value) :=
  match items with
  | [] => Return []
  | c :: r =>
      keep <- type_is kind c ;;
      rest <- filter_type kind r ;;
      Return (if keep then c :: rest else rest)
  end.

Definition untitled : jsstring := lit "(Ohne Titel)".

(** [`${prefix} ${node.title || '(Ohne Titel)'}`]. *)
Definition heading (headingLevel : nat) (title : value) : jsstring :=
  repeat 35 (Nat.min headingLevel 6) ++ [32]
  ++ ToString (or_else title (VStr untitled)).

(** [`- [${node.title || node.url}](${node.url})`]. *)
Definition item (title url : value) : jsstring :=
  lit "- [" ++ ToString (or_else title url) ++ lit "](" ++ ToString url
  ++ lit ")".

(** [renderNodeAsMarkdown(node, lines, headingLevel)]: the lines it
    pushes.  The heading level is a count, 2 at the top.  The two loops
    over the filtered children are written as loops over the children
    that skip the others, and the children are looked up in the course
    of the recursion. *)
Fixpoint renderNodeAsMarkdown (node : value) (headingLevel : nat)
  : result (list jsstring) :=
  match node with
  | VUndefined | VNull => Throw TypeError
  | VObj fields =>
      if strict_eq_str (assoc "type" fields) (lit "folder") then
        let render_all (kind : string) :=
          (fix each (cs : list value) : result (list jsstring) :=
             match cs with
             | [] => Return []
             | c :: r =>
                 chosen <- type_is kind c ;;
                 pushed <- (if chosen
                            then renderNodeAsMarkdown c (S headingLevel)
                            else Return []) ;;
                 rest <- each r ;;
                 Return (pushed ++ rest)
             end) in
        let render_children :=
          (fix lookup (fs : list (string * value))
             : result (list jsstring) :=
             match fs with
             | [] => Return []               (* node.children || [] *)
             | (k, children) :: r =>
                 if String.eqb "children" k then
                   match children with
                   | VArr items =>
                       bookmarks <- filter_type "bookmark" items ;;
                       folders <- filter_type "folder" items ;;
                       first <- render_all "bookmark" items ;;
                       second <- render_all "folder" items ;;
                       Return
                         (first
                          ++ (if (0 <? length bookmarks)%nat
                                 && (0 <? length folders)%nat
                              then [[]] else [])
                          ++ second)
                   | other =>
                       if truthy other then Throw TypeError  (* no filter *)
                       else Return []
                   end
                 else lookup r
             end) in
        below <- render_children fields ;;
        Return (heading headingLevel (assoc "title" fields) :: [] :: below)
      else if strict_eq_str (assoc "type" fields) (lit "bookmark") then
        Return [item (assoc "title" fields) (assoc "url" fields)]
      else Return []
  | _ => Return []
  end.

Fixpoint render_nodes (nodes : list value) : result (list jsstring) :=
  match nodes with
  | [] => Return []
  | node :: r =>
      pushed <- renderNodeAsMarkdown node 2 ;;
      rest <- render_nodes r ;;
      Return (pushed ++ rest)
  end.

(** The lines [serializeToMarkdown] collects before joining them. *)
Definition markdown_lines (data : value) : result (list jsstring) :=
  if nullish data then Throw TypeError
  else
    let header :=
      [lit "# Bookmarks";
       [];
       lit "> Zuletzt synchronisiert: " ++ ToString (get_prop data "exportedAt");
       lit "> Ger" ++ [228] ++ lit "t: `"
       ++ ToString (get_prop data "deviceId") ++ lit "`";
       []] in
    body <- match or_else (get_prop data "bookmarks") (VArr []) with
            | VArr nodes => render_nodes nodes
            | VStr _ => Return []   (* its characters have no type *)
            | _ => Throw TypeError  (* not iterable *)
            end ;;
    Return (header ++ body).

(** [serializeToMarkdown(data)]. *)
Definition serializeToMarkdown (data : value) : result jsstring :=
  lines <- markdown_lines data ;;
  Return (join [10] lines).

End Markdown.

(** ** The periodic alarm ([background.js]) *)

Module Alarm.
Import JS Operators Background.

(** The calls [setupAlarm] makes into [chrome.alarms], in program
    order. *)
Inductive AlarmCall :=
| AlarmsClear (name : string)
| AlarmsCreate (name : string) (periodInMinutes : value).

Section SetupAlarm.

Variable STORAGE_KEYS : StorageKeys.
(** [STORAGE_KEYS.SYNC_INTERVAL]. *)
Variable SYNC_INTERVAL : string.
Variable isConfigured : gmap string value -> bool.

(** [setupAlarm()]. *)
Definition setupAlarm (w : World) : list AlarmCall :=
  let interval := or_else (index (settings w) SYNC_INTERVAL) (VNum 15) in
  AlarmsClear ALARM_NAME
  :: (if truthy (index (settings w) (AUTO_SYNC STORAGE_KEYS))
         && isConfigured (settings w)
      then [AlarmsCreate ALARM_NAME interval]
      else []).

End SetupAlarm.

End Alarm.

(** ** The popup ([popup.js]) *)

Module Popup.
Import JS Json GitHub.

(** The module state and the parts of the page that the popup reads or
    writes. *)
Record Page := {
  isSyncing : bool;
  syncBtn_disabled : bool;
  pushBtn_disabled : bool;
  pullBtn_disabled : bool;
  syncSpinner_display : string;
  syncText : jsstring;
  statusIcon : jsstring;
  statusMessage : jsstring;
  statusBox_className : jsstring;
  conflictBox_display : string;
  lastSyncEl : jsstring;
  notConfiguredEl_display : string;
  configuredEl_display : string;
  autoSyncDot_className : string;
  autoSyncText : jsstring;
}.

Definition WARNING_SIGN : jsstring := [0x26A0; 0xFE0F]%N.
Definition CHECK_MARK : jsstring := [0x2705]%N.
Definition CROSS_MARK : jsstring := [0x274C]%N.
Definition CLIPBOARD : jsstring := [0xD83D; 0xDCCB]%N.

(** [setStatus(icon, message, boxClass)]. *)
Definition setStatus (icon message : jsstring) (boxClass : string) (p : Page)
  : Page :=
  {| isSyncing := isSyncing p;
     syncBtn_disabled := syncBtn_disabled p;
     pushBtn_disabled := pushBtn_disabled p;
     pullBtn_disabled := pullBtn_disabled p;
     syncSpinner_display := syncSpinner_display p;
     syncText := syncText p;
     statusIcon := icon;
     statusMessage := message;
     statusBox_className := lit "status-box " ++ lit boxClass;
     conflictBox_display := conflictBox_display p;
     lastSyncEl := lastSyncEl p;
     notConfiguredEl_display := notConfiguredEl_display p;
     configuredEl_display := configuredEl_display p;
     autoSyncDot_className := autoSyncDot_className p;
     autoSyncText := autoSyncText p |}.

(** [conflictBox.style.display = display]. *)
Definition show_conflictBox (display : string) (p : Page) : Page :=
  {| isSyncing := isSyncing p;
     syncBtn_disabled := syncBtn_disabled p;
     pushBtn_disabled := pushBtn_disabled p;
     pullBtn_disabled := pullBtn_disabled p;
     syncSpinner_display := syncSpinner_display p;
     syncText := syncText p;
     statusIcon := statusIcon p;
     statusMessage := statusMessage p;
     statusBox_className := statusBox_className p;
     conflictBox_display := display;
     lastSyncEl := lastSyncEl p;
     notConfiguredEl_display := notConfiguredEl_display p;
     configuredEl_display := configuredEl_display p;
     autoSyncDot_className := autoSyncDot_className p;
     autoSyncText := autoSyncText p |}.

(** [lastSyncEl.textContent = text]. *)
Definition set_lastSyncEl (text : jsstring) (p : Page) : Page :=
  {| isSyncing := isSyncing p;
     syncBtn_disabled := syncBtn_disabled p;
     pushBtn_disabled := pushBtn_disabled p;
     pullBtn_disabled := pullBtn_disabled p;
     syncSpinner_display := syncSpinner_display p;
     syncText := syncText p;
     statusIcon := statusIcon p;
     statusMessage := statusMessage p;
     statusBox_className := statusBox_className p;
     conflictBox_display := conflictBox_display p;
     lastSyncEl := text;
     notConfiguredEl_display := notConfiguredEl_display p;
     configuredEl_display := configuredEl_display p;
     autoSyncDot_className := autoSyncDot_className p;
     autoSyncText := autoSyncText p |}.

(** [setLoading(loading)]. *)
Definition setLoading (loading : bool) (p : Page) : Page :=
  {| isSyncing := loading;
     syncBtn_disabled := loading;
     pushBtn_disabled := loading;
     pullBtn_disabled := loading;
     syncSpinner_display := if loading then "inline-block" else "none";
     syncText := if loading then lit "Synchronisiere..."
                 else lit "Jetzt synchronisieren";
     statusIcon := statusIcon p;
     statusMessage := statusMessage p;
     statusBox_className := statusBox_className p;
     conflictBox_display := conflictBox_display p;
     lastSyncEl := lastSyncEl p;
     notConfiguredEl_display := notConfiguredEl_display p;
     configuredEl_display := configuredEl_display p;
     autoSyncDot_className := autoSyncDot_className p;
     autoSyncText := autoSyncText p |}.

(** The two displays [updateUI] and [showNotConfigured] switch. *)
Definition show_sections (notConfigured configured : string) (p : Page)
  : Page :=
  {| isSyncing := isSyncing p;
     syncBtn_disabled := syncBtn_disabled p;
     pushBtn_disabled := pushBtn_disabled p;
     pullBtn_disabled := pullBtn_disabled p;
     syncSpinner_display := syncSpinner_display p;
     syncText := syncText p;
     statusIcon := statusIcon p;
     statusMessage := statusMessage p;
     statusBox_className := statusBox_className p;
     conflictBox_display := conflictBox_display p;
     lastSyncEl := lastSyncEl p;
     notConfiguredEl_display := notConfigured;
     configuredEl_display := configured;
     autoSyncDot_className := autoSyncDot_className p;
     autoSyncText := autoSyncText p |}.

(** [autoSyncDot.className = className; autoSyncText.textContent = text]. *)
Definition set_autoSync (className : string) (text : jsstring) (p : Page)
  : Page :=
  {| isSyncing := isSyncing p;
     syncBtn_disabled := syncBtn_disabled p;
     pushBtn_disabled := pushBtn_disabled p;
     pullBtn_disabled := pullBtn_disabled p;
     syncSpinner_display := syncSpinner_display p;
     syncText := syncText p;
     statusIcon := statusIcon p;
     statusMessage := statusMessage p;
     statusBox_className := statusBox_className p;
     conflictBox_display := conflictBox_display p;
     lastSyncEl := lastSyncEl p;
     notConfiguredEl_display := notConfiguredEl_display p;
     configuredEl_display := configuredEl_display p;
     autoSyncDot_className := className;
     autoSyncText := text |}.

(** [showNotConfigured()]. *)
Definition showNotConfigured (p : Page) : Page :=
  show_sections "block" "none" p.

(** How the [await] of [handleAction] ends: with the result the
    background sent, or in the [catch] block, with [err.message] (the
    message was rejected, or reading the result threw). *)
Inductive Reply :=
| Resolved (success : bool) (message : jsstring)
| Caught (message : jsstring).

(** [handleAction(action)] up to its [await]: [None] when it returns at
    once, else the page after [setLoading(true)], with the message
    [{ action }] sent. *)
Definition handleAction_send (p : Page) : option Page :=
  if isSyncing p then None
  else Some (setLoading true p).

(** [handleAction(action)] from its [await] on. *)
Definition handleAction_settle (reply : Reply) (p : Page) : Page :=
  let shown :=
    match reply with
    | Resolved true message =>
        set_lastSyncEl (lit "Letzter Sync: gerade eben")
          (show_conflictBox "none"
             (setStatus CHECK_MARK message "status-ok" p))
    | Resolved false message =>
        if includes message (lit "Konflikt")
        then show_conflictBox "block"
               (setStatus WARNING_SIGN message "status-warning" p)
        else setStatus CROSS_MARK message "status-error" p
    | Caught message =>
        setStatus CROSS_MARK (lit "Fehler: " ++ message) "status-error" p
    end in
  setLoading false shown.   (* finally *)

Section Status.

(** [date.toLocaleDateString('de-DE', ...)]; [None] is an invalid date. *)
Variable toLocaleDateString : option Z -> jsstring.
(** [new Date(v).getTime()]; [None] stands for [NaN]. *)
Variable Date_getTime : value -> option Z.

(** [formatRelativeTime(date)], with [now] the time of [new Date()];
    times are in milliseconds, and [None] is an invalid date, whose
    difference to [now] is [NaN]. *)
Definition formatRelativeTime (now : Z) (date : option Z) : jsstring :=
  match date with
  | Some d =>
      let diffMs := now - d in
      let diffMin := diffMs / 60000 in
      let diffHours := diffMin / 60 in
      if diffMin <? 1 then lit "gerade eben"
      else if diffMin <? 60 then
        lit "vor " ++ number_to_string diffMin ++ lit " Min."
      else if diffHours <? 24 then
        lit "vor " ++ number_to_string diffHours ++ lit " Std."
      else toLocaleDateString date
  | None => toLocaleDateString date   (* every comparison with NaN fails *)
  end.

(** [updateUI(status)], at time [now]. *)
Definition updateUI (now : Z) (status : value) (p : Page) : Page :=
  if negb (truthy status) || negb (truthy (get_prop status "configured"))
  then showNotConfigured p
  else
    let p := show_sections "none" "block" p in
    let lastSyncTime := get_prop status "lastSyncTime" in
    let p :=
      if truthy (get_prop status "hasConflict") then
        show_conflictBox "block"
          (setStatus WARNING_SIGN (lit "Konflikt erkannt") "status-warning" p)
      else if truthy lastSyncTime then
        show_conflictBox "none"
          (setStatus CHECK_MARK (lit "Synchronisiert") "status-ok" p)
      else
        show_conflictBox "none"
          (setStatus CLIPBOARD (lit "Noch nicht synchronisiert")
             "status-ok" p) in
    let p :=
      if truthy lastSyncTime then
        set_lastSyncEl
          (lit "Letzter Sync: "
           ++ formatRelativeTime now (Date_getTime lastSyncTime)) p
      else set_lastSyncEl [] p in
    if truthy (get_prop status "autoSync")
    then set_autoSync "dot dot-active" (lit "Auto-Sync aktiv") p
    else set_autoSync "dot dot-inactive" (lit "Auto-Sync deaktiviert") p.

(** How the [await] of [loadStatus] ends: with the status the background
    sent, or in the [catch] block. *)
Inductive StatusReply :=
| StatusResolved (status : value)
| StatusCaught.

(** [loadStatus()] from its [await] on. *)
Definition loadStatus_settle (now : Z) (reply : StatusReply) (p : Page)
  : Page :=
  match reply with
  | StatusResolved status => updateUI now status p
  | StatusCaught => showNotConfigured p
  end.

(** A message sent to the background and not settled yet: the
    [getStatus] of [loadStatus], or the action of [handleAction]. *)
Inductive Message :=
| GetStatus
| Action (action : string).

(** The popup while it is open: the page, and the messages sent to the
    background that are not settled yet. *)
Record Popup := {
  page : Page;
  pending : list Message;
}.

(** What happens to an open popup: [DOMContentLoaded], which runs
    [loadStatus]; a click on one of the five buttons that call
    [handleAction]; the end of the [await] of one of the pending
    messages, at time [now] for a status. *)
Inductive Event :=
| ContentLoaded
| Click (action : string)
| Settle (which : nat) (reply : Reply)
| SettleStatus (which : nat) (now : Z) (reply : StatusReply).

(** [None]: the event cannot happen, no such message is pending. *)
Definition step (s : Popup) (e : Event) : option Popup :=
  match e with
  | ContentLoaded =>
      Some {| page := page s; pending := pending s ++ [GetStatus] |}
  | Click action =>
      match handleAction_send (page s) with
      | Some p => Some {| page := p; pending := pending s ++ [Action action] |}
      | None => Some s
      end
  | Settle which reply =>
      match pending s !! which with
      | Some (Action _) =>
          Some {| page := handleAction_settle reply (page s);
                  pending := delete which (pending s) |}
      | _ => None
      end
  | SettleStatus which now reply =>
      match pending s !! which with
      | Some GetStatus =>
          Some {| page := loadStatus_settle now reply (page s);
                  pending := delete which (pending s) |}
      | _ => None
      end
  end.

Fixpoint run (s : Popup) (events : list Event) : option Popup :=
  match events with
  | [] => Some s
  | e :: rest =>
      match step s e with
      | Some s' => run s' rest
      | None => None
      end
  end.

End Status.

(** A page as the popup shows it when opened, for the concrete
    evaluations. *)
Definition sample_page : Page :=
  {| isSyncing := false;
     syncBtn_disabled := false;
     pushBtn_disabled := false;
     pullBtn_disabled := false;
     syncSpinner_display := "none";
     syncText := lit "Jetzt synchronisieren";
     statusIcon := CHECK_MARK;
     statusMessage := lit "Synchronisiert";
     statusBox_className := lit "status-box status-ok";
     conflictBox_display := "none";
     lastSyncEl := [];
     notConfiguredEl_display := "none";
     configuredEl_display := "block";
     autoSyncDot_className := "dot dot-active";
     autoSyncText := lit "Auto-Sync aktiv" |}.

End Popup.

(** ** The options page ([options.js]) *)

Module Options.
Import JS Json Operators Text GitHub GitHubOps.
Local Open Scope N_scope.

(** [list.includes(text)] on an array of strings. *)
Definition array_includes (l : list jsstring) (text : jsstring) : bool :=
  existsb (fun x => bool_decide (x = text)) l.

Section Validate.

Variable fetch : Request -> result Response.
Variable getMessage : string -> list value -> jsstring.
Variable headers_get : Response -> string -> option jsstring.

(** The [GitHubAPI] the click listener builds from the input fields. *)
Definition api_of (tokenInput ownerInput repoInput branchInput : jsstring)
  : GitHubAPI :=
  {| token := trim tokenInput;
     owner := trim ownerInput;
     repo := trim repoInput;
     branch := if truthy (VStr (trim branchInput)) then trim branchInput
               else lit "main" |}.

(** The click listener of the validate button: the calls of
    [showValidation(message, type)] it makes, in order.  Its [catch]
    block is left out: [validateToken] and [checkRepo] return in every
    case. *)
Definition validate (tokenInput ownerInput repoInput branchInput : jsstring)
  : list (jsstring * string) :=
  let api := api_of tokenInput ownerInput repoInput branchInput in
  if negb (truthy (VStr (token api))) then
    [(lit "Bitte Token eingeben.", "error"%string)]
  else
    (lit "Pr" ++ [252] ++ lit "fe...", "loading"%string)
    :: (let tokenResult := validateToken fetch getMessage headers_get api in
        let user := ToString (username tokenResult) in
        if negb (valid tokenResult) then
          [(lit "Token ung" ++ [252] ++ lit "ltig.", "error"%string)]
        else if negb (array_includes (scopes tokenResult) (lit "repo")) then
          [(lit "Token g" ++ [252] ++ lit "ltig (" ++ user ++ lit "), aber "
            ++ [34] ++ lit "repo" ++ [34] ++ lit "-Scope fehlt.",
            "error"%string)]
        else if truthy (VStr (owner api)) && truthy (VStr (repo api)) then
          if negb (checkRepo fetch getMessage api) then
            [(lit "Token g" ++ [252] ++ lit "ltig (" ++ user
              ++ lit "), aber Repository " ++ [34] ++ owner api ++ lit "/"
              ++ repo api ++ [34] ++ lit " nicht gefunden.",
              "error"%string)]
          else
            [(lit "Verbindung OK! Benutzer: " ++ user ++ lit ", Repo: "
              ++ owner api ++ lit "/" ++ repo api, "success"%string)]
        else
          [(lit "Token g" ++ [252] ++ lit "ltig! Benutzer: " ++ user
            ++ lit ". Bitte Repository angeben.", "success"%string)]).

End Validate.

End Options.

(** ** The theme ([lib/theme.js]) *)

Module Theme.
Import JS Operators.

Definition STORAGE_KEY : string := "theme".

(** The document and the module state: whether the root element has the
    class [dark], whether [mediaQueryListener] is set, how many change
    listeners of this module the media query lists of the window hold,
    and what the query [(prefers-color-scheme: dark)] matches. *)
Record Document := {
  dark : bool;
  mediaQueryListener : bool;
  listeners : nat;
  prefers_dark : bool;
}.

(** [resolveIsDark(theme)]. *)
Definition resolveIsDark (theme : value) (doc : Document) : bool :=
  if strict_eq_str theme (lit "dark") then true
  else if strict_eq_str theme (lit "light") then false
  else prefers_dark doc.

(** [apply(isDark)]. *)
Definition apply (isDark : bool) (doc : Document) : Document :=
  {| dark := isDark;
     mediaQueryListener := mediaQueryListener doc;
     listeners := listeners doc;
     prefers_dark := prefers_dark doc |}.

(** [window.matchMedia(...).removeListener(mediaQueryListener);
    mediaQueryListener = null].  Each call of [window.matchMedia] returns
    a list of its own: the one the call is made on holds no listener,
    and the listener stays on the list it was added to. *)
Definition remove_listener (doc : Document) : Document :=
  {| dark := dark doc;
     mediaQueryListener := false;
     listeners := listeners doc;
     prefers_dark := prefers_dark doc |}.

(** [mediaQueryListener = ...; mq.addEventListener('change', ...)], on a
    new list [mq]. *)
Definition add_listener (doc : Document) : Document :=
  {| dark := dark doc;
     mediaQueryListener := true;
     listeners := S (listeners doc);
     prefers_dark := prefers_dark doc |}.

(** [applyTheme(theme)]. *)
Definition applyTheme (theme : value) (doc : Document) : Document :=
  let isDark := resolveIsDark theme doc in
  let doc := apply isDark doc in
  let doc := if mediaQueryListener doc then remove_listener doc else doc in
  if strict_eq_str theme (lit "auto") then add_listener doc else doc.

(** [initTheme()], from the answer of [chrome.storage.sync.get] on; the
    stored theme defaults to ['auto']. *)
Definition initTheme (storage : gmap string value) (doc : Document)
  : Document :=
  let theme := default (VStr (lit "auto")) (storage !! STORAGE_KEY) in
  let isDark := resolveIsDark theme doc in
  let doc := apply isDark doc in
  let doc := if mediaQueryListener doc then remove_listener doc else doc in
  if strict_eq_str theme (lit "auto") then add_listener doc else doc.

(** The media query changes to [matches]: every listener this module
    has left on a list runs [apply(resolveIsDark('auto'))]. *)
Definition change (matches : bool) (doc : Document) : Document :=
  let doc := {| dark := dark doc;
                mediaQueryListener := mediaQueryListener doc;
                listeners := listeners doc;
                prefers_dark := matches |} in
  Nat.iter (listeners doc)
    (fun d => apply (resolveIsDark (VStr (lit "auto")) d) d) doc.

Inductive Event :=
| InitTheme (storage : gmap string value)
| ApplyTheme (theme : value)
| Change (matches : bool).

Definition step (doc : Document) (e : Event) : Document :=
  match e with
  | InitTheme storage => initTheme storage doc
  | ApplyTheme theme => applyTheme theme doc
  | Change matches => change matches doc
  end.

(** The document when the module is loaded: [mediaQueryListener] is
    [null]. *)
Definition loaded (isDark matches : bool) : Document :=
  {| dark := isDark;
     mediaQueryListener := false;
     listeners := 0;
     prefers_dark := matches |}.

End Theme.

(** * Properties *)

(** Linear arithmetic with division and remainder by constants. *)
Ltac divmod := zify; Z.to_euclidean_division_equations; lia.

(** ** The background service worker *)

Module BackgroundProps.
Import JS Background.

Section Props.

Variable STORAGE_KEYS : StorageKeys.
Variable isConfigured : gmap string value -> bool.
Variable Date_getTime : value -> option Z.

Abbreviation triggerAutoSync := (triggerAutoSync STORAGE_KEYS isConfigured).
Abbreviation onBookmarkEvent := (onBookmarkEvent STORAGE_KEYS isConfigured).
Abbreviation onAlarm := (onAlarm STORAGE_KEYS isConfigured).
Abbreviation onFocusChanged :=
  (onFocusChanged STORAGE_KEYS isConfigured Date_getTime).
Abbreviation onStartup := (onStartup STORAGE_KEYS isConfigured).

(** *** Local mutation events *)

Lemma onBookmarkEvent_trigger ev w :
  onBookmarkEvent ev w = triggerAutoSync w.
Proof. by destruct ev. Qed.

Lemma triggerAutoSync_guarded w :
  autoSyncSuppressed w = true \/ syncInProgress w = true ->
  triggerAutoSync w = [].
Proof.
  intros Hflag. unfold triggerAutoSync.
  destruct (syncInProgress w) eqn:Hrun; [done|].
  destruct Hflag as [->|Hc]; [done | discriminate Hc].
Qed.

(** C2. A bookmark mutation event (create, remove, change, move) handled
    while the suppression flag is raised, or while a sync is in progress,
    makes no call at all: in particular it schedules no debounced sync. *)
Theorem suppressed_event_schedules_nothing ev w :
  autoSyncSuppressed w = true \/ syncInProgress w = true ->
  onBookmarkEvent ev w = [] /\ starts_sync (onBookmarkEvent ev w) = false.
Proof.
  intros Hflag. rewrite onBookmarkEvent_trigger.
  by rewrite (triggerAutoSync_guarded w Hflag).
Qed.

Lemma triggerAutoSync_cases w :
  triggerAutoSync w = [] \/
  (syncInProgress w = false /\ autoSyncSuppressed w = false /\
   triggerAutoSync w =
     [DebouncedSync
        (coalesce (index (settings w) (DEBOUNCE_DELAY STORAGE_KEYS)) (VNum 5000))]).
Proof.
  unfold triggerAutoSync.
  destruct (syncInProgress w); [by left|].
  destruct (autoSyncSuppressed w); [by left|].
  destruct (_ && _); [by right | by left].
Qed.

(** C8. When a bookmark mutation event triggers auto-sync, exactly one
    delayed sync is scheduled; its delay is the configured debounce delay,
    and 5000 ms when none is configured (the setting is missing,
    [undefined] or [null]).  Auto-sync enabled, profile configured, no
    suppression and no sync in progress are sufficient for the event to
    trigger. *)
Theorem debounce_delay_configured_or_5000 ev w :
  (starts_sync (onBookmarkEvent ev w) = true ->
     (forall v, settings w !! DEBOUNCE_DELAY STORAGE_KEYS = Some v ->
                nullish v = false ->
                onBookmarkEvent ev w = [DebouncedSync v]) /\
     (settings w !! DEBOUNCE_DELAY STORAGE_KEYS = None ->
        onBookmarkEvent ev w = [DebouncedSync (VNum 5000)]) /\
     (forall v, settings w !! DEBOUNCE_DELAY STORAGE_KEYS = Some v ->
                nullish v = true ->
                onBookmarkEvent ev w = [DebouncedSync (VNum 5000)])) /\
  (truthy (index (settings w) (AUTO_SYNC STORAGE_KEYS)) = true ->
   isConfigured (settings w) = true ->
   autoSyncSuppressed w = false ->
   syncInProgress w = false ->
   starts_sync (onBookmarkEvent ev w) = true).
Proof.
  rewrite onBookmarkEvent_trigger. split.
  - intros Hstart.
    destruct (triggerAutoSync_cases w) as [Hnil | (_ & _ & Heq)].
    { rewrite Hnil in Hstart. discriminate Hstart. }
    rewrite Heq. unfold index, coalesce.
    repeat split.
    + intros v -> Hv. simpl. by rewrite Hv.
    + by intros ->.
    + intros v -> Hv. simpl. by rewrite Hv.
  - intros Ha Hc Hs Hr. unfold triggerAutoSync.
    by rewrite Hr, Hs, Ha, Hc.
Qed.

(** *** The focus trigger *)

Lemma starts_sync_badge success : starts_sync (badge success) = false.
Proof. by destruct success. Qed.

(** C7. The focus listener calls [sync()] only for a real window, with
    sync-on-focus enabled, the profile configured, auto-sync enabled, no
    sync in flight and, when a last sync time is recorded, at least the
    cooldown of 60000 ms elapsed since then; within the cooldown window it
    makes no call at all. *)
Theorem focus_sync_respects_cooldown windowId success w :
  (starts_sync (onFocusChanged windowId success w) = true ->
     windowId <> WINDOW_ID_NONE /\ 0 <= windowId /\
     truthy (index (settings w) (SYNC_ON_FOCUS STORAGE_KEYS)) = true /\
     isConfigured (settings w) = true /\
     truthy (index (settings w) (AUTO_SYNC STORAGE_KEYS)) = true /\
     syncInProgress w = false /\
     (forall lastSync t,
        local_storage w !! LAST_SYNC_TIME STORAGE_KEYS = Some lastSync ->
        truthy lastSync = true ->
        Date_getTime lastSync = Some t ->
        60000 <= now w - t)) /\
  (forall lastSync t,
     local_storage w !! LAST_SYNC_TIME STORAGE_KEYS = Some lastSync ->
     truthy lastSync = true ->
     Date_getTime lastSync = Some t ->
     now w - t < 60000 ->
     onFocusChanged windowId success w = []).
Proof.
  unfold onFocusChanged, within_cooldown, index, FOCUS_SYNC_COOLDOWN_MS.
  split.
  - destruct (windowId =? WINDOW_ID_NONE) eqn:Hnone; [done|].
    destruct (windowId <? 0) eqn:Hneg; [done|]. simpl.
    destruct (truthy (default _ (settings w !! SYNC_ON_FOCUS _))); [|done].
    destruct (isConfigured (settings w)); [|done].
    destruct (truthy (default _ (settings w !! AUTO_SYNC _))); [|done].
    simpl.
    destruct (local_storage w !! LAST_SYNC_TIME STORAGE_KEYS) as [l|] eqn:Hl;
      simpl.
    + destruct (truthy l) eqn:Htl; simpl.
      * destruct (Date_getTime l) as [t|] eqn:Ht.
        -- destruct (now w - t <? 60000) eqn:Hcool; [done|].
           destruct (syncInProgress w); [done|]. intros _.
           repeat split; try lia.
           intros l' t' [= <-] _ Ht'. rewrite Ht in Ht'.
           injection Ht' as <-. lia.
        -- destruct (syncInProgress w); [done|]. intros _.
           repeat split; try lia.
           intros l' t' [= <-] _ Ht'. congruence.
      * destruct (syncInProgress w); [done|]. intros _.
        repeat split; try lia.
        intros l' t' [= <-] Htl'. congruence.
    + destruct (syncInProgress w); [done|]. intros _.
      repeat split; try lia. intros l' t' [=].
  - intros l t -> Htl Ht Hlt. simpl. rewrite Htl, Ht.
    assert ((now w - t <? 60000) = true) as -> by lia.
    destruct (_ || _); [done|]. by destruct (_ || _).
Qed.

(** *** The conflict flag *)

(** C3 (amended). None of the automatic triggers consults the conflict
    flag: the debounce, alarm, focus and startup handlers make the same
    calls with the flag set as with it clear, so an automatic [sync()] is
    still started under the usual conditions; the manual sync, push and
    pull messages are always dispatched. *)
Theorem triggers_ignore_conflict_flag b ev name windowId success w :
  onBookmarkEvent ev (with_conflict b w) = onBookmarkEvent ev w /\
  onAlarm name success (with_conflict b w) = onAlarm name success w /\
  onFocusChanged windowId success (with_conflict b w)
    = onFocusChanged windowId success w /\
  onStartup success (with_conflict b w) = onStartup success w /\
  onMessage "sync" = [Sync] /\ onMessage "push" = [Push] /\
  onMessage "pull" = [Pull].
Proof.
  rewrite !onBookmarkEvent_trigger. by repeat split.
Qed.

End Props.

Lemma suppressed_event_schedules_nothing_witness :
  onBookmarkEvent sample_keys sample_isConfigured OnCreated
    (sample_world false true false None 0) = [] /\
  starts_sync (onBookmarkEvent sample_keys sample_isConfigured OnCreated
    (sample_world false true false None 0)) = false.
Proof.
  apply (suppressed_event_schedules_nothing sample_keys sample_isConfigured
           OnCreated (sample_world false true false None 0)).
  left. reflexivity.
Defined.

Lemma debounce_delay_configured_or_5000_witness :
  onBookmarkEvent sample_keys sample_isConfigured OnChanged
    (sample_world false false false None 0) = [DebouncedSync (VNum 5000)].
Proof.
  apply (debounce_delay_configured_or_5000 sample_keys sample_isConfigured
           OnChanged (sample_world false false false None 0)).
  - vm_compute. reflexivity.
  - vm_compute. reflexivity.
Defined.

Lemma focus_sync_respects_cooldown_witness :
  onFocusChanged sample_keys sample_isConfigured sample_getTime 1 true
    (sample_world false false false (Some 1000) 31000) = [].
Proof.
  apply (focus_sync_respects_cooldown sample_keys sample_isConfigured
           sample_getTime 1 true
           (sample_world false false false (Some 1000) 31000))
    with (lastSync := VNum 1000) (t := 1000).
  - vm_compute. reflexivity.
  - reflexivity.
  - reflexivity.
  - simpl. lia.
Defined.

(** C3, as stated, fails: with the conflict flag set, a mutation event
    still schedules a debounced sync, and the alarm and the focus change
    each still call [sync()]. *)
Lemma conflict_flag_does_not_stop_auto_sync :
  let w := sample_world false false true None 0 in
  hasConflict w = true /\
  onBookmarkEvent sample_keys sample_isConfigured OnCreated w
    = [DebouncedSync (VNum 5000)] /\
  onAlarm sample_keys sample_isConfigured "bookmarkSyncPull" true w
    = [Sync; SetBadgeText ""] /\
  onFocusChanged sample_keys sample_isConfigured sample_getTime 1 true w
    = [Sync; SetBadgeText ""].
Proof. vm_compute. repeat split. Qed.

End BackgroundProps.

(** ** Single-flight execution *)

Module CoordinatorProps.
Import JS Background Coordinator BackgroundProps.

Section Props.

Variable STORAGE_KEYS : StorageKeys.
Variable isConfigured : gmap string value -> bool.
Variable Date_getTime : value -> option Z.

Abbreviation step := (step STORAGE_KEYS isConfigured Date_getTime).
Abbreviation reachable := (reachable STORAGE_KEYS isConfigured Date_getTime).

Lemma enter_single_flight m st :
  single_flight st -> single_flight (snd (enter m st)).
Proof.
  intros [[Hf He] | [Hf He]]; unfold enter; rewrite Hf; simpl.
  - right. split; [done|]. exists m. by rewrite He.
  - by right.
Qed.

Lemma dispatch_single_flight calls st :
  single_flight st -> single_flight (dispatch calls st).
Proof.
  revert st. induction calls as [|c calls IH]; intros st Hst; [done|].
  destruct c; simpl; auto using enter_single_flight.
Qed.

Lemma remove_first_singleton m : remove_first m [m] = [].
Proof. by destruct m. Qed.

Lemma step_single_flight st st' :
  single_flight st -> step st st' -> single_flight st'.
Proof.
  intros Hst Hstep. destruct Hstep as [m st | t success w st _ | m st Hin | m st Hin].
  - by apply enter_single_flight.
  - by apply dispatch_single_flight.
  - exact Hst.
  - left. split; [done|]. simpl.
    destruct Hst as [[_ He] | [_ [m' He]]]; rewrite He in Hin |- *.
    + destruct Hin.
    + destruct Hin as [-> | []]. apply remove_first_singleton.
Qed.

Lemma reachable_single_flight st : reachable st -> single_flight st.
Proof.
  induction 1 as [|st st' _ IH Hstep].
  - by left.
  - by eapply step_single_flight.
Qed.

(** C4. At most one of push, pull and sync executes at any time: in every
    reachable state of the coordinator at most one operation is between
    its start and its completion.  An entry point called while the
    in-flight flag is set is rejected and leaves the state as it is: no
    side effect is performed and the request is not queued.  In the
    service worker, a mutation event and a focus change that observe a
    sync in progress make no call at all. *)
Theorem at_most_one_in_flight :
  (forall st, reachable st -> (length (executing st) <= 1)%nat) /\
  (forall m st, inFlight st = true -> enter m st = (Rejected, st)) /\
  (forall ev w, syncInProgress w = true ->
     onBookmarkEvent STORAGE_KEYS isConfigured ev w = []) /\
  (forall windowId success w, syncInProgress w = true ->
     starts_sync
       (onFocusChanged STORAGE_KEYS isConfigured Date_getTime windowId success w)
     = false).
Proof.
  split; [|split; [|split]].
  - intros st Hst. apply reachable_single_flight in Hst.
    destruct Hst as [[_ ->] | [_ [m ->]]]; simpl; lia.
  - intros m st Hf. unfold enter. by rewrite Hf.
  - intros ev w Hrun. rewrite onBookmarkEvent_trigger.
    apply triggerAutoSync_guarded. by right.
  - intros windowId success w Hrun. unfold onFocusChanged. rewrite Hrun.
    destruct (_ || _); [done|]. destruct (_ || _); [done|].
    by destruct (_ && _).
Qed.

End Props.

Lemma at_most_one_in_flight_witness :
  enter ModeSync (snd (enter ModePull idle))
    = (Rejected, snd (enter ModePull idle)).
Proof.
  apply (at_most_one_in_flight sample_keys sample_isConfigured sample_getTime).
  reflexivity.
Defined.

(** Two [sync()] calls in a row from [Idle]: the first starts, the second
    is rejected and changes nothing. *)
Example second_sync_rejected :
  let st1 := snd (enter ModeSync idle) in
  fst (enter ModeSync idle) = Started /\
  enter ModeSync st1 = (Rejected, st1).
Proof. by simpl. Qed.

End CoordinatorProps.

(** ** Base64 *)

Module Base64Props.
Import JS Base64.
Local Open Scope N_scope.

(** Induction over a list three elements at a time. *)
Lemma list_ind3 {A} (P : list A -> Prop) :
  P [] -> (forall a, P [a]) -> (forall a b, P [a; b]) ->
  (forall a b c r, P r -> P (a :: b :: c :: r)) ->
  forall l, P l.
Proof.
  intros H0 H1 H2 H3.
  fix IH 1. intros [|a [|b [|c r]]];
    [apply H0 | apply H1 | apply H2 | apply H3, IH].
Qed.

Lemma sextet_of_char_of_sextet i :
  i < 64 -> sextet_of_char (char_of_sextet i) = Some i.
Proof.
  intros Hi. unfold char_of_sextet, sextet_of_char.
  repeat match goal with
         | |- context [?a <? ?b] => destruct (N.ltb_spec a b)
         | |- context [?a <=? ?b] => destruct (N.leb_spec a b)
         | |- context [?a =? ?b] => destruct (N.eqb_spec a b)
         end; simpl; try (f_equal; lia); try lia.
Qed.

Lemma char_of_sextet_alphabet i :
  let c := char_of_sextet i in
  65 <= c <= 90 \/ 97 <= c <= 122 \/ 48 <= c <= 57 \/ c = 43 \/ c = 47.
Proof.
  unfold char_of_sextet.
  destruct (N.ltb_spec i 26); [lia|].
  destruct (N.ltb_spec i 52); [lia|].
  destruct (N.ltb_spec i 62); [lia|].
  destruct (N.eqb_spec i 62); lia.
Qed.

Lemma char_of_sextet_not_whitespace i :
  is_ascii_whitespace (char_of_sextet i) = false.
Proof.
  pose proof (char_of_sextet_alphabet i) as H. simpl in H.
  unfold is_ascii_whitespace.
  repeat match goal with
         | |- context [?a =? ?b] => destruct (N.eqb_spec a b); [lia|]
         end.
  reflexivity.
Qed.

Lemma char_of_sextet_not_pad i : (char_of_sextet i =? PAD) = false.
Proof.
  pose proof (char_of_sextet_alphabet i) as H. simpl in H.
  apply N.eqb_neq. unfold PAD. lia.
Qed.

Lemma drop_padding_cons x l :
  (x =? PAD) = false -> drop_padding (x :: l) = x :: drop_padding l.
Proof.
  intros Hx. destruct l as [|y [|z l]]; simpl; rewrite ?Hx; reflexivity.
Qed.

Lemma filter_encode_bytes l :
  List.filter (fun c => negb (is_ascii_whitespace c)) (encode_bytes l)
  = encode_bytes l.
Proof.
  induction l as [|a|a b|a b c r IH] using list_ind3;
    simpl; rewrite ?char_of_sextet_not_whitespace; simpl; congruence.
Qed.

Lemma mod4_SSSS n : (S (S (S (S n))) mod 4 = n mod 4)%nat.
Proof.
  replace (S (S (S (S n)))) with (n + 1 * 4)%nat by lia.
  apply Nat.Div0.mod_add.
Qed.

Lemma length_encode_bytes l : (length (encode_bytes l) mod 4 = 0)%nat.
Proof.
  induction l as [|a|a b|a b c r IH] using list_ind3; try reflexivity.
  cbn [encode_bytes length]. by rewrite mod4_SSSS.
Qed.

Lemma decode_drop_padding l :
  Forall (fun b => b < 256) l ->
  exists sx,
    sextets (drop_padding (encode_bytes l)) = Some sx /\
    decode_sextets sx = l /\
    (length (drop_padding (encode_bytes l)) mod 4 =? 1)%nat = false.
Proof.
  induction l as [|a|a b|a b c r IH] using list_ind3; intros Hl.
  - by exists [].
  - apply Forall_cons in Hl as [Ha _].
    exists [a / 4; (a mod 4) * 16]. cbn [encode_bytes].
    rewrite !drop_padding_cons by apply char_of_sextet_not_pad.
    cbn [drop_padding sextets]. simpl (PAD =? PAD).
    cbn [andb sextets].
    rewrite !sextet_of_char_of_sextet by divmod.
    repeat split. cbn [decode_sextets]. f_equal. divmod.
  - apply Forall_cons in Hl as [Ha Hl]. apply Forall_cons in Hl as [Hb _].
    exists [a / 4; (a mod 4) * 16 + b / 16; (b mod 16) * 4].
    cbn [encode_bytes].
    rewrite !drop_padding_cons by apply char_of_sextet_not_pad.
    cbn [drop_padding sextets]. simpl (PAD =? PAD). cbn [sextets].
    rewrite !sextet_of_char_of_sextet by divmod.
    repeat split. cbn [decode_sextets]. f_equal; [|f_equal]; divmod.
  - apply Forall_cons in Hl as [Ha Hl]. apply Forall_cons in Hl as [Hb Hl].
    apply Forall_cons in Hl as [Hc Hl].
    destruct (IH Hl) as (sx & Hsx & Hdec & Hlen).
    exists (a / 4 :: (a mod 4) * 16 + b / 16 :: (b mod 16) * 4 + c / 64
            :: c mod 64 :: sx).
    cbn [encode_bytes].
    rewrite !drop_padding_cons by apply char_of_sextet_not_pad.
    cbn [sextets length]. rewrite Hsx, mod4_SSSS, Hlen.
    rewrite !sextet_of_char_of_sextet by divmod.
    repeat split. cbn [decode_sextets]. rewrite Hdec.
    f_equal; [|f_equal; [|f_equal]]; divmod.
Qed.

Lemma atob_encode_bytes l :
  Forall (fun b => b < 256) l -> atob (encode_bytes l) = Return l.
Proof.
  intros Hl. unfold atob. rewrite filter_encode_bytes, length_encode_bytes.
  simpl (0 =? 0)%nat. cbv iota.
  destruct (decode_drop_padding l Hl) as (sx & -> & -> & ->). reflexivity.
Qed.

Lemma btoa_bytes l :
  Forall (fun b => b < 256) l -> btoa l = Return (encode_bytes l).
Proof.
  intros Hl. unfold btoa.
  assert (forallb (fun c => c <=? 255) l = true) as ->; [|done].
  apply forallb_forall. intros x Hx.
  rewrite Forall_forall in Hl. apply list_elem_of_In in Hx.
  specialize (Hl x Hx). apply N.leb_le. lia.
Qed.

End Base64Props.

(** ** UTF-8 *)

Module Utf8Props.
Import JS Utf8.
Local Open Scope N_scope.

(** A Unicode scalar value: a code point that is not a surrogate. *)
Definition scalar (cp : N) : Prop :=
  cp < 0x110000 /\ ~ (0xD800 <= cp <= 0xDFFF).

Lemma between_true lo hi b : lo <= b <= hi -> between lo hi b = true.
Proof.
  intros [H1 H2]. unfold between.
  apply andb_true_intro. split; by apply N.leb_le.
Qed.

Lemma between_false lo hi b : b < lo \/ hi < b -> between lo hi b = false.
Proof.
  intros H. unfold between. apply andb_false_iff.
  destruct H; [left | right]; by apply N.leb_gt.
Qed.

(** *** Well-formed byte sequences are decoded to their code point *)

Lemma decode_1 b r :
  b <= 0x7F -> decode_bytes (b :: r) = b :: decode_bytes r.
Proof.
  intros Hb. cbn [decode_bytes].
  by rewrite (proj2 (N.leb_le b 0x7F) Hb).
Qed.

Lemma decode_2 b b1 r :
  0xC2 <= b <= 0xDF -> 0x80 <= b1 <= 0xBF ->
  decode_bytes (b :: b1 :: r)
  = ((b mod 32) * 64 + b1 mod 64) :: decode_bytes r.
Proof.
  intros Hb Hb1. cbn [decode_bytes].
  rewrite (proj2 (N.leb_gt b 0x7F)) by lia.
  by rewrite !between_true.
Qed.

Lemma decode_3 b b1 b2 r :
  0xE0 <= b <= 0xEF ->
  (if b =? 0xE0 then 0xA0 else 0x80) <= b1
    <= (if b =? 0xED then 0x9F else 0xBF) ->
  0x80 <= b2 <= 0xBF ->
  decode_bytes (b :: b1 :: b2 :: r)
  = ((b mod 16) * 4096 + (b1 mod 64) * 64 + b2 mod 64) :: decode_bytes r.
Proof.
  intros Hb Hb1 Hb2. cbn [decode_bytes].
  rewrite (proj2 (N.leb_gt b 0x7F)) by lia.
  rewrite (between_false 0xC2 0xDF b) by lia.
  rewrite (between_true 0xE0 0xEF b) by lia.
  cbv zeta. by rewrite !between_true.
Qed.

Lemma decode_4 b b1 b2 b3 r :
  0xF0 <= b <= 0xF4 ->
  (if b =? 0xF0 then 0x90 else 0x80) <= b1
    <= (if b =? 0xF4 then 0x8F else 0xBF) ->
  0x80 <= b2 <= 0xBF -> 0x80 <= b3 <= 0xBF ->
  decode_bytes (b :: b1 :: b2 :: b3 :: r)
  = ((b mod 8) * 262144 + (b1 mod 64) * 4096 + (b2 mod 64) * 64 + b3 mod 64)
    :: decode_bytes r.
Proof.
  intros Hb Hb1 Hb2 Hb3. cbn [decode_bytes].
  rewrite (proj2 (N.leb_gt b 0x7F)) by lia.
  rewrite (between_false 0xC2 0xDF b) by lia.
  rewrite (between_false 0xE0 0xEF b) by lia.
  rewrite (between_true 0xF0 0xF4 b) by lia.
  cbv zeta. by rewrite !between_true.
Qed.

Lemma decode_encode_code_point cp bs :
  scalar cp ->
  decode_bytes (encode_code_point cp ++ bs) = cp :: decode_bytes bs.
Proof.
  intros [Hmax Hsur]. unfold encode_code_point.
  destruct (N.ltb_spec cp 0x80) as [H1|H1].
  { simpl app. rewrite decode_1 by lia. reflexivity. }
  destruct (N.ltb_spec cp 0x800) as [H2|H2].
  { simpl app. rewrite decode_2 by divmod. f_equal. divmod. }
  destruct (N.ltb_spec cp 0x10000) as [H3|H3].
  { simpl app. rewrite decode_3.
    - f_equal. divmod.
    - divmod.
    - destruct (N.eqb_spec (0xE0 + cp / 4096) 0xE0);
        destruct (N.eqb_spec (0xE0 + cp / 4096) 0xED); divmod.
    - divmod. }
  simpl app. rewrite decode_4.
  - f_equal. divmod.
  - divmod.
  - destruct (N.eqb_spec (0xF0 + cp / 262144) 0xF0);
      destruct (N.eqb_spec (0xF0 + cp / 262144) 0xF4); divmod.
  - divmod.
  - divmod.
Qed.

Lemma decode_encode cps :
  Forall scalar cps -> decode_bytes (flat_map encode_code_point cps) = cps.
Proof.
  induction 1 as [|cp cps Hcp _ IH]; [done|].
  cbn [flat_map]. by rewrite decode_encode_code_point, IH.
Qed.

Lemma encode_code_point_bytes cp :
  scalar cp -> Forall (fun b => b < 256) (encode_code_point cp).
Proof.
  intros [Hmax _]. unfold encode_code_point.
  repeat match goal with
         | |- context [?a <? ?b] => destruct (N.ltb_spec a b)
         end; repeat constructor; divmod.
Qed.


(** *** Strings and their scalar values *)

(** Induction over a list with access to the tail and the tail's tail. *)
Lemma list_ind2 {A} (P : list A -> Prop) :
  P [] -> (forall a, P [a]) ->
  (forall a b r, P r -> P (b :: r) -> P (a :: b :: r)) ->
  forall l, P l.
Proof.
  intros H0 H1 H2 l.
  enough (P l /\ forall a, P (a :: l)) as [Hl _] by exact Hl.
  induction l as [|b r [IHr IHbr]]; [by split|].
  split; [apply IHbr|]. intros a. apply H2; [exact IHr | apply IHbr].
Qed.

Lemma surrogate_cases c :
  (is_high_surrogate c = true /\ 0xD800 <= c <= 0xDBFF) \/
  (is_high_surrogate c = false /\ (c < 0xD800 \/ 0xDBFF < c)).
Proof.
  unfold is_high_surrogate.
  destruct (N.leb_spec 0xD800 c); destruct (N.leb_spec c 0xDBFF);
    simpl; lia.
Qed.

Lemma low_surrogate_cases c :
  (is_low_surrogate c = true /\ 0xDC00 <= c <= 0xDFFF) \/
  (is_low_surrogate c = false /\ (c < 0xDC00 \/ 0xDFFF < c)).
Proof.
  unfold is_low_surrogate.
  destruct (N.leb_spec 0xDC00 c); destruct (N.leb_spec c 0xDFFF);
    simpl; lia.
Qed.

(** How a well-formed string starts. *)
Lemma well_formed_cons c r :
  well_formed (c :: r) = true ->
  (c < 0x10000 /\ is_high_surrogate c = false /\ is_low_surrogate c = false
   /\ well_formed r = true
   /\ scalar_values (c :: r) = c :: scalar_values r) \/
  (exists d r1,
     r = d :: r1 /\ 0xD800 <= c <= 0xDBFF /\ 0xDC00 <= d <= 0xDFFF
     /\ well_formed r1 = true
     /\ scalar_values (c :: r)
        = (0x10000 + (c - 0xD800) * 0x400 + (d - 0xDC00)) :: scalar_values r1).
Proof.
  cbn [well_formed scalar_values].
  destruct (surrogate_cases c) as [[-> Hc] | [-> Hc]].
  - destruct r as [|d r1]; [done|]. intros [Hd Hr]%andb_true_iff.
    right. exists d, r1. rewrite Hd.
    destruct (low_surrogate_cases d) as [[_ ?] | [? _]]; [|congruence].
    done.
  - intros [[Hlt Hlow]%andb_true_iff Hr]%andb_true_iff.
    apply negb_true_iff in Hlow. apply N.ltb_lt in Hlt.
    left. by rewrite Hlow.
Qed.

Lemma scalar_values_scalar s :
  well_formed s = true -> Forall scalar (scalar_values s).
Proof.
  induction s as [|c|c d r IHr IHdr] using list_ind2; intros Hwf.
  - constructor.
  - apply well_formed_cons in Hwf
      as [(Hlt & Hhi & Hlo & _ & ->) | (d & r1 & [=] & _)].
    constructor; [|constructor].
    destruct (surrogate_cases c) as [[? _] | [_ ?]]; [congruence|].
    destruct (low_surrogate_cases c) as [[? _] | [_ ?]]; [congruence|].
    unfold scalar. lia.
  - apply well_formed_cons in Hwf
      as [(Hlt & Hhi & Hlo & Hr & ->) | (d' & r1 & [= <- <-] & Hc & Hd & Hr & ->)].
    + constructor; [|by apply IHdr].
      destruct (surrogate_cases c) as [[? _] | [_ ?]]; [congruence|].
      destruct (low_surrogate_cases c) as [[? _] | [_ ?]]; [congruence|].
      unfold scalar. lia.
    + constructor; [|by apply IHr]. unfold scalar. lia.
Qed.

Lemma code_units_scalar_values s :
  well_formed s = true -> flat_map code_units (scalar_values s) = s.
Proof.
  induction s as [|c|c d r IHr IHdr] using list_ind2; intros Hwf.
  - done.
  - apply well_formed_cons in Hwf
      as [(Hlt & Hhi & Hlo & _ & ->) | (d & r1 & [=] & _)].
    cbn. unfold code_units. by rewrite (proj2 (N.ltb_lt _ _) Hlt).
  - apply well_formed_cons in Hwf
      as [(Hlt & Hhi & Hlo & Hr & ->) | (d' & r1 & [= <- <-] & Hc & Hd & Hr & ->)].
    + cbn [flat_map]. rewrite (IHdr Hr). unfold code_units.
      by rewrite (proj2 (N.ltb_lt _ _) Hlt).
    + cbn [flat_map]. rewrite (IHr Hr). unfold code_units.
      rewrite (proj2 (N.ltb_ge _ _)) by lia.
      cbn [app]. f_equal; [|f_equal]; divmod.
Qed.

(** *** The byte order mark *)

Lemma strip_bom_head b l : b <> 0xEF -> strip_bom (b :: l) = b :: l.
Proof.
  intros Hb. destruct l as [|b1 [|b2 l]]; [done..|].
  cbn [strip_bom]. by rewrite (proj2 (N.eqb_neq _ _) Hb).
Qed.

Lemma strip_bom_encode s :
  well_formed s = true -> starts_with_bom s = false ->
  strip_bom (TextEncoder_encode s) = TextEncoder_encode s.
Proof.
  unfold TextEncoder_encode. destruct s as [|c r]; [done|].
  intros Hwf Hbom. cbn [starts_with_bom] in Hbom.
  apply N.eqb_neq in Hbom.
  apply well_formed_cons in Hwf
    as [(Hlt & Hhi & Hlo & Hr & ->) | (d' & r1 & -> & Hc & Hd & Hr & ->)];
    cbn [flat_map]; unfold encode_code_point.
  - destruct (N.ltb_spec c 0x80); [apply strip_bom_head; lia|].
    destruct (N.ltb_spec c 0x800); [apply strip_bom_head; divmod|].
    rewrite (proj2 (N.ltb_lt _ _) Hlt). cbn [app strip_bom].
    destruct (N.eqb_spec (0xE0 + c / 4096) 0xEF); [|done].
    destruct (N.eqb_spec (0x80 + (c / 64) mod 64) 0xBB); [|done].
    destruct (N.eqb_spec (0x80 + c mod 64) 0xBF); [|done].
    exfalso. divmod.
  - rewrite (proj2 (N.ltb_ge _ 0x80)) by lia.
    rewrite (proj2 (N.ltb_ge _ 0x800)) by lia.
    rewrite (proj2 (N.ltb_ge _ 0x10000)) by lia.
    apply strip_bom_head. divmod.
Qed.

Lemma TextEncoder_encode_bytes s :
  well_formed s = true -> Forall (fun b => b < 256) (TextEncoder_encode s).
Proof.
  intros Hwf%scalar_values_scalar. unfold TextEncoder_encode.
  induction Hwf as [|cp cps Hcp _ IH]; [constructor|].
  cbn [flat_map]. apply Forall_app. split; [|done].
  by apply encode_code_point_bytes.
Qed.

(** Decoding the UTF-8 encoding of a well-formed string that does not
    start with U+FEFF gives the string back. *)
Lemma TextDecoder_TextEncoder s :
  well_formed s = true -> starts_with_bom s = false ->
  TextDecoder_decode (TextEncoder_encode s) = s.
Proof.
  intros Hwf Hbom. unfold TextDecoder_decode.
  rewrite strip_bom_encode by done. unfold TextEncoder_encode.
  rewrite decode_encode by by apply scalar_values_scalar.
  by apply code_units_scalar_values.
Qed.

End Utf8Props.

(** ** The GitHub wrapper *)

Module GitHubProps.
Import JS Base64 Utf8 GitHub Base64Props Utf8Props.
Local Open Scope N_scope.

Lemma map_mod_id m l :
  Forall (fun b => b < 256) l -> 256 <= m -> map (fun b => b mod m) l = l.
Proof.
  intros Hl Hm. induction Hl as [|b l Hb _ IH]; [done|].
  cbn [map]. rewrite IH. f_equal. apply N.mod_small. lia.
Qed.

Lemma filter_newlines_app x y :
  List.filter (fun c => negb (c =? 10)) (x ++ 10 :: y)
  = List.filter (fun c => negb (c =? 10)) (x ++ y).
Proof. by rewrite !List.filter_app. Qed.

Lemma filter_newlines_encode_bytes l :
  List.filter (fun c => negb (c =? 10)) (encode_bytes l) = encode_bytes l.
Proof.
  assert (forall i, negb (char_of_sextet i =? 10) = true) as Hch.
  { intros i. pose proof (char_of_sextet_alphabet i) as H. simpl in H.
    apply negb_true_iff, N.eqb_neq. lia. }
  induction l as [|a|a b|a b c r IH] using list_ind3;
    cbn [encode_bytes List.filter]; rewrite ?Hch; unfold PAD; simpl;
    rewrite ?IH; reflexivity.
Qed.

Lemma encodeBase64_well_formed s :
  well_formed s = true ->
  encodeBase64 s = Return (encode_bytes (TextEncoder_encode s)).
Proof.
  intros Hwf. unfold encodeBase64.
  pose proof (TextEncoder_encode_bytes s Hwf) as Hb.
  rewrite map_mod_id by (done || lia). by apply btoa_bytes.
Qed.

(** C9 (amended). For every well-formed string [s] (no surrogate outside
    a pair) that does not start with U+FEFF, [encodeBase64(s)] returns and
    [decodeBase64] gives [s] back from it, non-ASCII characters included;
    a newline anywhere in the base64 input does not change what
    [decodeBase64] returns. *)
Theorem decodeBase64_encodeBase64 s :
  well_formed s = true -> starts_with_bom s = false ->
  (exists b, encodeBase64 s = Return b /\ decodeBase64 b = Return s) /\
  (forall x y, decodeBase64 (x ++ 10 :: y) = decodeBase64 (x ++ y)).
Proof.
  intros Hwf Hbom. split.
  - exists (encode_bytes (TextEncoder_encode s)).
    split; [by apply encodeBase64_well_formed|].
    pose proof (TextEncoder_encode_bytes s Hwf) as Hb.
    unfold decodeBase64. rewrite filter_newlines_encode_bytes.
    rewrite atob_encode_bytes by done. cbn [bind].
    rewrite map_mod_id by (done || lia).
    by rewrite TextDecoder_TextEncoder.
  - intros x y. unfold decodeBase64. by rewrite filter_newlines_app.
Qed.

Lemma decodeBase64_encodeBase64_witness :
  (exists b, encodeBase64 [0xE9; 0x20AC; 0xD83D; 0xDE00] = Return b /\
             decodeBase64 b = Return [0xE9; 0x20AC; 0xD83D; 0xDE00]) /\
  (forall x y, decodeBase64 (x ++ 10 :: y) = decodeBase64 (x ++ y)).
Proof.
  apply (decodeBase64_encodeBase64 [0xE9; 0x20AC; 0xD83D; 0xDE00]).
  - reflexivity.
  - reflexivity.
Defined.

(** C9, as stated, fails on two kinds of strings: a surrogate outside a
    pair is encoded as U+FFFD, and a leading U+FEFF is taken for a byte
    order mark by the decoder and dropped. *)
Lemma decodeBase64_encodeBase64_not_identity :
  (b <- encodeBase64 [0xD800] ;; decodeBase64 b) = Return [0xFFFD] /\
  (b <- encodeBase64 [0xFEFF; 0x41] ;; decodeBase64 b) = Return [0x41].
Proof. split; vm_compute; reflexivity. Qed.

(** *** Errors of the store, by kind *)

Lemma starts_with_spec needle s :
  starts_with needle s = true <-> exists post, s = needle ++ post.
Proof.
  revert s. induction needle as [|x n IH]; intros s; cbn [starts_with].
  - split; [intros _; by exists s | done].
  - destruct s as [|y r].
    + split; [done | intros [post [=]]].
    + rewrite andb_true_iff, N.eqb_eq, IH. split.
      * intros [-> [post ->]]. by exists post.
      * intros [post [= -> ->]]. split; [done | by exists post].
Qed.

(** [includes] is the substring test. *)
Lemma includes_spec s needle :
  includes s needle = true <-> exists pre post, s = pre ++ needle ++ post.
Proof.
  induction s as [|y r IH]; cbn [includes]; rewrite orb_true_iff.
  - rewrite starts_with_spec. split.
    + intros [[post ->] | [=]]. by exists [], post.
    + intros ([|? pre] & post & H); [|done]. left. by exists post.
  - rewrite starts_with_spec, IH. split.
    + intros [[post ->] | (pre & post & ->)].
      * by exists [], post.
      * by exists (y :: pre), post.
    + intros ([|z pre] & post & H).
      * left. by exists post.
      * injection H as -> ->. right. by exists pre, post.
Qed.

Section Wrapper.

Variable fetch : Request -> result Response.
Variable getMessage : string -> list value -> jsstring.

Abbreviation _fetch := (_fetch fetch getMessage).
Abbreviation getFile := (getFile fetch getMessage).

(** The response's JSON body has a string message that contains
    "rate limit". *)
Definition mentions_rate_limit (r : Response) : Prop :=
  exists d pre post,
    json r = Some d /\
    get_prop d "message" = VStr (pre ++ lit "rate limit" ++ post).

(** The body is not JSON, or it is a JSON value other than [null] whose
    message is missing, falsy or a string. *)
Definition plain_body (r : Response) : Prop :=
  match json r with
  | None => True
  | Some d =>
      nullish d = false /\
      (truthy (get_prop d "message") = false \/
       exists m, get_prop d "message" = VStr m)
  end.

Lemma mentions_rate_limit_includes r d m :
  json r = Some d -> get_prop d "message" = VStr m ->
  includes m (lit "rate limit") = true <-> mentions_rate_limit r.
Proof.
  intros Hd Hm. rewrite includes_spec. unfold mentions_rate_limit. split.
  - intros (pre & post & ->). by exists d, pre, post.
  - intros (d' & pre & post & Hd' & Hm'). exists pre, post. congruence.
Qed.

Lemma get_prop_not_nullish d k v :
  get_prop d k = v -> v <> VUndefined -> nullish d = false.
Proof. destruct d; cbn; congruence. Qed.

(** C5 (amended). Whatever the request, the answer's status decides the
    error that [_fetch] raises: 401 an invalid-token error with
    [statusCode] 401; 403 a rate-limit error when the body's message is a
    string that mentions the rate limit; 403 an access-denied error when
    the body is not JSON, or is JSON other than [null] with a message
    that is missing, falsy or a string without that mention; 409 a
    conflict error.  Each is a [GitHubError] with a message key of its
    own.  Errors with different status codes differ; the two 403 errors
    carry the same status code and differ exactly when the message
    catalogue has different texts for their two keys. *)
Theorem fetch_errors_by_kind api url method body r :
  fetch {| url := url; method := method; body := body;
           headers := _headers api |} = Return r ->
  (status r = 401%Z ->
     _fetch api url method body
     = Throw (GitHubError (getMessage "api_invalidToken" []) 401)) /\
  (status r = 403%Z -> mentions_rate_limit r ->
     _fetch api url method body
     = Throw (GitHubError (getMessage "api_rateLimitExceeded" []) 403)) /\
  (status r = 403%Z -> plain_body r -> ~ mentions_rate_limit r ->
     _fetch api url method body
     = Throw (GitHubError (getMessage "api_accessDenied" []) 403)) /\
  (status r = 409%Z ->
     _fetch api url method body
     = Throw (GitHubError (getMessage "api_conflict" []) 409)) /\
  (forall m1 m2 (c1 c2 : Z), c1 <> c2 -> GitHubError m1 c1 <> GitHubError m2 c2) /\
  (GitHubError (getMessage "api_rateLimitExceeded" []) 403
   <> GitHubError (getMessage "api_accessDenied" []) 403
   <-> getMessage "api_rateLimitExceeded" [] <> getMessage "api_accessDenied" []).
Proof.
  intros Hfetch. unfold GitHub._fetch. rewrite Hfetch. cbn [bind].
  split_and!.
  - by intros ->.
  - intros -> Hrate.
    change (403 =? 401)%Z with false. change (403 =? 403)%Z with true.
    cbv iota.
    destruct Hrate as (d & pre & post & Hd & Hm). rewrite Hd.
    unfold read_prop.
    rewrite (get_prop_not_nullish d "message" _ Hm) by done.
    cbn [bind]. rewrite Hm.
    assert (truthy (VStr (pre ++ lit "rate limit" ++ post)) = true) as ->
      by by destruct pre.
    cbn [call_includes bind].
    assert (includes (pre ++ lit "rate limit" ++ post) (lit "rate limit")
            = true) as ->; [|done].
    apply includes_spec. by exists pre, post.
  - intros -> Hplain Hrate.
    change (403 =? 401)%Z with false. change (403 =? 403)%Z with true.
    cbv iota. unfold plain_body in Hplain.
    destruct (json r) as [d|] eqn:Hd; [|done].
    destruct Hplain as [Hnull Hmsg]. unfold read_prop. rewrite Hnull.
    cbn [bind]. destruct Hmsg as [-> | [m Hm]]; [done|]. rewrite Hm.
    destruct (truthy (VStr m)); [|done]. cbn [call_includes bind].
    destruct (includes m (lit "rate limit")) eqn:Hinc; [|done].
    exfalso. apply Hrate. by apply (mentions_rate_limit_includes r d m).
  - by intros ->.
  - congruence.
  - split; [congruence | intros Hne [=]; done].
Qed.

(** *** Reading a file *)

Lemma _fetch_passes api url method body r :
  _fetch api url method body = Return r ->
  fetch {| url := url; method := method; body := body;
           headers := _headers api |} = Return r /\
  status r <> 401%Z /\ status r <> 403%Z /\ status r <> 409%Z.
Proof.
  unfold GitHub._fetch.
  destruct (fetch _) as [r'|e]; [|done]. cbn [bind].
  destruct (Z.eqb_spec (status r') 401); [done|].
  destruct (Z.eqb_spec (status r') 403).
  { destruct (read_prop _ _) as [m|]; [|done]. cbn [bind].
    destruct (if truthy m then _ else _) as [[]|]; done. }
  destruct (Z.eqb_spec (status r') 409); [done|].
  by intros [= ->].
Qed.

Lemma _fetch_not_ok api url method body r :
  fetch {| url := url; method := method; body := body;
           headers := _headers api |} = Return r ->
  (exists e, _fetch api url method body = Throw e) \/
  _fetch api url method body = Return r.
Proof.
  intros Hfetch. unfold GitHub._fetch. rewrite Hfetch. cbn [bind].
  destruct (_ =? 401)%Z; [left; eauto|].
  destruct (_ =? 403)%Z.
  { left. destruct (read_prop _ _) as [m|]; [|eauto]. cbn [bind].
    destruct (if truthy m then _ else _) as [[]|]; eauto. }
  destruct (_ =? 409)%Z; [left; eauto | by right].
Qed.

(** C6. [getFile(path)] returns [null] exactly when the store answers the
    request for the file with 404.  With an ok status and a JSON body
    whose content decodes, it returns the decoded content with the body's
    [sha].  On every other status that is not ok it throws (the reading
    error with that status, unless [_fetch] has thrown for 401, 403 or
    409), so that no content is ever returned for a missing file. *)
Theorem getFile_null_iff_404 api path :
  let request := {| url := contents_url api path; method := None;
                    body := None; headers := _headers api |} in
  (getFile api path = Return None <->
     exists r, fetch request = Return r /\ status r = 404%Z) /\
  (forall r d base64 text,
     fetch request = Return r -> ok r = true ->
     json r = Some d -> get_prop d "content" = VStr base64 ->
     decodeBase64 base64 = Return text ->
     getFile api path
     = Return (Some {| file_content := text;
                       file_sha := get_prop d "sha" |})) /\
  (forall r,
     fetch request = Return r -> ok r = false -> status r <> 404%Z ->
     (exists e, getFile api path = Throw e) /\
     (status r <> 401%Z -> status r <> 403%Z -> status r <> 409%Z ->
      getFile api path
      = Throw (GitHubError
                 (getMessage "api_errorReading" [VNum (status r)])
                 (status r)))) /\
  (forall r f,
     fetch request = Return r -> status r = 404%Z ->
     getFile api path <> Return (Some f)).
Proof.
  intros request.
  assert (forall r, fetch request = Return r -> status r = 404%Z ->
                    getFile api path = Return None) as H404.
  { intros r Hr Hs. unfold GitHub.getFile, GitHub._fetch.
    fold request. rewrite Hr. cbn [bind]. rewrite Hs. cbn.
    by rewrite Hs. }
  split; [|split; [|split]].
  - split; [|intros (r & Hr & Hs); by eapply H404].
    unfold GitHub.getFile.
    destruct (_fetch api (contents_url api path) None None) as [r|e] eqn:Hf;
      [|done].
    apply _fetch_passes in Hf as [Hr _]. cbn [bind].
    destruct (Z.eqb_spec (status r) 404) as [Hs|Hs]; [by exists r|].
    destruct (ok r); [|done]. cbn [negb].
    destruct (response_json r) as [d|]; [|done]. cbn [bind].
    destruct (read_prop d "content") as [c|]; [|done]. cbn [bind].
    destruct c; try done. by destruct (decodeBase64 _).
  - intros r d base64 text Hr Hok Hd Hc Hdec.
    unfold ok in Hok. apply andb_true_iff in Hok as [Hlo Hhi].
    unfold GitHub.getFile, GitHub._fetch. fold request. rewrite Hr.
    cbn [bind].
    rewrite (proj2 (Z.eqb_neq _ 401)) by lia.
    rewrite (proj2 (Z.eqb_neq _ 403)) by lia.
    rewrite (proj2 (Z.eqb_neq _ 409)) by lia. cbn [bind].
    rewrite (proj2 (Z.eqb_neq _ 404)) by lia.
    unfold ok. rewrite Hlo, Hhi. cbn [andb negb].
    unfold response_json. rewrite Hd. cbn [bind]. unfold read_prop.
    rewrite (get_prop_not_nullish d "content" _ Hc) by done.
    cbn [bind]. rewrite Hc, Hdec. done.
  - intros r Hr Hok Hs. unfold GitHub.getFile. split.
    + destruct (_fetch_not_ok api _ None None r Hr) as [[e He] | Hret].
      * rewrite He. by exists e.
      * rewrite Hret. cbn [bind].
        rewrite (proj2 (Z.eqb_neq _ 404)) by done. rewrite Hok. cbn. eauto.
    + intros H401 H403 H409. unfold GitHub._fetch. fold request.
      rewrite Hr. cbn [bind].
      rewrite (proj2 (Z.eqb_neq _ 401)) by done.
      rewrite (proj2 (Z.eqb_neq _ 403)) by done.
      rewrite (proj2 (Z.eqb_neq _ 409)) by done. cbn [bind].
      rewrite (proj2 (Z.eqb_neq _ 404)) by done. by rewrite Hok.
  - intros r f Hr Hs. by rewrite (H404 r Hr Hs).
Qed.

End Wrapper.

Lemma fetch_errors_by_kind_witness :
  _fetch (fun _ => Return rate_limited) sample_getMessage sample_api
    (lit "https://api.github.com/user") None None
  = Throw (GitHubError (lit "api_rateLimitExceeded") 403).
Proof.
  apply (fetch_errors_by_kind (fun _ => Return rate_limited) sample_getMessage
           sample_api (lit "https://api.github.com/user") None None
           rate_limited).
  - reflexivity.
  - reflexivity.
  - exists (VObj [("message", VStr (lit "API rate limit exceeded"))]),
      (lit "API "), (lit " exceeded").
    split; reflexivity.
Defined.

(** C5, as stated, fails: a 403 whose body is the JSON text [null] does
    not mention the rate limit, yet [_fetch] raises no access-denied
    error, nor any [GitHubError]: reading [data.message] throws a
    [TypeError].  And under a message catalogue that has the same text
    for both keys (the empty text of a catalogue that lacks them, say),
    a rate-limited 403 and a 403 without a body raise the same error. *)
Lemma forbidden_null_body_is_no_GitHubError :
  status forbidden_null = 403%Z /\
  ~ mentions_rate_limit forbidden_null /\
  _fetch (fun _ => Return forbidden_null) sample_getMessage sample_api
    (lit "https://api.github.com/user") None None
  = Throw TypeError /\
  _fetch (fun _ => Return forbidden_null) sample_getMessage sample_api
    (lit "https://api.github.com/user") None None
  <> Throw (GitHubError (sample_getMessage "api_accessDenied" []) 403) /\
  _fetch (fun _ => Return rate_limited) (fun _ _ => []) sample_api
    (lit "https://api.github.com/user") None None
  = _fetch (fun _ => Return {| status := 403; json := None |})
      (fun _ _ => []) sample_api
      (lit "https://api.github.com/user") None None.
Proof.
  split_and!; [reflexivity | | reflexivity | discriminate | reflexivity].
  intros (d & pre & post & [= <-] & Hm). discriminate Hm.
Qed.

Lemma getFile_null_iff_404_witness :
  getFile (fun _ => Return file_found) sample_getMessage sample_api
    (lit "bookmarks/a.json")
  = Return (Some {| file_content := lit "hi"; file_sha := VStr (lit "abc") |}).
Proof.
  apply (proj1 (proj2 (getFile_null_iff_404 (fun _ => Return file_found)
                         sample_getMessage sample_api
                         (lit "bookmarks/a.json")))
           file_found
           (VObj [("content", VStr (lit "aG" ++ [10] ++ lit "k="));
                  ("sha", VStr (lit "abc"))])
           (lit "aG" ++ [10] ++ lit "k=")).
  - reflexivity.
  - reflexivity.
  - reflexivity.
  - reflexivity.
  - vm_compute. reflexivity.
Defined.

End GitHubProps.

(** ** [JSON.stringify] *)

Module JsonProps.
Import JS Json Utf8 Utf8Props.
Local Open Scope N_scope.

(** *** Quoted strings can be read back *)

Definition unhex (c : code_unit) : option N :=
  if (48 <=? c) && (c <=? 57) then Some (c - 48)
  else if (97 <=? c) && (c <=? 102) then Some (c - 87)
  else None.

(** The character a short escape stands for. *)
Definition unescape (e : code_unit) : code_unit :=
  if e =? 98 then 8
  else if e =? 116 then 9
  else if e =? 110 then 10
  else if e =? 102 then 12
  else if e =? 114 then 13
  else e.

(** Read the characters of a quoted string up to the closing quote. *)
Fixpoint unquote_chars (t : jsstring) : option (jsstring * jsstring) :=
  match t with
  | [] => None
  | c :: r =>
      if c =? 34 then Some ([], r)
      else if c =? 92 then
        match r with
        | [] => None
        | e :: r1 =>
            if e =? 117 then
              match r1 with
              | h1 :: h2 :: h3 :: h4 :: r2 =>
                  match unhex h1, unhex h2, unhex h3, unhex h4,
                        unquote_chars r2 with
                  | Some d1, Some d2, Some d3, Some d4, Some (s, rest) =>
                      Some ((d1 * 4096 + d2 * 256 + d3 * 16 + d4) :: s, rest)
                  | _, _, _, _, _ => None
                  end
              | _ => None
              end
            else
              match unquote_chars r1 with
              | Some (s, rest) => Some (unescape e :: s, rest)
              | None => None
              end
        end
      else
        match unquote_chars r with
        | Some (s, rest) => Some (c :: s, rest)
        | None => None
        end
  end.

Lemma unhex_hex_digit d : d < 16 -> unhex (hex_digit d) = Some d.
Proof.
  intros Hd. unfold unhex, hex_digit.
  destruct (N.ltb_spec d 10).
  - rewrite (proj2 (N.leb_le 48 (48 + d))) by lia.
    rewrite (proj2 (N.leb_le (48 + d) 57)) by lia. cbn. f_equal. lia.
  - rewrite (proj2 (N.leb_gt (87 + d) 57)) by lia.
    rewrite andb_false_r.
    rewrite (proj2 (N.leb_le 97 (87 + d))) by lia.
    rewrite (proj2 (N.leb_le (87 + d) 102)) by lia. cbn. f_equal. lia.
Qed.

Lemma hex_digits_value c :
  c / 4096 * 4096 + (c / 256) mod 16 * 256 + (c / 16) mod 16 * 16 + c mod 16
  = c.
Proof.
  replace (c / 4096) with (c / 16 / 16 / 16)
    by (rewrite !N.Div0.div_div; reflexivity).
  replace (c / 256) with (c / 16 / 16)
    by (rewrite !N.Div0.div_div; reflexivity).
  pose proof (N.div_mod c 16) as H1.
  pose proof (N.div_mod (c / 16) 16) as H2.
  pose proof (N.div_mod (c / 16 / 16) 16) as H3.
  lia.
Qed.

Lemma unquote_UnicodeEscape c t s rest :
  c < 65536 -> unquote_chars t = Some (s, rest) ->
  unquote_chars (UnicodeEscape c ++ t) = Some (c :: s, rest).
Proof.
  intros Hc Ht. unfold UnicodeEscape. cbn [app unquote_chars].
  change (92 =? 34) with false. change (92 =? 92) with true.
  change (117 =? 117) with true. cbv iota.
  rewrite !unhex_hex_digit by divmod. rewrite Ht.
  by rewrite hex_digits_value.
Qed.

Lemma unquote_literal c t s rest :
  c <> 34 -> c <> 92 -> unquote_chars t = Some (s, rest) ->
  unquote_chars (c :: t) = Some (c :: s, rest).
Proof.
  intros H1 H2 Ht. cbn [unquote_chars].
  rewrite (proj2 (N.eqb_neq _ _) H1), (proj2 (N.eqb_neq _ _) H2).
  by rewrite Ht.
Qed.

Lemma unquote_short e t s rest :
  e <> 117 -> unquote_chars t = Some (s, rest) ->
  unquote_chars (92 :: e :: t) = Some (unescape e :: s, rest).
Proof.
  intros He Ht. cbn [unquote_chars].
  change (92 =? 34) with false. change (92 =? 92) with true. cbv iota.
  by rewrite (proj2 (N.eqb_neq _ _) He), Ht.
Qed.

Lemma quote_chars_cons c r :
  quote_chars (c :: r) =
  if c =? 8 then 92 :: 98 :: quote_chars r
  else if c =? 9 then 92 :: 116 :: quote_chars r
  else if c =? 10 then 92 :: 110 :: quote_chars r
  else if c =? 12 then 92 :: 102 :: quote_chars r
  else if c =? 13 then 92 :: 114 :: quote_chars r
  else if c =? 34 then 92 :: 34 :: quote_chars r
  else if c =? 92 then 92 :: 92 :: quote_chars r
  else if c <? 32 then UnicodeEscape c ++ quote_chars r
  else if is_high_surrogate c then
    match r with
    | [] => UnicodeEscape c
    | d :: r1 =>
        if is_low_surrogate d then c :: d :: quote_chars r1
        else UnicodeEscape c ++ quote_chars r
    end
  else if is_low_surrogate c then UnicodeEscape c ++ quote_chars r
  else c :: quote_chars r.
Proof. reflexivity. Qed.

(** One character of the string, whatever follows it. *)
Lemma unquote_quote_step c r rest :
  (forall rest', unquote_chars (quote_chars r ++ 34 :: rest')
                 = Some (r, rest')) ->
  (forall d r1, r = d :: r1 ->
     unquote_chars (quote_chars r1 ++ 34 :: rest) = Some (r1, rest)) ->
  unquote_chars (quote_chars (c :: r) ++ 34 :: rest) = Some (c :: r, rest).
Proof.
  intros IH IH1. rewrite quote_chars_cons.
  destruct (N.eqb_spec c 8) as [->|?]; [by apply (unquote_short 98)|].
  destruct (N.eqb_spec c 9) as [->|?]; [by apply (unquote_short 116)|].
  destruct (N.eqb_spec c 10) as [->|?]; [by apply (unquote_short 110)|].
  destruct (N.eqb_spec c 12) as [->|?]; [by apply (unquote_short 102)|].
  destruct (N.eqb_spec c 13) as [->|?]; [by apply (unquote_short 114)|].
  destruct (N.eqb_spec c 34) as [->|?]; [by apply (unquote_short 34)|].
  destruct (N.eqb_spec c 92) as [->|?]; [by apply (unquote_short 92)|].
  destruct (N.ltb_spec c 32).
  { rewrite <- app_assoc. apply unquote_UnicodeEscape; [lia | done]. }
  destruct (surrogate_cases c) as [[-> ?] | [-> ?]].
  { destruct r as [|d r1].
    - apply unquote_UnicodeEscape; [lia | done].
    - destruct (low_surrogate_cases d) as [[-> ?] | [-> ?]].
      + cbn [app]. apply unquote_literal; [lia..|].
        apply unquote_literal; [lia..|]. by eapply IH1.
      + rewrite <- app_assoc. apply unquote_UnicodeEscape; [lia | done]. }
  destruct (low_surrogate_cases c) as [[-> ?] | [-> ?]].
  { rewrite <- app_assoc. apply unquote_UnicodeEscape; [lia | done]. }
  cbn [app]. by apply unquote_literal.
Qed.

Lemma unquote_quote_chars s rest :
  unquote_chars (quote_chars s ++ 34 :: rest) = Some (s, rest).
Proof.
  revert rest.
  induction s as [|c|c d r IHr IHdr] using list_ind2; intros rest.
  - reflexivity.
  - apply unquote_quote_step; [done | done].
  - apply unquote_quote_step; [done|]. by intros ? ? [= <- <-].
Qed.

(** A quoted string is delimited: what follows it is determined. *)
Lemma QuoteJSONString_app s r :
  QuoteJSONString s ++ r = 34 :: quote_chars s ++ 34 :: r.
Proof. unfold QuoteJSONString. cbn [app]. by rewrite <- app_assoc. Qed.

Lemma QuoteJSONString_inj s1 s2 r1 r2 :
  QuoteJSONString s1 ++ r1 = QuoteJSONString s2 ++ r2 -> s1 = s2 /\ r1 = r2.
Proof.
  rewrite !QuoteJSONString_app. intros H. injection H as H.
  pose proof (unquote_quote_chars s1 r1) as H1.
  pose proof (unquote_quote_chars s2 r2) as H2.
  rewrite H, H2 in H1. by injection H1.
Qed.

(** *** Numbers *)

Lemma lit_inj s1 s2 : lit s1 = lit s2 -> s1 = s2.
Proof.
  unfold lit. intros H.
  rewrite <- (string_of_list_ascii_of_string s1),
          <- (string_of_list_ascii_of_string s2).
  f_equal. revert H.
  generalize (list_ascii_of_string s1) (list_ascii_of_string s2).
  induction l as [|a l IH]; intros [|b l']; cbn [map]; try done.
  intros [= Hab Hl]. f_equal; [|by apply IH].
  rewrite <- (ascii_N_embedding a), <- (ascii_N_embedding b). by rewrite Hab.
Qed.

Definition is_digit_or_minus (c : code_unit) : Prop :=
  48 <= c <= 57 \/ c = 45.

Lemma string_of_uint_digits u :
  Forall is_digit_or_minus (lit (NilEmpty.string_of_uint u)).
Proof.
  unfold is_digit_or_minus.
  induction u; cbn; constructor; (lia || done).
Qed.

Lemma number_to_string_chars n :
  Forall is_digit_or_minus (number_to_string n).
Proof.
  unfold number_to_string.
  assert (forall u, Forall is_digit_or_minus (lit (NilZero.string_of_uint u)))
    as Hu.
  { intros [| | | | | | | | | |]; try apply string_of_uint_digits.
    unfold is_digit_or_minus. cbn. constructor; [lia | done]. }
  destruct (Z.to_int n) as [u|u]; cbn [NilZero.string_of_int]; [apply Hu|].
  change (lit (String "-" (NilZero.string_of_uint u)))
    with (45 :: lit (NilZero.string_of_uint u)).
  constructor; [by right | apply Hu].
Qed.

Lemma number_to_string_inj n1 n2 :
  number_to_string n1 = number_to_string n2 -> n1 = n2.
Proof.
  intros H%lit_inj. apply DecimalZ.to_int_inj.
  assert (forall n, NilZero.int_of_string
                      (NilZero.string_of_int (Z.to_int n))
                    = Some (Z.to_int n)) as Hisi.
  { intros n. apply NilZero.isi; destruct n; cbn; try done;
      intros [= Hp]; by apply DecimalPos.Unsigned.to_uint_nonnil in Hp. }
  pose proof (Hisi n1) as H1. rewrite H, Hisi in H1. by injection H1.
Qed.

(** The first occurrence of a separator splits a text in one way only. *)
Lemma split_at_separator (c : code_unit) l1 l2 r1 r2 :
  Forall (fun x => x <> c) l1 -> Forall (fun x => x <> c) l2 ->
  l1 ++ c :: r1 = l2 ++ c :: r2 -> l1 = l2 /\ r1 = r2.
Proof.
  intros H1. revert l2. induction H1 as [|x l1 Hx _ IH]; intros l2 H2 Heq.
  - destruct H2 as [|y l2 Hy _]; [by injection Heq|].
    cbn in Heq. injection Heq as <- _. done.
  - destruct H2 as [|y l2 Hy H2].
    + cbn in Heq. injection Heq as -> _. done.
    + cbn in Heq. injection Heq as <- Heq.
      destruct (IH l2 H2 Heq) as [-> ->]. done.
Qed.

(** A number followed by a comma is delimited. *)
Lemma number_to_string_comma_inj n1 n2 r1 r2 :
  number_to_string n1 ++ 44 :: r1 = number_to_string n2 ++ 44 :: r2 ->
  n1 = n2 /\ r1 = r2.
Proof.
  intros H.
  assert (forall n, Forall (fun x => x <> 44) (number_to_string n)) as Hn.
  { intros n. eapply Forall_impl; [apply number_to_string_chars|].
    unfold is_digit_or_minus. intros x Hx. cbv beta in *. lia. }
  apply split_at_separator in H as [H ->]; [|apply Hn..].
  by apply number_to_string_inj in H.
Qed.

End JsonProps.

(** ** The bookmark serializer *)

Module SerializerProps.
Import JS Json Serializer JsonProps.
Local Open Scope N_scope.

(** What an array element contributes to the text of the array. *)
Definition element (x : value) : jsstring :=
  match stringify x with
  | Some t => t
  | None => lit "null"
  end.

Lemma stringify_VArr items :
  stringify (VArr items)
  = Some (91 :: join [44] (map element items) ++ [93]).
Proof. reflexivity. Qed.

(** The two shapes of a serialized node. *)
Definition bookmark_value (t : jsstring) (d : option Z) (u : jsstring) : value :=
  VObj [("title", VStr t); ("dateAdded", optional_number d);
        ("type", VStr (lit "bookmark")); ("url", VStr u)].

Definition folder_value (t : jsstring) (d : option Z) (items : list value)
  : value :=
  VObj [("title", VStr t); ("dateAdded", optional_number d);
        ("type", VStr (lit "folder")); ("children", VArr items)].

Definition child_nodes (n : BookmarkTreeNode) : list BookmarkTreeNode :=
  match children n with
  | Some cs => cs
  | None => []
  end.

Lemma serializeNode_cases n :
  (exists u, serializeNode n = bookmark_value (title n) (dateAdded n) u) \/
  serializeNode n
  = folder_value (title n) (dateAdded n) (map serializeNode (child_nodes n)).
Proof.
  destruct n as [t d u cs]. unfold child_nodes. cbn [children title dateAdded].
  destruct u as [[|c u]|].
  - right. cbn. by destruct cs.
  - left. by exists (c :: u).
  - right. cbn. by destruct cs.
Qed.

(** The text of a serialized node, followed by [r]. *)
Definition open_title : jsstring :=
  123 :: QuoteJSONString (lit "title") ++ [58].
Definition date_key : jsstring :=
  44 :: QuoteJSONString (lit "dateAdded") ++ [58].
Definition type_key : jsstring :=
  QuoteJSONString (lit "type") ++ [58].
Definition kind_bookmark : jsstring :=
  QuoteJSONString (lit "bookmark") ++ [44]
  ++ QuoteJSONString (lit "url") ++ [58].
Definition kind_folder : jsstring :=
  QuoteJSONString (lit "folder") ++ [44]
  ++ QuoteJSONString (lit "children") ++ [58].

Definition date_text (d : option Z) (k : jsstring) : jsstring :=
  match d with
  | Some x => date_key ++ number_to_string x ++ k
  | None => k
  end.

Fixpoint tail_text (items : list value) (r : jsstring) : jsstring :=
  match items with
  | [] => 93 :: r
  | x :: l => 44 :: element x ++ tail_text l r
  end.

Definition items_text (items : list value) (r : jsstring) : jsstring :=
  match items with
  | [] => 93 :: r
  | x :: l => element x ++ tail_text l r
  end.

Lemma join_items items r :
  join [44] (map element items) ++ 93 :: r = items_text items r.
Proof.
  destruct items as [|x l]; [done|]. cbn [items_text].
  revert x. induction l as [|y l IH]; intros x.
  - done.
  - cbn [map join tail_text]. cbn [map join] in IH.
    rewrite <- !app_assoc. cbn [app]. by rewrite IH.
Qed.

(** The members of an object, as [stringify] prints them. *)
Fixpoint members (fs : list (string * value)) : list jsstring :=
  match fs with
  | [] => []
  | (k, x) :: r =>
      match stringify x with
      | Some t => (QuoteJSONString (lit k) ++ lit ":" ++ t) :: members r
      | None => members r
      end
  end.

Lemma stringify_VObj fields :
  stringify (VObj fields)
  = Some (123 :: join [44] (members fields) ++ [125]).
Proof. reflexivity. Qed.

#[local] Arguments QuoteJSONString : simpl never.
#[local] Arguments number_to_string : simpl never.
#[local] Arguments element : simpl never.

Ltac right_nested :=
  repeat first [rewrite <- app_assoc | progress cbn [app]].

Lemma element_bookmark t d u r :
  element (bookmark_value t d u) ++ r
  = open_title ++ QuoteJSONString t
    ++ date_text d
         (44 :: type_key ++ kind_bookmark ++ QuoteJSONString u ++ 125 :: r).
Proof.
  unfold element, bookmark_value. rewrite stringify_VObj.
  unfold open_title, date_key, type_key, kind_bookmark.
  destruct d as [x|]; cbn [members optional_number stringify join date_text];
    unfold date_key; change (lit ":") with [58]; right_nested; reflexivity.
Qed.

Lemma element_folder t d items r :
  element (folder_value t d items) ++ r
  = open_title ++ QuoteJSONString t
    ++ date_text d
         (44 :: type_key ++ kind_folder ++ 91 :: items_text items (125 :: r)).
Proof.
  unfold element, folder_value. rewrite stringify_VObj.
  unfold open_title, date_key, type_key, kind_folder.
  destruct d as [x|];
    cbn [members optional_number join date_text];
    rewrite stringify_VArr;
    cbn [members optional_number stringify join date_text];
    unfold date_key; change (lit ":") with [58]; right_nested;
    rewrite join_items; reflexivity.
Qed.


(** *** The text determines the serialized node *)

Lemma node_ind' (P : BookmarkTreeNode -> Prop) :
  (forall n, Forall P (child_nodes n) -> P n) -> forall n, P n.
Proof.
  intros H. fix IH 1. intros n. apply H.
  destruct n as [t d u [cs|]]; unfold child_nodes; cbn [children];
    [|constructor].
  revert cs. fix IHcs 1. intros [|c cs]; constructor; [apply IH | apply IHcs].
Qed.

Lemma cons_eq_inv {A} (x : A) l1 l2 : x :: l1 = x :: l2 -> l1 = l2.
Proof. by intros [= ->]. Qed.

Lemma literal_keys_differ k1 k2 r1 r2 :
  k1 <> k2 ->
  QuoteJSONString (lit k1) ++ r1 <> QuoteJSONString (lit k2) ++ r2.
Proof. intros Hk [H%lit_inj _]%QuoteJSONString_inj. done. Qed.

Lemma date_text_inj d1 d2 k1 k2 :
  date_text d1 (44 :: type_key ++ k1) = date_text d2 (44 :: type_key ++ k2) ->
  d1 = d2 /\ k1 = k2.
Proof.
  unfold date_text, date_key, type_key.
  destruct d1 as [x1|], d2 as [x2|]; right_nested; intros H.
  - apply cons_eq_inv in H. apply QuoteJSONString_inj in H as [_ H].
    apply cons_eq_inv in H.
    apply number_to_string_comma_inj in H as [-> H].
    apply QuoteJSONString_inj in H as [_ H]. by apply cons_eq_inv in H as ->.
  - apply cons_eq_inv in H. by apply literal_keys_differ in H.
  - apply cons_eq_inv in H. by apply literal_keys_differ in H.
  - apply cons_eq_inv in H. apply QuoteJSONString_inj in H as [_ H].
    by apply cons_eq_inv in H as ->.
Qed.

Lemma element_serializeNode_head n :
  exists t, element (serializeNode n) = 123 :: t.
Proof.
  destruct (serializeNode_cases n) as [[u ->] | ->];
    unfold element, bookmark_value, folder_value;
    rewrite stringify_VObj; eauto.
Qed.

Definition delimited (n1 : BookmarkTreeNode) : Prop :=
  forall n2 r1 r2,
    element (serializeNode n1) ++ r1 = element (serializeNode n2) ++ r2 ->
    serializeNode n1 = serializeNode n2 /\ r1 = r2.

Lemma tail_text_inj l1 l2 k1 k2 :
  Forall delimited l1 ->
  tail_text (map serializeNode l1) k1 = tail_text (map serializeNode l2) k2 ->
  map serializeNode l1 = map serializeNode l2 /\ k1 = k2.
Proof.
  intros Hl1. revert l2.
  induction Hl1 as [|n1 l1 Hn1 _ IH]; intros [|n2 l2]; cbn [map tail_text];
    intros H; try discriminate H.
  - by apply cons_eq_inv in H as ->.
  - apply cons_eq_inv in H. apply Hn1 in H as [-> H].
    apply IH in H as [-> ->]. done.
Qed.

Lemma items_text_inj l1 l2 k1 k2 :
  Forall delimited l1 ->
  items_text (map serializeNode l1) k1 = items_text (map serializeNode l2) k2 ->
  map serializeNode l1 = map serializeNode l2 /\ k1 = k2.
Proof.
  intros Hl1. destruct Hl1 as [|n1 l1 Hn1 Hl1]; destruct l2 as [|n2 l2];
    cbn [map items_text]; intros H.
  - by apply cons_eq_inv in H as ->.
  - destruct (element_serializeNode_head n2) as [t Ht].
    rewrite Ht in H. discriminate H.
  - destruct (element_serializeNode_head n1) as [t Ht].
    rewrite Ht in H. discriminate H.
  - apply Hn1 in H as [-> H].
    apply tail_text_inj in H as [-> ->]; done.
Qed.

Lemma serializeNode_delimited n : delimited n.
Proof.
  induction n as [n1 IH] using node_ind'. intros n2 r1 r2.
  destruct (serializeNode_cases n1) as [[u1 E1] | E1];
    destruct (serializeNode_cases n2) as [[u2 E2] | E2];
    rewrite E1, E2, ?element_bookmark, ?element_folder;
    intros H; apply app_inv_head in H;
    apply QuoteJSONString_inj in H as [Ht H];
    apply date_text_inj in H as [Hd H]; unfold kind_bookmark, kind_folder in H;
    revert H; right_nested; intros H.
  - apply QuoteJSONString_inj in H as [_ H]. apply cons_eq_inv in H.
    apply QuoteJSONString_inj in H as [_ H]. apply cons_eq_inv in H.
    apply QuoteJSONString_inj in H as [-> H]. apply cons_eq_inv in H as ->.
    by rewrite Ht, Hd.
  - by apply literal_keys_differ in H.
  - by apply literal_keys_differ in H.
  - apply QuoteJSONString_inj in H as [_ H]. apply cons_eq_inv in H.
    apply QuoteJSONString_inj in H as [_ H]. apply cons_eq_inv in H.
    apply cons_eq_inv in H.
    apply items_text_inj in H as [-> H]; [|done]. apply cons_eq_inv in H as ->.
    by rewrite Ht, Hd.
Qed.

Lemma stringify_nodes_inj l1 l2 :
  stringify (VArr (map serializeNode l1))
  = stringify (VArr (map serializeNode l2)) ->
  map serializeNode l1 = map serializeNode l2.
Proof.
  rewrite !stringify_VArr. intros [= H].
  change [93] with (93 :: @nil code_unit) in H. rewrite !join_items in H.
  apply items_text_inj in H as [H _]; [done|].
  apply Forall_forall. intros n _. apply serializeNode_delimited.
Qed.


(** *** Comparing serialized bookmark data *)

Lemma bookmarks_serializeToJson now tree dev :
  get_prop (serializeToJson now tree dev) "bookmarks"
  = VArr (map serializeNode (rootChildren tree)).
Proof. reflexivity. Qed.

(** C1. For serialized bookmark data [a] and [b], whatever their
    [exportedAt] and [deviceId], [bookmarksEqual(a, b)] is true exactly
    when the two [bookmarks] fields are the same value; in particular it
    is true for two serializations of the same bookmarks taken at
    different times or on different devices. *)
Theorem bookmarksEqual_iff_same_bookmarks now1 now2 tree1 tree2 dev1 dev2 :
  let a := serializeToJson now1 tree1 dev1 in
  let b := serializeToJson now2 tree2 dev2 in
  (bookmarksEqual a b = true
   <-> get_prop a "bookmarks" = get_prop b "bookmarks") /\
  (rootChildren tree1 = rootChildren tree2 -> bookmarksEqual a b = true).
Proof.
  intros a b.
  assert (bookmarksEqual a b = true
          <-> get_prop a "bookmarks" = get_prop b "bookmarks") as Hiff.
  { unfold bookmarksEqual, a, b. rewrite !bookmarks_serializeToJson.
    change (falsy (serializeToJson now1 tree1 dev1)) with false.
    change (falsy (serializeToJson now2 tree2 dev2)) with false.
    cbn [orb]. unfold strict_eq_text. rewrite bool_decide_eq_true.
    split; [|by intros ->].
    intros H%stringify_nodes_inj. by rewrite H. }
  split; [exact Hiff|].
  intros Htree. apply Hiff. unfold a, b.
  by rewrite !bookmarks_serializeToJson, Htree.
Qed.

Lemma bookmarksEqual_iff_same_bookmarks_witness :
  bookmarksEqual
    (serializeToJson (lit "2024-01-01T00:00:00.000Z") sample_tree (lit "dev-a"))
    (serializeToJson (lit "2024-06-30T12:00:00.000Z") sample_tree (lit "dev-b"))
  = true.
Proof.
  apply (bookmarksEqual_iff_same_bookmarks
           (lit "2024-01-01T00:00:00.000Z") (lit "2024-06-30T12:00:00.000Z")
           sample_tree sample_tree (lit "dev-a") (lit "dev-b")).
  reflexivity.
Defined.

(** Missing data never compares equal, not even to itself. *)
Example bookmarksEqual_null : bookmarksEqual VNull VNull = false.
Proof. reflexivity. Qed.

(** Different bookmarks are told apart. *)
Example bookmarksEqual_renamed :
  bookmarksEqual
    (serializeToJson (lit "t") sample_tree (lit "dev"))
    (serializeToJson (lit "t") sample_tree_renamed (lit "dev"))
  = false.
Proof. vm_compute. reflexivity. Qed.

(** *** Deserialization *)

Lemma strict_eq_num_true v n : strict_eq_num v n = true <-> v = VNum n.
Proof.
  destruct v; cbn; try (split; [discriminate | by intros [=]]).
  rewrite Z.eqb_eq. split; [by intros -> | by intros [= ->]].
Qed.

(** C10 (amended). [deserializeFromJson(data)] throws exactly when [data]
    is falsy, [data.bookmarks] is falsy, or [data.version] is not the
    number 1; otherwise it returns [data.bookmarks] unchanged.  For every
    bookmark tree, device id and time of serialization,
    [deserializeFromJson(serializeToJson(tree, deviceId))] returns the
    serialized children of the tree's root. *)
Theorem deserializeFromJson_throws_iff data :
  (deserializeFromJson data = Throw invalid_format <->
     truthy data = false \/
     truthy (get_prop data "bookmarks") = false \/
     get_prop data "version" <> VNum 1) /\
  (deserializeFromJson data <> Throw invalid_format ->
     deserializeFromJson data = Return (get_prop data "bookmarks")) /\
  (forall now tree dev,
     deserializeFromJson (serializeToJson now tree dev)
     = Return (VArr (map serializeNode (rootChildren tree)))).
Proof.
  unfold deserializeFromJson, falsy.
  pose proof (strict_eq_num_true (get_prop data "version") 1) as Hv.
  destruct (truthy data), (truthy (get_prop data "bookmarks")),
    (strict_eq_num (get_prop data "version") 1); cbn [negb orb];
    repeat split; try done; auto.
  - intros [? | [? | Hne]]; try done. destruct Hne. by apply Hv.
  - intros _. right. right. intros H. apply Hv in H. done.
Qed.

Lemma deserializeFromJson_throws_iff_witness :
  deserializeFromJson (VObj [("version", VNum 2); ("bookmarks", VArr [])])
  = Throw invalid_format.
Proof.
  apply (deserializeFromJson_throws_iff
           (VObj [("version", VNum 2); ("bookmarks", VArr [])])).
  right. right. discriminate.
Defined.

(** C10, as stated, fails: data whose [bookmarks] property is present but
    falsy is rejected, although [data] and [data.bookmarks] are not
    absent and [data.version] is 1. *)
Lemma deserializeFromJson_rejects_falsy_bookmarks :
  let data := VObj [("version", VNum 1); ("bookmarks", VBool false)] in
  nullish data = false /\
  nullish (get_prop data "bookmarks") = false /\
  get_prop data "version" = VNum 1 /\
  deserializeFromJson data = Throw invalid_format.
Proof. repeat split. Qed.

End SerializerProps.

(** ** The base64 codec of the wrapper *)

Module CodecProps.
Import JS Base64 Utf8 GitHub Base64Props Utf8Props GitHubProps.
Local Open Scope N_scope.

(** *** Strings with unpaired surrogates *)

(** Every code unit has sixteen bits. *)
Definition sixteen_bit (s : jsstring) : Prop := Forall (fun c => c < 65536) s.

Lemma scalar_values_sixteen_bit s :
  sixteen_bit s -> Forall scalar (scalar_values s).
Proof.
  unfold sixteen_bit.
  induction s as [|c|c d r IHr IHdr] using list_ind2; intros Hs.
  - constructor.
  - apply Forall_cons in Hs as [Hc _]. cbn [scalar_values].
    destruct (surrogate_cases c) as [[-> ?] | [-> ?]].
    { repeat constructor; unfold REPLACEMENT; lia. }
    destruct (low_surrogate_cases c) as [[-> ?] | [-> ?]];
      repeat constructor; unfold REPLACEMENT; lia.
  - pose proof Hs as Hs'. apply Forall_cons in Hs' as [Hc Hdr].
    pose proof Hdr as Hdr'. apply Forall_cons in Hdr' as [Hd Hr].
    specialize (IHr Hr). specialize (IHdr Hdr).
    assert (scalar REPLACEMENT) by (unfold scalar, REPLACEMENT; lia).
    change (scalar_values (c :: d :: r)) with
      (if is_high_surrogate c then
         if is_low_surrogate d
         then (0x10000 + (c - 0xD800) * 0x400 + (d - 0xDC00))
              :: scalar_values r
         else REPLACEMENT :: scalar_values (d :: r)
       else if is_low_surrogate c then REPLACEMENT :: scalar_values (d :: r)
       else c :: scalar_values (d :: r)).
    destruct (surrogate_cases c) as [[-> ?] | [-> ?]].
    { destruct (low_surrogate_cases d) as [[-> ?] | [-> ?]];
        constructor; try done. unfold scalar. lia. }
    destruct (low_surrogate_cases c) as [[-> ?] | [-> ?]];
      constructor; try done. unfold scalar. lia.
Qed.

Lemma TextEncoder_encode_sixteen_bit s :
  sixteen_bit s -> Forall (fun b => b < 256) (TextEncoder_encode s).
Proof.
  intros Hs%scalar_values_sixteen_bit. unfold TextEncoder_encode.
  induction Hs as [|cp cps Hcp _ IH]; [constructor|].
  cbn [flat_map]. apply Forall_app. split; [|done].
  by apply encode_code_point_bytes.
Qed.

(** A character of base64 text: of the alphabet, or the padding. *)
Definition base64_char (c : code_unit) : Prop :=
  is_Some (sextet_of_char c) \/ c = PAD.

Lemma char_of_sextet_base64 i : base64_char (char_of_sextet i).
Proof.
  left. pose proof (char_of_sextet_alphabet i) as H. simpl in H.
  unfold sextet_of_char.
  destruct (N.leb_spec 65 (char_of_sextet i));
    destruct (N.leb_spec (char_of_sextet i) 90); cbn [andb]; eauto;
  destruct (N.leb_spec 97 (char_of_sextet i));
    destruct (N.leb_spec (char_of_sextet i) 122); cbn [andb]; eauto;
  destruct (N.leb_spec 48 (char_of_sextet i));
    destruct (N.leb_spec (char_of_sextet i) 57); cbn [andb]; eauto;
  destruct (N.eqb_spec (char_of_sextet i) 43); eauto;
  destruct (N.eqb_spec (char_of_sextet i) 47); eauto; lia.
Qed.

Lemma encode_bytes_base64 l : Forall base64_char (encode_bytes l).
Proof.
  induction l as [|a|a b|a b c r IH] using list_ind3; cbn [encode_bytes];
    repeat (constructor; try apply char_of_sextet_base64; try by right).
  exact IH.
Qed.

Lemma encodeBase64_sixteen_bit s :
  sixteen_bit s ->
  encodeBase64 s = Return (encode_bytes (TextEncoder_encode s)).
Proof.
  intros Hs. unfold encodeBase64.
  pose proof (TextEncoder_encode_sixteen_bit s Hs) as Hb.
  rewrite map_mod_id by (done || lia). by apply btoa_bytes.
Qed.

(** [encodeBase64] never throws on a string, and what it returns is base64
    text: characters of the alphabet and padding only, so no line break,
    in groups of four. *)
Theorem encodeBase64_returns_base64 s :
  sixteen_bit s ->
  exists b, encodeBase64 s = Return b /\
            Forall base64_char b /\ (length b mod 4 = 0)%nat.
Proof.
  intros Hs. exists (encode_bytes (TextEncoder_encode s)).
  split; [by apply encodeBase64_sixteen_bit|].
  split; [apply encode_bytes_base64 | apply length_encode_bytes].
Qed.

Lemma encodeBase64_returns_base64_witness :
  exists b, encodeBase64 [0xD800; 0x41] = Return b /\
            Forall base64_char b /\ (length b mod 4 = 0)%nat.
Proof.
  apply (encodeBase64_returns_base64 [0xD800; 0x41]).
  repeat constructor.
Defined.

(** *** What a round trip does to any string *)

Lemma strip_bom_scalars cps :
  Forall scalar cps ->
  decode_bytes (strip_bom (flat_map encode_code_point cps))
  = match cps with
    | cp :: r => if cp =? 0xFEFF then r else cps
    | [] => []
    end.
Proof.
  intros Hcps. destruct Hcps as [|cp r Hcp Hr]; [done|].
  destruct (N.eqb_spec cp 0xFEFF) as [->|Hne].
  - change (flat_map encode_code_point (0xFEFF :: r))
      with (0xEF :: 0xBB :: 0xBF :: flat_map encode_code_point r).
    cbn [strip_bom]. change (0xEF =? 0xEF) with true.
    change (0xBB =? 0xBB) with true. change (0xBF =? 0xBF) with true.
    cbn [andb]. by apply decode_encode.
  - assert (strip_bom (flat_map encode_code_point (cp :: r))
            = flat_map encode_code_point (cp :: r)) as ->.
    { cbn [flat_map]. destruct Hcp as [Hmax Hsur]. unfold encode_code_point.
      destruct (N.ltb_spec cp 0x80); [apply strip_bom_head; lia|].
      destruct (N.ltb_spec cp 0x800); [apply strip_bom_head; divmod|].
      destruct (N.ltb_spec cp 0x10000); [|apply strip_bom_head; divmod].
      cbn [app strip_bom].
      destruct (N.eqb_spec (0xE0 + cp / 4096) 0xEF); [|done].
      destruct (N.eqb_spec (0x80 + (cp / 64) mod 64) 0xBB); [|done].
      destruct (N.eqb_spec (0x80 + cp mod 64) 0xBF); [|done].
      exfalso. divmod. }
    apply decode_encode. by constructor.
Qed.

(** The string a round trip gives back: surrogates outside a pair have
    become U+FFFD, and a first character U+FEFF is gone. *)
Definition round_trip_image (s : jsstring) : jsstring :=
  match scalar_values s with
  | cp :: r =>
      if cp =? 0xFEFF then flat_map code_units r
      else flat_map code_units (cp :: r)
  | [] => []
  end.

Lemma decodeBase64_encode_bytes s :
  sixteen_bit s ->
  decodeBase64 (encode_bytes (TextEncoder_encode s))
  = Return (round_trip_image s).
Proof.
  intros Hs. pose proof (TextEncoder_encode_sixteen_bit s Hs) as Hb.
  unfold decodeBase64. rewrite filter_newlines_encode_bytes.
  rewrite atob_encode_bytes by done. cbn [bind].
  rewrite map_mod_id by (done || lia).
  unfold TextDecoder_decode, TextEncoder_encode, round_trip_image.
  rewrite strip_bom_scalars by by apply scalar_values_sixteen_bit.
  destruct (scalar_values s) as [|cp r]; [done|].
  by destruct (cp =? 0xFEFF).
Qed.

Lemma round_trip_image_well_formed s :
  well_formed s = true -> starts_with_bom s = false ->
  round_trip_image s = s.
Proof.
  intros Hwf Hbom. unfold round_trip_image.
  pose proof (code_units_scalar_values s Hwf) as Heq.
  destruct s as [|c r]; [done|].
  apply well_formed_cons in Hwf
    as [(Hlt & Hhi & Hlo & Hr & Hsv) | (d' & r1 & -> & Hc & Hd & Hr & Hsv)];
    rewrite Hsv in Heq |- *.
  - cbn [starts_with_bom] in Hbom. by rewrite Hbom.
  - rewrite (proj2 (N.eqb_neq _ _)) by lia. done.
Qed.

Lemma well_formed_sixteen_bit s : well_formed s = true -> sixteen_bit s.
Proof.
  unfold sixteen_bit.
  induction s as [|c|c d r IHr IHdr] using list_ind2; intros Hwf.
  - constructor.
  - apply well_formed_cons in Hwf
      as [(Hlt & _) | (d & r1 & [=] & _)]. by repeat constructor.
  - apply well_formed_cons in Hwf
      as [(Hlt & _ & _ & Hr & _) | (d' & r1 & [= <- <-] & Hc & Hd & Hr & _)].
    + constructor; [done | by apply IHdr].
    + constructor; [lia|]. constructor; [lia | by apply IHr].
Qed.

(** For every string, [decodeBase64(encodeBase64(s))] returns, and returns
    [s] with each surrogate outside a pair replaced by U+FFFD and without
    a first character U+FEFF; nothing else is changed: a well-formed
    string that does not start with U+FEFF is its own image. *)
Theorem decodeBase64_encodeBase64_image s :
  sixteen_bit s ->
  (exists b, encodeBase64 s = Return b /\
             decodeBase64 b = Return (round_trip_image s)) /\
  (well_formed s = true -> starts_with_bom s = false ->
   round_trip_image s = s).
Proof.
  intros Hs. split.
  - exists (encode_bytes (TextEncoder_encode s)).
    split; [by apply encodeBase64_sixteen_bit|].
    by apply decodeBase64_encode_bytes.
  - apply round_trip_image_well_formed.
Qed.

Lemma decodeBase64_encodeBase64_image_witness :
  exists b, encodeBase64 [0x41; 0xDC00; 0x42] = Return b /\
            decodeBase64 b = Return [0x41; 0xFFFD; 0x42].
Proof.
  apply (decodeBase64_encodeBase64_image [0x41; 0xDC00; 0x42]).
  repeat constructor.
Defined.

(** *** What [decodeBase64] accepts *)

Lemma filter_whitespace_app c x y :
  is_ascii_whitespace c = true ->
  List.filter (fun c => negb (is_ascii_whitespace c))
    (List.filter (fun c => negb (c =? 10)) (x ++ c :: y))
  = List.filter (fun c => negb (is_ascii_whitespace c))
      (List.filter (fun c => negb (c =? 10)) (x ++ y)).
Proof.
  intros Hc. rewrite !List.filter_app. cbn [List.filter].
  destruct (c =? 10); cbn [negb]; [done|].
  cbn [List.filter]. by rewrite Hc.
Qed.

(** [decodeBase64] ignores every ASCII white space character of its
    input (tab, line feed, form feed, carriage return, space), wherever
    it stands, not only the line feeds it removes itself. *)
Theorem decodeBase64_ignores_whitespace c x y :
  is_ascii_whitespace c = true ->
  decodeBase64 (x ++ c :: y) = decodeBase64 (x ++ y).
Proof.
  intros Hc. unfold decodeBase64, atob.
  by rewrite (filter_whitespace_app c x y Hc).
Qed.

Lemma decodeBase64_ignores_whitespace_witness :
  decodeBase64 (lit "aG" ++ 32 :: lit "k=") = decodeBase64 (lit "aG" ++ lit "k=").
Proof.
  apply (decodeBase64_ignores_whitespace 32 (lit "aG") (lit "k=")).
  reflexivity.
Defined.

Lemma drop_padding_keeps c l :
  c <> PAD -> In c l -> In c (drop_padding l).
Proof.
  intros Hc. induction l as [|x|x y r IHr IHyr] using list_ind2.
  - done.
  - intros [-> | []]. cbn [drop_padding].
    rewrite (proj2 (N.eqb_neq _ _) Hc). by left.
  - intros Hin.
    assert (drop_padding (x :: y :: r)
            = match r with
              | [] => if (x =? PAD) && (y =? PAD) then []
                      else x :: drop_padding (y :: r)
              | _ :: _ => x :: drop_padding (y :: r)
              end) as -> by reflexivity.
    destruct Hin as [-> | Hin].
    + rewrite (proj2 (N.eqb_neq _ _) Hc). cbn [andb].
      destruct r; by left.
    + specialize (IHyr Hin). destruct r as [|z r]; [|by right].
      destruct ((x =? PAD) && (y =? PAD)) eqn:Hpad; [|by right].
      apply andb_true_iff in Hpad as [_ Hy%N.eqb_eq].
      destruct Hin as [-> | []]. done.
Qed.

Lemma sextets_reject c l :
  sextet_of_char c = None -> In c l -> sextets l = None.
Proof.
  intros Hc. induction l as [|x l IH]; [done|].
  intros [-> | Hin]; cbn [sextets].
  - by rewrite Hc.
  - rewrite (IH Hin). by destruct (sextet_of_char x).
Qed.

(** [decodeBase64] throws on any input with a character that is neither
    of the base64 alphabet, nor padding, nor ASCII white space. *)
Theorem decodeBase64_rejects_foreign_character c base64 :
  In c base64 ->
  sextet_of_char c = None -> c <> PAD -> is_ascii_whitespace c = false ->
  decodeBase64 base64 = Throw InvalidCharacterError.
Proof.
  intros Hin Hc Hpad Hws. unfold decodeBase64, atob. cbv zeta.
  match goal with
  | |- context [List.filter ?f (List.filter ?g base64)] =>
      set (d := List.filter f (List.filter g base64))
  end.
  assert (In c d) as Hd.
  { unfold d. apply List.filter_In. split; [|by rewrite Hws].
    apply List.filter_In. split; [done|].
    apply negb_true_iff, N.eqb_neq. intros ->. discriminate Hws. }
  set (d' := if (length d mod 4 =? 0)%nat then drop_padding d else d).
  assert (In c d') as Hd'.
  { unfold d'. destruct (_ =? _)%nat; [by apply drop_padding_keeps | done]. }
  destruct (_ =? 1)%nat; [done|].
  by rewrite (sextets_reject c d' Hc Hd').
Qed.

Lemma decodeBase64_rejects_foreign_character_witness :
  decodeBase64 (lit "aGk-") = Throw InvalidCharacterError.
Proof.
  apply (decodeBase64_rejects_foreign_character 45 (lit "aGk-")).
  - cbn. tauto.
  - reflexivity.
  - discriminate.
  - reflexivity.
Defined.

End CodecProps.

(** ** [trim] and [split] *)

Module TextProps.
Import JS Text.
Local Open Scope N_scope.

(** Nothing [trim] would remove stands at either end. *)
Definition trimmed (s : jsstring) : Prop :=
  (forall c r, s = c :: r -> is_white_space c = false) /\
  (forall c r, rev s = c :: r -> is_white_space c = false).

Lemma trim_start_split s :
  exists p, s = p ++ trim_start s /\ Forall (fun c => is_white_space c = true) p.
Proof.
  induction s as [|c r (p & Hp & Hws)]; [by exists []|].
  cbn [trim_start]. destruct (is_white_space c) eqn:Hc.
  - exists (c :: p). split; [cbn; by rewrite <- Hp | by constructor].
  - by exists [].
Qed.

Lemma trim_start_head s c r :
  trim_start s = c :: r -> is_white_space c = false.
Proof.
  induction s as [|x s IH]; [done|]. cbn [trim_start].
  destruct (is_white_space x) eqn:Hx; [done|]. by intros [= <- _].
Qed.

Lemma trim_start_fixed s c r :
  s = c :: r -> is_white_space c = false -> trim_start s = s.
Proof. intros -> Hc. cbn. by rewrite Hc. Qed.

Lemma trim_trimmed s : trimmed (trim s).
Proof.
  unfold trim, trim_end. set (t := trim_start s).
  destruct (trim_start_split (rev t)) as (p & Hp & Hws).
  set (u := trim_start (rev t)) in *. split.
  - intros c r Hc.
    assert (t = rev u ++ rev p) as Ht.
    { rewrite <- (rev_involutive t), Hp. by rewrite rev_app_distr. }
    rewrite Hc in Ht. destruct t as [|c' t'] eqn:Et; [done|].
    injection Ht as -> ->.
    unfold t in Et. by apply trim_start_head in Et.
  - intros c r Hc. rewrite rev_involutive in Hc.
    by apply trim_start_head in Hc.
Qed.

Lemma trim_start_incl c s : In c (trim_start s) -> In c s.
Proof.
  induction s as [|x s IH]; [done|]. cbn [trim_start].
  destruct (is_white_space x); [right; by apply IH | done].
Qed.

Lemma trim_incl c s : In c (trim s) -> In c s.
Proof.
  unfold trim, trim_end. intros H%in_rev%trim_start_incl%in_rev.
  by apply trim_start_incl.
Qed.

(** [trim] leaves a trimmed string as it is. *)
Lemma trim_fixed s : trimmed s -> trim s = s.
Proof.
  intros [Hhead Hlast]. unfold trim, trim_end.
  assert (trim_start s = s) as ->.
  { destruct s as [|c r]; [done|]. eapply trim_start_fixed; eauto. }
  assert (trim_start (rev s) = rev s) as ->.
  { destruct (rev s) as [|c r] eqn:E; [done|].
    eapply trim_start_fixed; eauto. }
  apply rev_involutive.
Qed.

Lemma split_cons sep s : exists x xs, split sep s = x :: xs.
Proof.
  induction s as [|c r (x & xs & IH)]; [by eexists _, _|].
  cbn [split]. destruct (c =? sep); [by eexists _, _|].
  rewrite IH. by eexists _, _.
Qed.

Lemma split_no_separator sep s :
  Forall (fun x => ~ In sep x) (split sep s).
Proof.
  induction s as [|c r IH];
    [cbn; constructor; [by intros [] | constructor]|].
  cbn [split]. destruct (N.eqb_spec c sep) as [->|Hne].
  - constructor; [by intros [] | done].
  - destruct (split sep r) as [|x xs]; [repeat constructor; by intros [? | []]|].
    apply Forall_cons in IH as [Hx Hxs]. constructor; [|done].
    intros [? | ?]; done.
Qed.

(** The pieces of [split], joined with the separator, are the string. *)
Lemma join_split sep s : Json.join [sep] (split sep s) = s.
Proof.
  induction s as [|c r IH]; [done|].
  cbn [split]. destruct (N.eqb_spec c sep) as [->|Hne].
  - destruct (split_cons sep r) as (x & xs & Hx). rewrite Hx in IH |- *.
    cbn [Json.join app] in *. by rewrite IH.
  - destruct (split_cons sep r) as (x & xs & Hx). rewrite Hx in IH |- *.
    destruct xs; cbn [Json.join app] in *; by rewrite IH.
Qed.

End TextProps.

(** ** The other operations of the GitHub wrapper *)

Module GitHubOpsProps.
Import JS Base64 Utf8 GitHub GitHubOps Text TextProps GitHubProps CodecProps.
Local Open Scope N_scope.

(** *** Scopes *)

Lemma parse_scopes_clean header s :
  In s (parse_scopes header) -> s <> [] /\ trimmed s /\ ~ In 44 s.
Proof.
  unfold parse_scopes. intros [Hin Hne]%List.filter_In.
  apply List.in_map_iff in Hin as (x & <- & Hx).
  split; [by destruct (trim x)|]. split; [apply trim_trimmed|].
  intros Hc%trim_incl.
  pose proof (split_no_separator 44
    match header with
    | Some h => if truthy (VStr h) then h else []
    | None => []
    end) as Hsep.
  rewrite Forall_forall in Hsep. apply (Hsep x); [|done].
  by apply list_elem_of_In.
Qed.

Section Operations.

Variable fetch : Request -> result Response.
Variable getMessage : string -> list value -> jsstring.
Variable headers_get : Response -> string -> option jsstring.

Abbreviation _fetch := (_fetch fetch getMessage).
Abbreviation validateToken :=
  (validateToken fetch getMessage headers_get).
Abbreviation checkRepo := (checkRepo fetch getMessage).
Abbreviation createOrUpdateFile := (createOrUpdateFile fetch getMessage).
Abbreviation getLatestCommitSha := (getLatestCommitSha fetch getMessage).

Lemma ok_status r :
  ok r = true ->
  (status r =? 401)%Z = false /\ (status r =? 403)%Z = false /\
  (status r =? 409)%Z = false /\ (status r =? 404)%Z = false.
Proof.
  unfold ok. intros [H1%Z.leb_le H2%Z.leb_le]%andb_true_iff.
  repeat split; apply Z.eqb_neq; lia.
Qed.

Lemma _fetch_ok api url method body r :
  fetch {| url := url; method := method; body := body;
           headers := _headers api |} = Return r ->
  ok r = true -> _fetch api url method body = Return r.
Proof.
  intros Hr (H1 & H3 & H9 & _)%ok_status. unfold GitHub._fetch.
  rewrite Hr. cbn [bind]. by rewrite H1, H3, H9.
Qed.

(** An answer with a plain body either makes [_fetch] throw a
    [GitHubError] with the answer's status, or passes through it. *)
Lemma _fetch_rejected api url method body r :
  fetch {| url := url; method := method; body := body;
           headers := _headers api |} = Return r ->
  plain_body r ->
  (exists msg, _fetch api url method body
               = Throw (GitHubError msg (status r))) \/
  _fetch api url method body = Return r.
Proof.
  intros Hr Hplain. unfold GitHub._fetch. rewrite Hr. cbn [bind].
  destruct (Z.eqb_spec (status r) 401) as [->|_]; [left; eauto|].
  destruct (Z.eqb_spec (status r) 403) as [->|_].
  { left. unfold plain_body in Hplain.
    destruct (json r) as [d|]; [|cbn; eauto].
    destruct Hplain as [Hnull Hmsg]. unfold read_prop. rewrite Hnull.
    cbn [bind]. destruct Hmsg as [-> | [msg ->]]; [cbn; eauto|].
    destruct (truthy (VStr msg)); [|cbn; eauto]. cbn [call_includes bind].
    destruct (includes msg _); eauto. }
  destruct (Z.eqb_spec (status r) 409) as [->|_]; [left; eauto | by right].
Qed.

(** What [validateToken] resolves to, by the answer of the store. *)
Lemma validateToken_cases api :
  let request := {| url := API_BASE ++ lit "/user"; method := None;
                    body := None; headers := _headers api |} in
  (exists r d,
     fetch request = Return r /\ ok r = true /\ json r = Some d /\
     nullish d = false /\
     validateToken api
     = {| valid := true; username := get_prop d "login";
          scopes := parse_scopes (headers_get r "x-oauth-scopes") |})
  \/ (validateToken api = invalid_token /\
      ~ exists r d, fetch request = Return r /\ ok r = true /\
                    json r = Some d /\ nullish d = false).
Proof.
  cbv zeta. unfold GitHubOps.validateToken.
  destruct (GitHub._fetch fetch getMessage api (API_BASE ++ lit "/user")
              None None) as [r|e] eqn:Hf; cbn [bind].
  - apply _fetch_passes in Hf as [Hr _].
    destruct (ok r) eqn:Hok; cbn [negb].
    + unfold response_json. destruct (json r) as [d|] eqn:Hd; cbn [bind].
      * unfold read_prop. destruct (nullish d) eqn:Hnull; cbn [bind].
        -- right. split; [done|]. intros (r' & d' & Hr' & _ & Hj & Hn).
           congruence.
        -- left. by exists r, d.
      * right. split; [done|]. intros (r' & d' & Hr' & _ & Hj & _).
        congruence.
    + right. split; [done|]. intros (r' & d' & Hr' & Hok' & _). congruence.
  - right. split; [done|]. intros (r' & d' & Hr' & Hok' & _).
    rewrite (_fetch_ok api _ None None r' Hr' Hok') in Hf. done.
Qed.

Lemma checkRepo_cases api :
  let request := {| url := repo_url api; method := None; body := None;
                    headers := _headers api |} in
  (checkRepo api = true /\ exists r, fetch request = Return r /\ ok r = true)
  \/ (checkRepo api = false /\
      ~ exists r, fetch request = Return r /\ ok r = true).
Proof.
  cbv zeta. unfold GitHubOps.checkRepo.
  destruct (GitHub._fetch fetch getMessage api (repo_url api) None None)
    as [r|e] eqn:Hf.
  - apply _fetch_passes in Hf as [Hr _].
    destruct (ok r) eqn:Hok; [left; eauto|].
    right. split; [done|]. intros (r' & Hr' & Hok'). congruence.
  - right. split; [done|]. intros (r' & Hr' & Hok').
    rewrite (_fetch_ok api _ None None r' Hr' Hok') in Hf. done.
Qed.

(** [validateToken] reports a valid token exactly when the store answers
    the request for the user with an ok status and a JSON body other
    than [null]; in every other case, a network failure and every error
    status included, it reports an invalid token without user name and
    without scopes.  The user name of a valid token is the [login] of
    the body.  Its scopes are the entries of the scopes header between
    commas, trimmed: none is empty, none starts or ends with white
    space, none contains a comma. *)
Theorem validateToken_valid_iff api :
  let request := {| url := API_BASE ++ lit "/user"; method := None;
                    body := None; headers := _headers api |} in
  (valid (validateToken api) = true <->
     exists r d, fetch request = Return r /\ ok r = true /\
                 json r = Some d /\ nullish d = false) /\
  (forall r d, fetch request = Return r -> ok r = true ->
               json r = Some d -> nullish d = false ->
               username (validateToken api) = get_prop d "login") /\
  (valid (validateToken api) = false -> validateToken api = invalid_token) /\
  (forall s, In s (scopes (validateToken api)) ->
     s <> [] /\ trimmed s /\ ~ In 44 s).
Proof.
  pose proof (validateToken_cases api) as H. cbv zeta in H |- *.
  destruct H as [(r & d & Hr & Hok & Hd & Hn & ->) | [-> Hno]];
    cbn [valid scopes username].
  - split_and!; [| |done|].
    + split; [intros _; by exists r, d | done].
    + intros r' d' Hr' _ Hd' _. congruence.
    + intros s. apply parse_scopes_clean.
  - split_and!; [by split | | done | done].
    intros r d Hr Hok Hd Hn. destruct Hno. by exists r, d.
Qed.

(** [checkRepo] answers true exactly when the store answers the request
    for the repository with an ok status; a network failure and every
    answer that is not ok, the 401, 403 and 409 that make [_fetch] throw
    included, give false and never an exception. *)
Theorem checkRepo_true_iff api :
  let request := {| url := repo_url api; method := None; body := None;
                    headers := _headers api |} in
  (checkRepo api = true <-> exists r, fetch request = Return r /\ ok r = true)
  /\ (forall r, fetch request = Return r -> ok r = false ->
        checkRepo api = false)
  /\ (forall e, fetch request = Throw e -> checkRepo api = false).
Proof.
  pose proof (checkRepo_cases api) as H. cbv zeta in H |- *.
  destruct H as [[-> Hr] | [-> Hno]].
  - split_and!; [by split| |].
    + intros r Hr' Hs. destruct Hr as (r' & Hr & Hok). congruence.
    + intros e He. destruct Hr as (r' & Hr & _). congruence.
  - split_and!; [by split | done | done].
Qed.

(** *** Writing a file *)

(** The object [createOrUpdateFile] sends carries the commit message and
    the branch as given, a content that [decodeBase64] maps back to the
    content given (for a well-formed content that does not start with
    U+FEFF), and a [sha] exactly when a non-empty one is given. *)
Theorem request_body_content api text message sha :
  well_formed text = true -> starts_with_bom text = false ->
  exists body encoded,
    request_body api text message sha = Return body /\
    get_prop body "message" = VStr message /\
    get_prop body "branch" = VStr (branch api) /\
    get_prop body "content" = VStr encoded /\
    decodeBase64 encoded = Return text /\
    get_prop body "sha"
    = match sha with
      | Some (c :: s) => VStr (c :: s)
      | _ => VUndefined
      end.
Proof.
  intros Hwf Hbom. pose proof (well_formed_sixteen_bit text Hwf) as H16.
  unfold request_body. rewrite (encodeBase64_sixteen_bit text H16).
  cbn [bind]. eexists _, _. split; [reflexivity|].
  repeat split.
  - rewrite (decodeBase64_encode_bytes text H16).
    by rewrite round_trip_image_well_formed.
  - by destruct sha as [[|c s]|].
Qed.

(** A write that the store does not accept never returns: on every
    answer that is not ok [createOrUpdateFile] throws, and what it throws
    is a [GitHubError] that carries the status of the answer (409 or 422
    for a stale sha, for instance) when the body of the answer is not
    JSON or is JSON other than [null] with a message that is missing,
    falsy or a string.  [createOrUpdateFile] returns only after an
    answer with an ok status. *)
Theorem createOrUpdateFile_rejected api path text message sha body :
  request_body api text message sha = Return body ->
  let request := {| url := write_url api path; method := Some "PUT"%string;
                    body := Json.stringify body; headers := _headers api |} in
  (forall r, fetch request = Return r -> ok r = false ->
     exists e, createOrUpdateFile api path text message sha = Throw e) /\
  (forall r, fetch request = Return r -> ok r = false -> plain_body r ->
     exists msg, createOrUpdateFile api path text message sha
                 = Throw (GitHubError msg (status r))) /\
  (forall w, createOrUpdateFile api path text message sha = Return w ->
     exists r, fetch request = Return r /\ ok r = true).
Proof.
  intros Hbody request. unfold GitHubOps.createOrUpdateFile.
  rewrite Hbody. cbn [bind]. split_and!.
  - intros r Hr Hok.
    destruct (_fetch_not_ok fetch getMessage api _ _ _ r Hr) as [[e ->] | ->];
      cbn [bind]; [eauto|].
    rewrite Hok. cbn [negb]. destruct (read_prop _ _); cbn [bind]; eauto.
  - intros r Hr Hok Hplain.
    destruct (_fetch_rejected api _ _ _ r Hr Hplain) as [[msg ->] | ->];
      cbn [bind]; [eauto|].
    rewrite Hok. cbn [negb]. unfold plain_body in Hplain.
    destruct (json r) as [d|]; [|cbn; eauto].
    destruct Hplain as [Hnull _]. unfold read_prop. rewrite Hnull.
    cbn [bind]. eauto.
  - intros w.
    destruct (GitHub._fetch fetch getMessage api (write_url api path)
                (Some "PUT"%string) (Json.stringify body)) as [r|e] eqn:Hf;
      cbn [bind]; [|done].
    apply _fetch_passes in Hf as [Hr _].
    destruct (ok r) eqn:Hok; cbn [negb].
    + intros _. by exists r.
    + by destruct (read_prop _ _).
Qed.

(** *** Reading back *)

Lemma decodeBase64_filter base64 :
  decodeBase64 (List.filter (fun c => negb (c =? 10)) base64)
  = decodeBase64 base64.
Proof.
  unfold decodeBase64. f_equal. f_equal.
  induction base64 as [|c r IH]; [done|]. cbn [List.filter].
  destruct (negb (c =? 10)) eqn:E; [|done]. cbn [List.filter].
  by rewrite E, IH.
Qed.

(** [getFile] reads back what [createOrUpdateFile] wrote.  When the
    store answers the read with the content that was sent, line breaks
    inserted anywhere in it, [getFile] returns the text that was written
    (a well-formed text that does not start with U+FEFF) and the [sha]
    of the answer. *)
Theorem getFile_reads_what_was_written
    api path text message sha_sent body encoded r d stored :
  well_formed text = true -> starts_with_bom text = false ->
  request_body api text message sha_sent = Return body ->
  get_prop body "content" = VStr encoded ->
  fetch {| url := contents_url api path; method := None; body := None;
           headers := _headers api |} = Return r ->
  ok r = true -> json r = Some d -> get_prop d "content" = VStr stored ->
  List.filter (fun c => negb (c =? 10)) stored = encoded ->
  getFile fetch getMessage api path
  = Return (Some {| file_content := text; file_sha := get_prop d "sha" |}).
Proof.
  intros Hwf Hbom Hbody Hcontent Hr Hok Hd Hc Hstored.
  pose proof (well_formed_sixteen_bit text Hwf) as H16.
  unfold request_body in Hbody.
  rewrite (encodeBase64_sixteen_bit text H16) in Hbody. cbn [bind] in Hbody.
  injection Hbody as <-. cbn in Hcontent. injection Hcontent as <-.
  unfold getFile. rewrite (_fetch_ok api _ None None r Hr Hok). cbn [bind].
  destruct (ok_status r Hok) as (_ & _ & _ & ->). rewrite Hok. cbn [negb].
  unfold response_json. rewrite Hd. cbn [bind]. unfold read_prop.
  rewrite (get_prop_not_nullish d "content" _ Hc) by done.
  cbn [bind]. rewrite Hc. cbn [bind].
  rewrite <- (decodeBase64_filter stored), Hstored.
  rewrite (decodeBase64_encode_bytes text H16).
  by rewrite round_trip_image_well_formed.
Qed.

(** *** The branch tip *)

(** [getLatestCommitSha] throws on every answer that is not ok, and what
    it throws is a [GitHubError] that carries the status of the answer
    when the body of the answer is not JSON or is JSON other than [null]
    with a message that is missing, falsy or a string; a 404 in
    particular is the branch-not-found error, where [getFile] returns
    [null].  It returns only after an answer with an ok status. *)
Theorem getLatestCommitSha_rejected api :
  let request := {| url := ref_url api; method := None; body := None;
                    headers := _headers api |} in
  (forall r, fetch request = Return r -> ok r = false ->
     exists e, getLatestCommitSha api = Throw e) /\
  (forall r, fetch request = Return r -> ok r = false -> plain_body r ->
     exists msg, getLatestCommitSha api = Throw (GitHubError msg (status r))) /\
  (forall r, fetch request = Return r -> status r = 404%Z ->
     getLatestCommitSha api
     = Throw (GitHubError
                (getMessage "api_branchNotFound" [VStr (branch api)]) 404)) /\
  (forall s, getLatestCommitSha api = Return s ->
     exists r, fetch request = Return r /\ ok r = true).
Proof.
  intros request. unfold GitHubOps.getLatestCommitSha. split_and!.
  - intros r Hr Hok.
    destruct (_fetch_not_ok fetch getMessage api _ _ _ r Hr) as [[e ->] | ->];
      cbn [bind]; [eauto|].
    rewrite Hok. cbn [negb]. eauto.
  - intros r Hr Hok Hplain.
    destruct (_fetch_rejected api _ _ _ r Hr Hplain) as [[msg ->] | ->];
      cbn [bind]; [eauto|].
    rewrite Hok. cbn [negb]. eauto.
  - intros r Hr Hs. unfold GitHub._fetch. fold request. rewrite Hr.
    cbn [bind]. rewrite Hs. cbn [bind Z.eqb Pos.eqb].
    unfold ok. rewrite Hs. done.
  - intros s.
    destruct (GitHub._fetch fetch getMessage api (ref_url api) None None)
      as [r|e] eqn:Hf; cbn [bind]; [|done].
    apply _fetch_passes in Hf as [Hr _].
    destruct (ok r) eqn:Hok; cbn [negb]; [|done]. intros _. by exists r.
Qed.

End Operations.

Lemma validateToken_valid_iff_witness :
  valid (validateToken (fun _ => Return user_found) sample_getMessage
           sample_headers sample_api) = true.
Proof.
  apply (proj2 (proj1 (validateToken_valid_iff (fun _ => Return user_found)
                         sample_getMessage sample_headers sample_api))).
  exists user_found, (VObj [("login", VStr (lit "octocat"))]).
  split_and!; reflexivity.
Defined.

Lemma checkRepo_true_iff_witness :
  checkRepo (fun _ => Return user_found) sample_getMessage sample_api = true.
Proof.
  apply (proj2 (proj1 (checkRepo_true_iff (fun _ => Return user_found)
                         sample_getMessage sample_api))).
  exists user_found. split; reflexivity.
Defined.

Lemma request_body_content_witness :
  exists body encoded,
    request_body sample_api (lit "hi") (lit "update") (Some (lit "abc"))
    = Return body /\
    get_prop body "message" = VStr (lit "update") /\
    get_prop body "branch" = VStr (lit "main") /\
    get_prop body "content" = VStr encoded /\
    decodeBase64 encoded = Return (lit "hi") /\
    get_prop body "sha" = VStr (lit "abc").
Proof.
  apply (request_body_content sample_api (lit "hi") (lit "update")
           (Some (lit "abc"))); reflexivity.
Defined.

Lemma getFile_reads_what_was_written_witness :
  getFile (fun _ => Return file_found) sample_getMessage sample_api
    (lit "bookmarks/a.json")
  = Return (Some {| file_content := lit "hi"; file_sha := VStr (lit "abc") |}).
Proof.
  apply (getFile_reads_what_was_written (fun _ => Return file_found)
           sample_getMessage sample_api (lit "bookmarks/a.json") (lit "hi")
           (lit "update") None
           (VObj [("message", VStr (lit "update"));
                  ("content", VStr (lit "aGk="));
                  ("branch", VStr (lit "main"))])
           (lit "aGk=") file_found
           (VObj [("content", VStr (lit "aG" ++ [10] ++ lit "k="));
                  ("sha", VStr (lit "abc"))])
           (lit "aG" ++ [10] ++ lit "k=")); reflexivity.
Defined.

Lemma createOrUpdateFile_rejected_witness :
  exists msg,
    createOrUpdateFile (fun _ => Return stale_write) sample_getMessage
      sample_api (lit "a.json") (lit "hi") (lit "update") (Some (lit "abc"))
    = Throw (GitHubError msg 422).
Proof.
  apply (proj1 (proj2 (createOrUpdateFile_rejected
                  (fun _ => Return stale_write) sample_getMessage sample_api
                  (lit "a.json") (lit "hi") (lit "update") (Some (lit "abc"))
                  (VObj [("message", VStr (lit "update"));
                         ("content", VStr (lit "aGk="));
                         ("branch", VStr (lit "main"));
                         ("sha", VStr (lit "abc"))])
                  ltac:(vm_compute; reflexivity)))
           stale_write); [reflexivity | reflexivity |].
  split; [reflexivity|]. right. by eexists.
Defined.

Lemma getLatestCommitSha_rejected_witness :
  getLatestCommitSha
    (fun _ => Return {| status := 404; json := None |}) sample_getMessage
    sample_api
  = Throw (GitHubError (lit "api_branchNotFound") 404).
Proof.
  apply (proj1 (proj2 (proj2 (getLatestCommitSha_rejected
                         (fun _ => Return {| status := 404; json := None |})
                         sample_getMessage sample_api)))
           {| status := 404; json := None |}); reflexivity.
Defined.

End GitHubOpsProps.

(** ** The shape of serialized bookmarks *)

Module TreeProps.
Import JS Json Serializer SerializerProps.
Local Open Scope N_scope.

(** A node that [serializeNode] takes for a bookmark: its [url] is a
    non-empty string. *)
Definition is_link (n : BookmarkTreeNode) : bool :=
  match url n with
  | Some (_ :: _) => true
  | _ => false
  end.

(** The bookmarks and the folders at and below a node, as
    [serializeNode] sees them: what lies below a bookmark is dropped. *)
Fixpoint links (n : BookmarkTreeNode) : nat :=
  match url n with
  | Some (_ :: _) => 1
  | _ =>
      match children n with
      | Some cs => list_sum (map links cs)
      | None => 0
      end
  end.

Fixpoint folders (n : BookmarkTreeNode) : nat :=
  match url n with
  | Some (_ :: _) => 0
  | _ =>
      S (match children n with
         | Some cs => list_sum (map folders cs)
         | None => 0
         end)
  end.

Lemma links_eq n :
  links n = if is_link n then 1%nat else list_sum (map links (child_nodes n)).
Proof. destruct n as [t d [[|c u]|] [cs|]]; reflexivity. Qed.

Lemma folders_eq n :
  folders n
  = if is_link n then 0%nat else S (list_sum (map folders (child_nodes n))).
Proof. destruct n as [t d [[|c u]|] [cs|]]; reflexivity. Qed.

Lemma serializeNode_link n :
  is_link n = true ->
  exists u, u <> [] /\
    serializeNode n = bookmark_value (title n) (dateAdded n) u.
Proof.
  destruct n as [t d [[|c u]|] cs]; try discriminate. intros _.
  by exists (c :: u).
Qed.

Lemma serializeNode_folder n :
  is_link n = false ->
  serializeNode n
  = folder_value (title n) (dateAdded n) (map serializeNode (child_nodes n)).
Proof. destruct n as [t d [[|c u]|] [cs|]]; try discriminate; reflexivity. Qed.

(** The shape of serialized bookmark data. *)
#[warnings="-register-all"] Inductive serialized : value -> Prop :=
| serialized_bookmark t d u :
    u <> [] -> serialized (bookmark_value t d u)
| serialized_folder t d items :
    Forall serialized items -> serialized (folder_value t d items).

Lemma serializeNode_serialized n : serialized (serializeNode n).
Proof.
  induction n as [n IH] using node_ind'. destruct (is_link n) eqn:E.
  - destruct (serializeNode_link n E) as (u & Hu & ->). by constructor.
  - rewrite (serializeNode_folder n E). constructor.
    by apply Forall_map.
Qed.

(** [deserializeFromJson] accepts whatever [serializeToJson] produces, an
    empty tree included, and returns its bookmarks: one entry for each
    child of the first root, each of them a bookmark with a non-empty url
    and no children, or a folder with an array of children of the same
    two shapes. *)
Theorem deserializeFromJson_serializeToJson now tree dev :
  deserializeFromJson (serializeToJson now tree dev)
  = Return (VArr (map serializeNode (rootChildren tree)))
  /\ Forall serialized (map serializeNode (rootChildren tree)).
Proof.
  split; [reflexivity|]. apply Forall_map, Forall_forall.
  intros n _. apply serializeNode_serialized.
Qed.

(** [bookmarksEqual] is symmetric and transitive, and it holds between a
    value and itself exactly when the value is truthy: [null],
    [undefined], [0] and the empty string equal nothing, themselves
    included. *)
Theorem bookmarksEqual_partial_equivalence a b c :
  bookmarksEqual a b = bookmarksEqual b a
  /\ (bookmarksEqual a b = true -> bookmarksEqual b c = true ->
      bookmarksEqual a c = true)
  /\ bookmarksEqual a a = truthy a.
Proof.
  unfold bookmarksEqual, falsy, strict_eq_text. split_and!.
  - destruct (truthy a), (truthy b); cbn [negb orb]; try done.
    apply bool_decide_ext. split; by intros ->.
  - destruct (truthy a), (truthy b), (truthy c); cbn [negb orb]; try done.
    rewrite !bool_decide_eq_true. by intros -> ->.
  - destruct (truthy a); cbn [negb orb]; [|done]. by rewrite bool_decide_eq_true_2.
Qed.

Lemma bookmarksEqual_partial_equivalence_witness :
  bookmarksEqual
    (serializeToJson (lit "2024-01-01T00:00:00.000Z") sample_tree (lit "a"))
    (serializeToJson (lit "2024-03-01T00:00:00.000Z") sample_tree (lit "c"))
  = true.
Proof.
  apply (proj1 (proj2 (bookmarksEqual_partial_equivalence
           (serializeToJson (lit "2024-01-01T00:00:00.000Z") sample_tree
              (lit "a"))
           (serializeToJson (lit "2024-02-01T00:00:00.000Z") sample_tree
              (lit "b"))
           (serializeToJson (lit "2024-03-01T00:00:00.000Z") sample_tree
              (lit "c"))))); vm_compute; reflexivity.
Defined.

End TreeProps.

(** ** The Markdown view of serialized bookmarks *)

Module MarkdownProps.
Import JS Json Operators Serializer Markdown SerializerProps TreeProps.
Local Open Scope N_scope.

(** The loop [for (const c of children.filter(c => c.type === kind))]
    of [renderNodeAsMarkdown]. *)
Definition render_kind (kind : string) (headingLevel : nat)
  : list value -> result (list jsstring) :=
  fix each (cs : list value) : result (list jsstring) :=
    match cs with
    | [] => Return []
    | c :: r =>
        chosen <- type_is kind c ;;
        pushed <- (if chosen
                   then renderNodeAsMarkdown c (S headingLevel)
                   else Return []) ;;
        rest <- each r ;;
        Return (pushed ++ rest)
    end.

Lemma renderNodeAsMarkdown_folder t d items level :
  renderNodeAsMarkdown (folder_value t d items) level
  = (below <- (bookmarks <- filter_type "bookmark" items ;;
               folders <- filter_type "folder" items ;;
               first <- render_kind "bookmark" level items ;;
               second <- render_kind "folder" level items ;;
               Return
                 (first
                  ++ (if (0 <? length bookmarks)%nat
                         && (0 <? length folders)%nat
                      then [[]] else [])
                  ++ second)) ;;
     Return (heading level (VStr t) :: [] :: below)).
Proof. reflexivity. Qed.

Lemma renderNodeAsMarkdown_bookmark t d u level :
  renderNodeAsMarkdown (bookmark_value t d u) level
  = Return [item (VStr t) (VStr u)].
Proof. reflexivity. Qed.

Lemma type_is_serializeNode n :
  type_is "bookmark" (serializeNode n) = Return (is_link n) /\
  type_is "folder" (serializeNode n) = Return (negb (is_link n)).
Proof.
  destruct (is_link n) eqn:E.
  - destruct (serializeNode_link n E) as (u & _ & ->). done.
  - rewrite (serializeNode_folder n E). done.
Qed.

Lemma filter_type_serializeNode cs :
  filter_type "bookmark" (map serializeNode cs)
  = Return (map serializeNode (List.filter is_link cs)) /\
  filter_type "folder" (map serializeNode cs)
  = Return (map serializeNode (List.filter (fun c => negb (is_link c)) cs)).
Proof.
  induction cs as [|c cs [IH1 IH2]]; [done|].
  cbn [map filter_type List.filter].
  destruct (type_is_serializeNode c) as [-> ->]. rewrite IH1, IH2.
  cbn [bind]. by destruct (is_link c).
Qed.

(** *** The lines of the view *)

Definition item_line (l : jsstring) : Prop :=
  exists t u, t <> [] /\ u <> [] /\
    l = lit "- [" ++ t ++ lit "](" ++ u ++ lit ")".

Definition heading_line (l : jsstring) : Prop :=
  exists k t, (2 <= k <= 6)%nat /\ t <> [] /\ l = repeat 35 k ++ 32 :: t.

Definition body_line (l : jsstring) : Prop :=
  l = [] \/ item_line l \/ heading_line l.

Definition is_item (l : jsstring) : bool :=
  match l with
  | 45 :: _ => true
  | _ => false
  end.

Definition is_heading (l : jsstring) : bool :=
  match l with
  | 35 :: _ => true
  | _ => false
  end.

Definition items (lines : list jsstring) : nat :=
  length (List.filter is_item lines).

Definition headings (lines : list jsstring) : nat :=
  length (List.filter is_heading lines).

Lemma items_app l1 l2 : items (l1 ++ l2) = (items l1 + items l2)%nat.
Proof. unfold items. by rewrite List.filter_app, length_app. Qed.

Lemma headings_app l1 l2 :
  headings (l1 ++ l2) = (headings l1 + headings l2)%nat.
Proof. unfold headings. by rewrite List.filter_app, length_app. Qed.

Lemma items_cons l ls :
  items (l :: ls) = ((if is_item l then 1 else 0) + items ls)%nat.
Proof. unfold items. cbn [List.filter]. by destruct (is_item l). Qed.

Lemma headings_cons l ls :
  headings (l :: ls) = ((if is_heading l then 1 else 0) + headings ls)%nat.
Proof. unfold headings. cbn [List.filter]. by destruct (is_heading l). Qed.

Lemma item_shape t u :
  u <> [] ->
  item_line (item (VStr t) (VStr u))
  /\ is_item (item (VStr t) (VStr u)) = true
  /\ is_heading (item (VStr t) (VStr u)) = false.
Proof.
  intros Hu. split; [|done].
  exists (if truthy (VStr t) then t else u), u. split_and!; [|done|].
  - by destruct t.
  - unfold item, or_else. by destruct (truthy (VStr t)).
Qed.

Lemma heading_shape level t :
  (2 <= level)%nat ->
  heading_line (heading level (VStr t))
  /\ is_item (heading level (VStr t)) = false
  /\ is_heading (heading level (VStr t)) = true.
Proof.
  intros Hl. split.
  - exists (Nat.min level 6), (if truthy (VStr t) then t else untitled).
    split_and!; [lia| lia | by destruct t |].
    unfold heading, or_else. by destruct (truthy (VStr t)).
  - unfold heading. destruct (Nat.min level 6) eqn:E; [lia|]. done.
Qed.

(** What rendering a serialized node gives. *)
Definition rendered (n : BookmarkTreeNode) : Prop :=
  forall level, (2 <= level)%nat ->
  exists lines,
    renderNodeAsMarkdown (serializeNode n) level = Return lines
    /\ Forall body_line lines
    /\ items lines = links n
    /\ headings lines = folders n.

Lemma render_kind_serialized kind (p : BookmarkTreeNode -> bool) level cs :
  (forall c, type_is kind (serializeNode c) = Return (p c)) ->
  (1 <= level)%nat ->
  Forall rendered cs ->
  exists lines,
    render_kind kind level (map serializeNode cs) = Return lines
    /\ Forall body_line lines
    /\ items lines = list_sum (map links (List.filter p cs))
    /\ headings lines = list_sum (map folders (List.filter p cs)).
Proof.
  intros Hp Hl. induction 1 as [|c cs Hc _ (rest & IH & Hrest & Hi & Hh)].
  - by exists [].
  - cbn [map render_kind List.filter]. rewrite Hp. cbn [bind].
    fold (render_kind kind level). rewrite IH.
    destruct (p c).
    + destruct (Hc (S level)) as (lines & -> & Hlines & Hli & Hlh); [lia|].
      exists (lines ++ rest). cbn [bind map].
      change (list_sum (?x :: ?l)) with (x + list_sum l)%nat.
      rewrite items_app, headings_app, Forall_app. by rewrite Hi, Hh, Hli, Hlh.
    + by exists rest.
Qed.

Lemma list_sum_cons x l : list_sum (x :: l) = (x + list_sum l)%nat.
Proof. reflexivity. Qed.

Lemma list_sum_partition {A} (f : A -> nat) (p : A -> bool) l :
  (list_sum (map f (List.filter p l))
   + list_sum (map f (List.filter (fun x => negb (p x)) l)))%nat
  = list_sum (map f l).
Proof.
  unfold list_sum in *.
  induction l as [|x l IH]; [done|]. cbn [List.filter map].
  destruct (p x); cbn [negb map fold_right]; lia.
Qed.

Lemma filter_links cs :
  list_sum (map folders (List.filter is_link cs)) = 0%nat.
Proof.
  induction cs as [|c cs IH]; [done|]. cbn [List.filter].
  destruct (is_link c) eqn:E; [|done]. cbn [map].
  by rewrite list_sum_cons, folders_eq, E, IH.
Qed.

Lemma rendered_all n : rendered n.
Proof.
  induction n as [n IH] using node_ind'. intros level Hl.
  rewrite links_eq, folders_eq. destruct (is_link n) eqn:E.
  - destruct (serializeNode_link n E) as (u & Hu & ->).
    rewrite renderNodeAsMarkdown_bookmark.
    destruct (item_shape (title n) u Hu) as (H1 & H2 & H3).
    exists [item (VStr (title n)) (VStr u)]. split_and!; [done| |..].
    + constructor; [by right; left | constructor].
    + by rewrite items_cons, H2.
    + by rewrite headings_cons, H3.
  - rewrite (serializeNode_folder n E), renderNodeAsMarkdown_folder.
    destruct (filter_type_serializeNode (child_nodes n)) as [-> ->].
    destruct (render_kind_serialized "bookmark" is_link level (child_nodes n))
      as (first & -> & Hf & Hfi & Hfh); [apply type_is_serializeNode|lia|done|].
    destruct (render_kind_serialized "folder" (fun c => negb (is_link c))
                level (child_nodes n))
      as (second & -> & Hs & Hsi & Hsh); [apply type_is_serializeNode|lia|done|].
    cbn [bind]. eexists. split; [reflexivity|].
    destruct (heading_shape level (title n)) as (H1 & H2 & H3); [lia|].
    match goal with
    | |- context [first ++ ?g ++ second] => set (gap := g)
    end.
    assert (Hgap : Forall body_line gap /\ items gap = 0%nat
                   /\ headings gap = 0%nat).
    { subst gap. destruct (_ && _); [|done].
      split; [|done]. constructor; [by left | constructor]. }
    destruct Hgap as (Hg & Hgi & Hgh).
    split_and!.
    + constructor; [by right; right|]. constructor; [by left|].
      rewrite !Forall_app. done.
    + rewrite !items_cons, H2. change (is_item []) with false.
      rewrite !items_app, Hgi, Hfi, Hsi.
      pose proof (list_sum_partition links is_link (child_nodes n)). lia.
    + rewrite !headings_cons, H3. change (is_heading []) with false.
      rewrite !headings_app, Hgh, Hfh, Hsh.
      pose proof (list_sum_partition folders is_link (child_nodes n)).
      pose proof (filter_links (child_nodes n)). lia.
Qed.

Lemma render_nodes_serialized cs :
  exists lines,
    render_nodes (map serializeNode cs) = Return lines
    /\ Forall body_line lines
    /\ items lines = list_sum (map links cs)
    /\ headings lines = list_sum (map folders cs).
Proof.
  induction cs as [|c cs (rest & IH & Hrest & Hi & Hh)]; [by exists []|].
  cbn [map render_nodes]. rewrite !list_sum_cons.
  destruct (rendered_all c 2%nat) as (lines & -> & Hlines & Hli & Hlh); [lia|].
  rewrite IH. exists (lines ++ rest). cbn [bind].
  by rewrite items_app, headings_app, Forall_app, Hi, Hh, Hli, Hlh.
Qed.

(** The five lines that open the view. *)
Definition header_lines (now dev : jsstring) : list jsstring :=
  [lit "# Bookmarks";
   [];
   lit "> Zuletzt synchronisiert: " ++ now;
   lit "> Ger" ++ [228] ++ lit "t: `" ++ dev ++ lit "`";
   []].

Lemma markdown_lines_serializeToJson now tree dev :
  markdown_lines (serializeToJson now tree dev)
  = (body <- render_nodes (map serializeNode (rootChildren tree)) ;;
     Return (header_lines now dev ++ body)).
Proof. reflexivity. Qed.

(** Serialized data always has a Markdown view, and the view is made of
    the five header lines followed only by blank lines, items
    [- [title](url)] with a non-empty title and url, and headings of two
    to six [#] followed by a space and a non-empty title. *)
Theorem serializeToMarkdown_serialized now tree dev :
  exists body,
    serializeToMarkdown (serializeToJson now tree dev)
    = Return (join [10] (header_lines now dev ++ body))
    /\ Forall body_line body.
Proof.
  unfold serializeToMarkdown. rewrite markdown_lines_serializeToJson.
  destruct (render_nodes_serialized (rootChildren tree))
    as (body & -> & Hbody & _).
  by exists body.
Qed.

(** The view of serialized data lists every bookmark once and every
    folder once: its lines that start with [-] are as many as the
    bookmarks of the tree, and its lines that start with [#] are one
    more than the folders. *)
Theorem markdown_lists_every_node now tree dev :
  exists lines,
    markdown_lines (serializeToJson now tree dev) = Return lines
    /\ items lines = list_sum (map links (rootChildren tree))
    /\ headings lines = S (list_sum (map folders (rootChildren tree))).
Proof.
  rewrite markdown_lines_serializeToJson.
  destruct (render_nodes_serialized (rootChildren tree))
    as (body & -> & _ & Hi & Hh).
  eexists. split; [reflexivity|].
  by rewrite items_app, headings_app, Hi, Hh.
Qed.

End MarkdownProps.

(** ** The automatic triggers, continued *)

Module TriggerProps.
Import JS Operators Background Alarm BackgroundProps.

Section Props.

Variable STORAGE_KEYS : StorageKeys.
Variable isConfigured : gmap string value -> bool.
Variable Date_getTime : value -> option Z.

Abbreviation onAlarm := (onAlarm STORAGE_KEYS isConfigured).
Abbreviation onFocusChanged :=
  (onFocusChanged STORAGE_KEYS isConfigured Date_getTime).
Abbreviation onStartup := (onStartup STORAGE_KEYS isConfigured).

(** The focus listener does sync when it is due: for a real window, with
    sync-on-focus and auto-sync enabled, the profile configured and no
    sync in flight, it calls [sync()] when no last sync time is recorded,
    when the recorded one is falsy or cannot be read as a date, and when
    at least 60000 ms have passed since then. *)
Theorem focus_sync_when_due windowId success w :
  0 <= windowId ->
  truthy (index (settings w) (SYNC_ON_FOCUS STORAGE_KEYS)) = true ->
  isConfigured (settings w) = true ->
  truthy (index (settings w) (AUTO_SYNC STORAGE_KEYS)) = true ->
  syncInProgress w = false ->
  (let lastSync := index (local_storage w) (LAST_SYNC_TIME STORAGE_KEYS) in
   truthy lastSync = false
   \/ Date_getTime lastSync = None
   \/ exists t, Date_getTime lastSync = Some t /\ 60000 <= now w - t) ->
  starts_sync (onFocusChanged windowId success w) = true
  /\ hd_error (onFocusChanged windowId success w) = Some Sync.
Proof.
  intros Hid Hf Hc Ha Hrun Hdue.
  unfold Background.onFocusChanged, within_cooldown, WINDOW_ID_NONE,
    FOCUS_SYNC_COOLDOWN_MS.
  assert ((windowId =? -1) = false) as -> by lia.
  assert ((windowId <? 0) = false) as -> by lia.
  rewrite Hf, Hc, Ha, Hrun. cbn [orb negb].
  cbv zeta in Hdue. destruct Hdue as [-> | [-> | (t & -> & Ht)]].
  - done.
  - by rewrite andb_false_r.
  - assert ((now w - t <? 60000) = false) as -> by lia.
    by rewrite andb_false_r.
Qed.

(** The badge after an automatic sync.  The error badge is set exactly
    when a sync was started and failed.  The alarm and the focus listener
    clear the badge exactly when their sync succeeded; the startup
    listener never clears it. *)
Theorem badge_follows_sync name windowId success w :
  let shows (text : string) (tr : list Call) := In (SetBadgeText text) tr in
  (forall tr,
     tr = onAlarm name success w \/ tr = onFocusChanged windowId success w
     \/ tr = onStartup success w ->
     shows "!" tr <-> starts_sync tr = true /\ success = false)
  /\ (forall tr,
        tr = onAlarm name success w \/ tr = onFocusChanged windowId success w ->
        shows "" tr <-> starts_sync tr = true /\ success = true)
  /\ ~ shows "" (onStartup success w).
Proof.
  assert (Hbadge : forall text, In (SetBadgeText text) (Sync :: badge success)
                   <-> (text = "!" /\ success = false)
                       \/ (text = "" /\ success = true)).
  { intros text. destruct success; cbn; split.
    - intros [|[[= <-]|[]]]; [done | by right].
    - intros [[_ [=]] | [-> _]]. by right; left.
    - intros [|[[= <-]|[|[]]]]; try done. by left.
    - intros [[-> _] | [_ [=]]]. by right; left. }
  intros shows. unfold shows. split_and!.
  - intros tr [-> | [-> | ->]].
    + unfold Background.onAlarm. destruct (String.eqb name ALARM_NAME);
        [|by split; [intros [] | intros [[=] _]]].
      destruct (_ && _); [|by split; [intros [] | intros [[=] _]]].
      rewrite Hbadge. cbn [starts_sync existsb is_sync_call orb].
      split; [intros [[_ ->] | [[=] _]]; done | intros [_ ->]; by left].
    + unfold Background.onFocusChanged.
      destruct (_ || _); [by split; [intros [] | intros [[=] _]]|].
      destruct (_ || _); [by split; [intros [] | intros [[=] _]]|].
      destruct (_ && _); [by split; [intros [] | intros [[=] _]]|].
      destruct (syncInProgress w); [by split; [intros [] | intros [[=] _]]|].
      rewrite Hbadge. cbn [starts_sync existsb is_sync_call orb].
      split; [intros [[_ ->] | [[=] _]]; done | intros [_ ->]; by left].
    + unfold Background.onStartup.
      destruct (_ && _), success; cbn; split;
        try (by intros [_ [=]]); try (by intros [[=] _]);
        try (by intros []); intros; try done; try tauto.
      all: repeat match goal with H : _ \/ _ |- _ => destruct H end; done.
  - intros tr [-> | ->].
    + unfold Background.onAlarm. destruct (String.eqb name ALARM_NAME);
        [|by split; [intros [] | intros [[=] _]]].
      destruct (_ && _); [|by split; [intros [] | intros [[=] _]]].
      rewrite Hbadge. cbn [starts_sync existsb is_sync_call orb].
      split; [intros [[[=] _] | [_ ->]]; done | intros [_ ->]; by right].
    + unfold Background.onFocusChanged.
      destruct (_ || _); [by split; [intros [] | intros [[=] _]]|].
      destruct (_ || _); [by split; [intros [] | intros [[=] _]]|].
      destruct (_ && _); [by split; [intros [] | intros [[=] _]]|].
      destruct (syncInProgress w); [by split; [intros [] | intros [[=] _]]|].
      rewrite Hbadge. cbn [starts_sync existsb is_sync_call orb].
      split; [intros [[[=] _] | [_ ->]]; done | intros [_ ->]; by right].
  - unfold Background.onStartup.
    destruct (_ && _), success; cbn; intros H;
      repeat match goal with H : _ \/ _ |- _ => destruct H end; done.
Qed.

Section Periodic.

Variable SYNC_INTERVAL : string.

Abbreviation setupAlarm := (setupAlarm STORAGE_KEYS SYNC_INTERVAL isConfigured).

(** [setupAlarm] always clears the periodic alarm first, and creates it
    again exactly in the settings in which the alarm listener syncs when
    the alarm fires.  The period it passes is never falsy: it is the
    configured interval, or 15 when the interval is missing, [0], empty
    or otherwise falsy. *)
Theorem setupAlarm_creates_iff_alarm_syncs success w :
  (exists period,
     setupAlarm w = [AlarmsClear ALARM_NAME; AlarmsCreate ALARM_NAME period]
     /\ truthy period = true
     /\ (truthy (index (settings w) SYNC_INTERVAL) = true ->
         period = index (settings w) SYNC_INTERVAL)
     /\ (truthy (index (settings w) SYNC_INTERVAL) = false ->
         period = VNum 15)
     /\ starts_sync (onAlarm ALARM_NAME success w) = true)
  \/ (setupAlarm w = [AlarmsClear ALARM_NAME]
      /\ onAlarm ALARM_NAME success w = []).
Proof.
  unfold Alarm.setupAlarm, Background.onAlarm, or_else.
  rewrite String.eqb_refl.
  destruct (truthy (index (settings w) (AUTO_SYNC STORAGE_KEYS)));
    destruct (isConfigured (settings w)); cbn [andb]; try by right.
  left. eexists. split; [reflexivity|].
  destruct (truthy (index (settings w) SYNC_INTERVAL)) eqn:E; by split_and!.
Qed.

End Periodic.

End Props.

Lemma setupAlarm_creates_iff_alarm_syncs_witness :
  setupAlarm sample_keys "syncInterval" sample_isConfigured
    (sample_world false false false None 0)
  = [AlarmsClear ALARM_NAME; AlarmsCreate ALARM_NAME (VNum 15)].
Proof.
  destruct (setupAlarm_creates_iff_alarm_syncs sample_keys
              sample_isConfigured "syncInterval" true
              (sample_world false false false None 0))
    as [(period & -> & _ & _ & Hperiod & _) | [_ Hnone]].
  - rewrite Hperiod; reflexivity.
  - discriminate Hnone.
Defined.

Lemma focus_sync_when_due_witness :
  starts_sync (onFocusChanged sample_keys sample_isConfigured sample_getTime
                 1 true (sample_world false false false (Some 1000) 61000))
  = true
  /\ hd_error (onFocusChanged sample_keys sample_isConfigured sample_getTime
                 1 true (sample_world false false false (Some 1000) 61000))
     = Some Sync.
Proof.
  apply (focus_sync_when_due sample_keys sample_isConfigured sample_getTime
           1 true (sample_world false false false (Some 1000) 61000)).
  - lia.
  - reflexivity.
  - reflexivity.
  - reflexivity.
  - reflexivity.
  - right. right. exists 1000. split; [reflexivity | simpl; lia].
Defined.

Lemma badge_follows_sync_witness :
  In (SetBadgeText "!")
     (onAlarm sample_keys sample_isConfigured "bookmarkSyncPull" false
        (sample_world false false false None 0)).
Proof.
  apply (proj2 (proj1 (badge_follows_sync sample_keys sample_isConfigured
                         sample_getTime "bookmarkSyncPull" 1 false
                         (sample_world false false false None 0))
                  _ (or_introl eq_refl))).
  split; reflexivity.
Defined.

End TriggerProps.

(** ** The popup *)

Module PopupProps.
Import JS Json GitHub Popup.

(** *** One action at a time *)

Definition is_action (m : Message) : bool :=
  match m with
  | Action _ => true
  | GetStatus => false
  end.

(** The actions of [handleAction] that are pending. *)
Definition actions (s : Popup) : list Message :=
  List.filter is_action (pending s).

Definition buttons_follow (s : Popup) : Prop :=
  syncBtn_disabled (page s) = isSyncing (page s)
  /\ pushBtn_disabled (page s) = isSyncing (page s)
  /\ pullBtn_disabled (page s) = isSyncing (page s).

(** No action is pending and the popup is not loading, or one is and it
    is. *)
Definition one_at_a_time (s : Popup) : Prop :=
  length (actions s) = if isSyncing (page s) then 1%nat else 0%nat.

Lemma length_filter_delete {A} (p : A -> bool) (l : list A) i x :
  l !! i = Some x ->
  (length (List.filter p (delete i l)) + (if p x then 1 else 0))%nat
  = length (List.filter p l).
Proof.
  revert i. induction l as [|y l IH]; intros [|i]; try done.
  - intros [= ->]. simpl. destruct (p x); simpl; lia.
  - intros Hi. simpl. specialize (IH i Hi).
    destruct (p y); simpl; lia.
Qed.

Section Status.

Variable toLocaleDateString : option Z -> jsstring.
Variable Date_getTime : value -> option Z.

Abbreviation step := (step toLocaleDateString Date_getTime).
Abbreviation run := (run toLocaleDateString Date_getTime).

Lemma updateUI_isSyncing now status p :
  let p' := updateUI toLocaleDateString Date_getTime now status p in
  isSyncing p' = isSyncing p
  /\ syncBtn_disabled p' = syncBtn_disabled p
  /\ pushBtn_disabled p' = pushBtn_disabled p
  /\ pullBtn_disabled p' = pullBtn_disabled p.
Proof.
  cbv zeta. unfold updateUI.
  destruct (_ || _); [done|].
  destruct (truthy (get_prop status "hasConflict"));
    destruct (truthy (get_prop status "lastSyncTime"));
    by destruct (truthy (get_prop status "autoSync")).
Qed.

Definition is_click (e : Event) : bool :=
  match e with
  | Click _ => true
  | _ => false
  end.

(** What holds of an open popup: [clicked] says whether a button has
    been clicked yet. *)
Definition settled (clicked : bool) (s : Popup) : Prop :=
  one_at_a_time s
  /\ if clicked then buttons_follow s else isSyncing (page s) = false.

Lemma loadStatus_settle_flags now reply p :
  let p' := loadStatus_settle toLocaleDateString Date_getTime now reply p in
  isSyncing p' = isSyncing p
  /\ syncBtn_disabled p' = syncBtn_disabled p
  /\ pushBtn_disabled p' = pushBtn_disabled p
  /\ pullBtn_disabled p' = pullBtn_disabled p.
Proof. destruct reply as [status|]; [apply updateUI_isSyncing | done]. Qed.

Lemma step_settled clicked s e s' :
  settled clicked s -> step s e = Some s' ->
  settled (clicked || is_click e) s'.
Proof.
  unfold settled, one_at_a_time, actions, buttons_follow.
  intros [Hone Hflags].
  destruct e as [|action | which reply | which now reply];
    cbn [Popup.step is_click]; rewrite ?orb_false_r, ?orb_true_r.
  - intros [= <-]. cbn [page pending]. rewrite List.filter_app, length_app.
    cbn [List.filter is_action length]. split; [lia | done].
  - unfold handleAction_send. destruct (isSyncing (page s)) eqn:Hbusy.
    + intros [= <-]. rewrite Hbusy. split; [done|].
      destruct clicked; [done | congruence].
    + intros [= <-]. cbn [page pending isSyncing setLoading].
      rewrite List.filter_app, length_app.
      cbn [List.filter is_action length]. split; [lia | done].
  - destruct (pending s !! which) as [[|a]|] eqn:Hw; try done.
    intros [= <-]. cbn [page pending].
    pose proof (length_filter_delete is_action _ _ _ Hw) as Hlen.
    cbn [is_action] in Hlen. unfold handleAction_settle.
    cbn [isSyncing setLoading syncBtn_disabled pushBtn_disabled
           pullBtn_disabled].
    destruct (isSyncing (page s)) eqn:Hbusy; [|lia].
    split; [lia|]. destruct clicked; [done | congruence].
  - destruct (pending s !! which) as [[|a]|] eqn:Hw; try done.
    intros [= <-]. cbn [page pending].
    pose proof (length_filter_delete is_action _ _ _ Hw) as Hlen.
    cbn [is_action] in Hlen.
    destruct (loadStatus_settle_flags now reply (page s))
      as (-> & -> & -> & ->).
    split; [lia | done].
Qed.

Lemma run_settled events clicked s s' :
  settled clicked s -> run s events = Some s' ->
  settled (clicked || existsb is_click events) s'.
Proof.
  revert clicked s. induction events as [|e events IH]; intros clicked s Hs.
  - intros [= <-]. by rewrite orb_false_r.
  - cbn [Popup.run existsb]. destruct (step s e) as [s1|] eqn:He; [|done].
    intros Hrun. rewrite orb_assoc.
    apply (IH _ s1); [by eapply step_settled | done].
Qed.

(** The popup never has two actions under way.  From a popup that is not
    syncing, whatever is clicked, whenever the page is loaded and however
    the messages end, at most one message of [handleAction] is pending
    (the [getStatus] message of [loadStatus] may be pending beside it);
    one is pending exactly while [isSyncing] is set; once a button has
    been clicked, the sync, push and pull buttons are disabled exactly
    then.  A click while an action is pending, on a force button for
    instance, sends nothing. *)
Theorem popup_single_flight s0 events s :
  isSyncing (page s0) = false -> pending s0 = [] ->
  run s0 events = Some s ->
  (length (actions s) <= 1)%nat
  /\ (isSyncing (page s) = true <-> length (actions s) = 1%nat)
  /\ (existsb is_click events = true -> buttons_follow s)
  /\ (forall action, isSyncing (page s) = true ->
        step s (Click action) = Some s).
Proof.
  intros Hidle Hnone Hrun.
  assert (Hstart : settled false s0).
  { split; [|done]. unfold one_at_a_time, actions. by rewrite Hidle, Hnone. }
  destruct (run_settled events false s0 s Hstart Hrun) as [Hone Hflags].
  cbn [orb] in Hflags. unfold one_at_a_time in Hone. split_and!.
  - destruct (isSyncing (page s)); lia.
  - destruct (isSyncing (page s)); [done|]. split; [done | lia].
  - intros Hclick. by rewrite Hclick in Hflags.
  - intros action Hbusy. cbn [Popup.step]. unfold handleAction_send.
    by rewrite Hbusy.
Qed.

End Status.

(** However the request ends, with success, with a failure or in the
    [catch] block, the popup leaves the loading state; the conflict box
    is shown for a failure whose message mentions a conflict, hidden
    after a success, and left as it is otherwise. *)
Theorem handleAction_settles reply p :
  let p' := handleAction_settle reply p in
  isSyncing p' = false
  /\ syncBtn_disabled p' = false /\ pushBtn_disabled p' = false
  /\ pullBtn_disabled p' = false
  /\ syncSpinner_display p' = "none"%string
  /\ conflictBox_display p'
     = match reply with
       | Resolved true _ => "none"%string
       | Resolved false message =>
           if includes message (lit "Konflikt") then "block"%string
           else conflictBox_display p
       | Caught _ => conflictBox_display p
       end.
Proof.
  cbv zeta. unfold handleAction_settle.
  destruct reply as [[] message | message]; [done| |done].
  by destruct (includes message (lit "Konflikt")).
Qed.

(** *** Relative times *)

Section RelativeTime.

Variable toLocaleDateString : option Z -> jsstring.

Abbreviation formatRelativeTime := (formatRelativeTime toLocaleDateString).

(** [formatRelativeTime] by the time elapsed: "gerade eben" below one
    minute, a date in the future included; whole minutes from 1 to 59
    below one hour; whole hours from 1 to 23 below one day; the date
    itself from one day on, and for an invalid date. *)
Theorem formatRelativeTime_ranges now d :
  let elapsed := now - d in
  (elapsed < 60000 ->
     formatRelativeTime now (Some d) = lit "gerade eben")
  /\ (60000 <= elapsed < 3600000 ->
      exists m, 1 <= m <= 59 /\ 60000 * m <= elapsed < 60000 * (m + 1)
        /\ formatRelativeTime now (Some d)
           = lit "vor " ++ number_to_string m ++ lit " Min.")
  /\ (3600000 <= elapsed < 86400000 ->
      exists h, 1 <= h <= 23 /\ 3600000 * h <= elapsed < 3600000 * (h + 1)
        /\ formatRelativeTime now (Some d)
           = lit "vor " ++ number_to_string h ++ lit " Std.")
  /\ (86400000 <= elapsed ->
      formatRelativeTime now (Some d) = toLocaleDateString (Some d))
  /\ formatRelativeTime now None = toLocaleDateString None.
Proof.
  intros elapsed. unfold Popup.formatRelativeTime. fold elapsed.
  cbv zeta. split_and!.
  - intros H. assert ((elapsed / 60000 <? 1) = true) as ->; [|done].
    apply Z.ltb_lt. Z.to_euclidean_division_equations; lia.
  - intros [H1 H2]. exists (elapsed / 60000).
    assert ((elapsed / 60000 <? 1) = false) as ->.
    { apply Z.ltb_ge. Z.to_euclidean_division_equations; lia. }
    assert ((elapsed / 60000 <? 60) = true) as ->.
    { apply Z.ltb_lt. Z.to_euclidean_division_equations; lia. }
    split_and!; try done; Z.to_euclidean_division_equations; lia.
  - intros [H1 H2]. exists (elapsed / 60000 / 60).
    assert ((elapsed / 60000 <? 1) = false) as ->.
    { apply Z.ltb_ge. Z.to_euclidean_division_equations; lia. }
    assert ((elapsed / 60000 <? 60) = false) as ->.
    { apply Z.ltb_ge. Z.to_euclidean_division_equations; lia. }
    assert ((elapsed / 60000 / 60 <? 24) = true) as ->.
    { apply Z.ltb_lt. Z.to_euclidean_division_equations; lia. }
    split_and!; try done; Z.to_euclidean_division_equations; lia.
  - intros H.
    assert ((elapsed / 60000 <? 1) = false) as ->.
    { apply Z.ltb_ge. Z.to_euclidean_division_equations; lia. }
    assert ((elapsed / 60000 <? 60) = false) as ->.
    { apply Z.ltb_ge. Z.to_euclidean_division_equations; lia. }
    assert ((elapsed / 60000 / 60 <? 24) = false) as ->; [|done].
    apply Z.ltb_ge. Z.to_euclidean_division_equations; lia.
  - done.
Qed.

End RelativeTime.

Lemma popup_single_flight_witness :
  exists s,
    run (fun _ => lit "01.01.2024, 10:00") Background.sample_getTime
      {| page := sample_page; pending := [] |}
      [ContentLoaded; Click "sync"; Click "push";
       Settle 1 (Resolved true (lit "ok")); Click "pull"]
    = Some s
    /\ (length (actions s) <= 1)%nat
    /\ pending s = [GetStatus; Action "pull"].
Proof.
  eexists. split; [reflexivity|]. split; [|reflexivity].
  apply (popup_single_flight (fun _ => lit "01.01.2024, 10:00")
           Background.sample_getTime {| page := sample_page; pending := [] |}
           [ContentLoaded; Click "sync"; Click "push";
            Settle 1 (Resolved true (lit "ok")); Click "pull"]
           _ eq_refl eq_refl eq_refl).
Defined.

Lemma formatRelativeTime_ranges_witness :
  formatRelativeTime (fun _ => lit "01.01.2024, 10:00") 1700000300000
    (Some 1700000000000)
  = lit "vor " ++ number_to_string 5 ++ lit " Min.".
Proof.
  destruct (proj1 (proj2 (formatRelativeTime_ranges
                            (fun _ => lit "01.01.2024, 10:00")
                            1700000300000 1700000000000)))
    as (m & Hm & Hrange & ->); [lia|].
  replace m with 5 by lia. reflexivity.
Defined.

End PopupProps.

(** ** The options page *)

Module OptionsProps.
Import JS Json Operators Text GitHub GitHubOps Options GitHubOpsProps.
Local Open Scope N_scope.

Lemma array_includes_In l text : array_includes l text = true <-> In text l.
Proof.
  unfold array_includes. rewrite existsb_exists. split.
  - by intros (x & Hx & ->%bool_decide_eq_true).
  - intros H. exists text. split; [done|]. by apply bool_decide_eq_true.
Qed.

Lemma truthy_VStr s : truthy (VStr s) = true <-> s <> [].
Proof. by destruct s. Qed.

Section Validate.

Variable fetch : Request -> result Response.
Variable getMessage : string -> list value -> jsstring.
Variable headers_get : Response -> string -> option jsstring.

Abbreviation validate := (validate fetch getMessage headers_get).

(** The validate button reports success exactly when a token is entered,
    the store answers the request for the user with an ok status, a JSON
    body other than [null] and a scopes header that lists [repo] itself,
    and, should an owner and a repository be entered, the store answers
    the request for that repository with an ok status.  Before any
    request the fields are trimmed. *)
Theorem validate_success_iff tokenInput ownerInput repoInput branchInput :
  let api := api_of tokenInput ownerInput repoInput branchInput in
  let user_request := {| url := API_BASE ++ lit "/user"; method := None;
                         body := None; headers := _headers api |} in
  let repo_request := {| url := repo_url api; method := None; body := None;
                         headers := _headers api |} in
  (exists message,
     last (validate tokenInput ownerInput repoInput branchInput)
     = Some (message, "success"%string))
  <-> trim tokenInput <> []
      /\ (exists r d, fetch user_request = Return r /\ ok r = true
                      /\ json r = Some d /\ nullish d = false
                      /\ In (lit "repo")
                            (parse_scopes (headers_get r "x-oauth-scopes")))
      /\ (trim ownerInput <> [] -> trim repoInput <> [] ->
          exists r, fetch repo_request = Return r /\ ok r = true).
Proof.
  cbv zeta. unfold Options.validate.
  set (api := api_of tokenInput ownerInput repoInput branchInput).
  change (token api) with (trim tokenInput).
  change (owner api) with (trim ownerInput).
  change (repo api) with (trim repoInput).
  destruct (truthy (VStr (trim tokenInput))) eqn:Ht; cbn [negb].
  2: { split; [by intros (m & [=]) |].
       intros [Hne _]. apply truthy_VStr in Hne. congruence. }
  apply truthy_VStr in Ht.
  pose proof (validateToken_cases fetch getMessage headers_get api) as Hv.
  pose proof (checkRepo_cases fetch getMessage api) as Hc.
  cbv zeta in Hv, Hc.
  destruct Hv as [(r & d & Hr & Hok & Hd & Hn & ->) | [-> Hno]];
    cbn [valid scopes username negb].
  2: { split; [by intros (m & [=]) |].
       intros (_ & (r & d & Hr & Hok & Hj & Hn & _) & _). destruct Hno.
       by exists r, d. }
  destruct (array_includes _ (lit "repo")) eqn:Hscope; cbn [negb].
  2: { split; [by intros (m & [=]) |].
       intros (_ & (r' & d' & Hr' & _ & _ & _ & Hin) & _).
       rewrite Hr in Hr'. injection Hr' as <-.
       apply array_includes_In in Hin. congruence. }
  apply array_includes_In in Hscope.
  assert (Huser : exists r d, fetch {| url := API_BASE ++ lit "/user";
                                        method := None; body := None;
                                        headers := _headers api |} = Return r
                              /\ ok r = true /\ json r = Some d
                              /\ nullish d = false
                              /\ In (lit "repo")
                                   (parse_scopes (headers_get r "x-oauth-scopes"))).
  { by exists r, d. }
  destruct (truthy (VStr (trim ownerInput))) eqn:Ho;
    destruct (truthy (VStr (trim repoInput))) eqn:Hrp; cbn [andb].
  - destruct Hc as [[-> Hrepo] | [-> Hnone]]; cbn [negb].
    + split; [done | by eexists].
    + split; [by intros (m & [=]) |].
      intros (_ & _ & Hrepo). destruct Hnone.
      apply Hrepo; by apply truthy_VStr.
  - split; [|by eexists]. intros _. split_and!; [done..|].
    intros _ Hne%truthy_VStr. congruence.
  - split; [|by eexists]. intros _. split_and!; [done..|].
    intros Hne%truthy_VStr. congruence.
  - split; [|by eexists]. intros _. split_and!; [done..|].
    intros Hne%truthy_VStr. congruence.
Qed.

End Validate.

Lemma validate_success_iff_witness :
  exists message,
    last (validate (fun _ => Return user_found) sample_getMessage
            sample_headers (lit " t ") (lit "o") (lit "r") [])
    = Some (message, "success"%string).
Proof.
  apply (proj2 (validate_success_iff (fun _ => Return user_found)
                  sample_getMessage sample_headers
                  (lit " t ") (lit "o") (lit "r") [])).
  split; [discriminate|]. split.
  - exists user_found, (VObj [("login", VStr (lit "octocat"))]).
    split_and!; try reflexivity. vm_compute. left. reflexivity.
  - intros _ _. exists user_found. split; reflexivity.
Defined.

End OptionsProps.

(** ** The theme *)

Module ThemeProps.
Import JS Operators Theme.

(** The theme an event chooses, if it chooses one. *)
Definition choice (e : Event) : option value :=
  match e with
  | InitTheme storage =>
      Some (default (VStr (lit "auto")) (storage !! STORAGE_KEY))
  | ApplyTheme t => Some t
  | Change _ => None
  end.

Definition chooses_auto (e : Event) : bool :=
  match choice e with
  | Some t => strict_eq_str t (lit "auto")
  | None => false
  end.

(** How often ['auto'] has been chosen. *)
Definition autos (events : list Event) : nat :=
  length (List.filter chooses_auto events).

Lemma initTheme_applyTheme storage doc :
  initTheme storage doc
  = applyTheme (default (VStr (lit "auto")) (storage !! STORAGE_KEY)) doc.
Proof. reflexivity. Qed.

Lemma applyTheme_listeners t doc :
  listeners (applyTheme t doc)
  = (listeners doc + if strict_eq_str t (lit "auto") then 1 else 0)%nat.
Proof.
  unfold applyTheme. cbn [apply mediaQueryListener].
  destruct (strict_eq_str t (lit "auto")), (mediaQueryListener doc);
    cbn; lia.
Qed.

Lemma notify_all n doc :
  let doc' := Nat.iter n
                (fun d => apply (resolveIsDark (VStr (lit "auto")) d) d) doc in
  listeners doc' = listeners doc
  /\ prefers_dark doc' = prefers_dark doc
  /\ mediaQueryListener doc' = mediaQueryListener doc
  /\ dark doc' = match n with
                 | O => dark doc
                 | S _ => prefers_dark doc
                 end.
Proof.
  cbv zeta. induction n as [|n (Hl & Hp & Hm & Hd)]; [done|].
  cbn [Nat.iter apply listeners prefers_dark mediaQueryListener dark].
  by split_and!.
Qed.

Lemma change_listeners matches doc :
  listeners (change matches doc) = listeners doc
  /\ dark (change matches doc)
     = match listeners doc with
       | O => dark doc
       | S _ => matches
       end.
Proof.
  unfold change.
  match goal with
  | |- context [Nat.iter ?n ?f ?d] =>
      destruct (notify_all n d) as (Hl & _ & _ & Hd)
  end.
  rewrite Hl, Hd. split; reflexivity.
Qed.

Lemma step_listeners doc e :
  listeners (step doc e)
  = (listeners doc + if chooses_auto e then 1 else 0)%nat.
Proof.
  destruct e as [storage | t | m]; cbn [step].
  - rewrite initTheme_applyTheme. apply applyTheme_listeners.
  - apply applyTheme_listeners.
  - destruct (change_listeners m doc) as [-> _]. cbn. lia.
Qed.

Lemma run_listeners doc events :
  listeners (foldl step doc events) = (listeners doc + autos events)%nat.
Proof.
  unfold autos. revert doc.
  induction events as [|e events IH]; intros doc; cbn [foldl List.filter].
  - cbn. lia.
  - rewrite IH, step_listeners.
    destruct (chooses_auto e); cbn [length]; lia.
Qed.

(** The module never takes a change listener off: after any sequence of
    [initTheme], [applyTheme] and changes of the system preference, as
    many listeners are registered as ['auto'] has been chosen.  So once
    ['auto'] has been chosen, every later change of the system
    preference turns the page to that preference, whichever theme has
    been chosen since, ['dark'] and ['light'] included; only while
    ['auto'] has never been chosen do such changes leave the page as it
    is.  Right after [applyTheme], the page is dark for ['dark'] and
    light for ['light']. *)
Theorem theme_listeners_accumulate isDark matches events :
  let doc := foldl step (loaded isDark matches) events in
  listeners doc = autos events
  /\ (forall m, (0 < autos events)%nat -> dark (change m doc) = m)
  /\ (forall m, autos events = 0%nat -> dark (change m doc) = dark doc)
  /\ dark (applyTheme (VStr (lit "dark")) doc) = true
  /\ dark (applyTheme (VStr (lit "light")) doc) = false.
Proof.
  cbv zeta.
  pose proof (run_listeners (loaded isDark matches) events) as Hl.
  cbn [loaded listeners] in Hl. rewrite Nat.add_0_l in Hl.
  split_and!; [done| | | |].
  - intros m Hpos. destruct (change_listeners m
                               (foldl step (loaded isDark matches) events))
      as [_ ->].
    rewrite Hl. destruct (autos events); [lia | done].
  - intros m Hnone. destruct (change_listeners m
                                (foldl step (loaded isDark matches) events))
      as [_ ->].
    by rewrite Hl, Hnone.
  - unfold applyTheme. cbn [apply mediaQueryListener].
    by destruct (mediaQueryListener _).
  - unfold applyTheme. cbn [apply mediaQueryListener].
    by destruct (mediaQueryListener _).
Qed.

Lemma theme_listeners_accumulate_witness :
  dark (change false
          (foldl step (loaded false true)
             [InitTheme ∅; ApplyTheme (VStr (lit "dark"))])) = false.
Proof.
  apply (proj1 (proj2 (theme_listeners_accumulate false true
                         [InitTheme ∅; ApplyTheme (VStr (lit "dark"))]))).
  vm_compute. lia.
Defined.

End ThemeProps.
